(** * Sleeper playoff-odds collector: crawl state, league processor, client

    A shallow embedding of [sleeper_api.py], the parts of [db.py] that the
    collector writes through, and [collector.py] (the checkpoint store, the
    frontier walker [crawl_and_store_leagues] and [process_league]).

    Conventions.
    - Decoded JSON payloads are typed records.  A key the code reads with
      [dict.get(k)] or tests with [in] and [is not None] is an [option]
      field whose [None] stands for a missing key or a JSON null, which
      the code does not tell apart.  A key read with a default
      ([dict.get(k, d)]: [total_rosters], [settings], [playoff_teams], a
      stub's [league_id]) is an [option] field whose [None] stands for a
      missing key; when present such a key holds a value of its type.
      Counts are JSON integers ([Z]); identifiers have the types of the
      source's annotations ([str] user and league ids, [int] roster ids).
    - Mutable state (the client's call log, the SQLite tables, the
      checkpoint file, the random generator) lives in one [world] that is
      threaded through a state-and-exception monad; an exception keeps the
      world it was raised in.
    - Integers are Python's unbounded ints.  The two places where the
      code can fail on their size are modelled: [int / int] on a quotient
      too large for a double, and [sqlite3] on a parameter outside the
      signed 64-bit range; both raise [OverflowError].
    - [print] calls and the rate limiter's sleeping are not modelled. *)

From Stdlib Require Import ZArith Lia String List Bool.
From stdpp Require Import gmap strings list fin_maps pretty.

Local Open Scope Z_scope.

(** ** Python's [int / int] and float comparison *)

Module PyFloat.

(** A finite binary64 value, [fmant * 2 ^ fexp]. *)
Record float := Float { fmant : Z; fexp : Z }.

(** [x * 2 ^ k] for [k >= 0], [x] itself for a negative [k]: used to
    cross-multiply instead of dividing by a power of two. *)
Definition shl (x k : Z) : Z := x * 2 ^ Z.max 0 k.

(** [n / d] rounded to the nearest integer, ties to even ([0 <= n], [0 < d]). *)
Definition rne_div (n d : Z) : Z :=
  let q := n / d in
  let r := n mod d in
  if 2 * r <? d then q
  else if d <? 2 * r then q + 1
  else if Z.even q then q else q + 1.

(** [floor (log2 (n / d))] for positive [n] and [d]. *)
Definition ratio_log2 (n d : Z) : Z :=
  let e0 := Z.log2 n - Z.log2 d in
  if shl d e0 <=? shl n (- e0) then e0 else e0 - 1.

Inductive arith_error := ZeroDivisionError | OverflowError.

(** True division of two Python ints ([long_true_divide]): the exact
    quotient correctly rounded to binary64, round-half-even on a 53-bit
    significand, gradual underflow below [2 ^ -1022], [OverflowError] from
    [2 ^ 1024] on. *)
Definition int_truediv (a b : Z) : arith_error + float :=
  if b =? 0 then inl ZeroDivisionError
  else if a =? 0 then inr (Float 0 0)
  else
    let n := Z.abs a in
    let d := Z.abs b in
    let qe := Z.max (ratio_log2 n d - 52) (-1074) in
    let m := rne_div (shl n (- qe)) (shl d qe) in
    if 2 ^ 1024 <=? shl m qe then inl OverflowError
    else inr (Float (Z.sgn a * Z.sgn b * m) qe).

(** [x > y] on finite floats. *)
Definition float_gt (x y : float) : bool :=
  shl (fmant y) (fexp y - fexp x) <? shl (fmant x) (fexp x - fexp y).

(** The literal [0.67]: the binary64 value nearest to 67/100, which is
    [6034823500676465 / 2 ^ 53] (slightly above 67/100). *)
Definition lit_0_67 : float := Float 6034823500676465 (-53).

End PyFloat.

(** ** Payloads of the remote service *)

(** A user object, as [/user/<name>] and [/league/<id>/users] return it. *)
Record user := User { user_id : option string }.

(** An entry of [/user/<id>/leagues/nfl/<season>]. *)
Record league_stub := LeagueStub {
  stub_league_id : option string;
  stub_sport : option string }.

Record league_settings := Settings { playoff_teams : option Z }.

(** The object of [/league/<id>].  [other_keys] names the remaining keys
    of the dict (those the collector never reads, and [name] or [status]
    when they hold null); they only matter for the truth value of the
    dict in [if not league]. *)
Record league := League {
  name : option string;
  status : option string;
  total_rosters : option Z;
  settings : option league_settings;
  other_keys : list string }.

Record roster := Roster {
  roster_id : option Z;
  owner_id : option string;
  players : option (list string) }.

(** A matchup of the winners bracket; [t1] is [None] when the key is
    missing or null. *)
Record matchup := Matchup { t1 : option Z; t2 : option Z }.

Inductive endpoint :=
  | EUser (username : string)
  | EUserLeagues (uid : string) (season : Z)
  | ELeague (league_id : string)
  | ELeagueUsers (league_id : string)
  | ELeagueRosters (league_id : string)
  | EWinnersBracket (league_id : string).

(** What [resp.json()] decodes to at each endpoint. *)
Definition payload (e : endpoint) : Type :=
  match e with
  | EUser _ => option user
  | EUserLeagues _ _ => list league_stub
  | ELeague _ => option league
  | ELeagueUsers _ => list user
  | ELeagueRosters _ => list roster
  | EWinnersBracket _ => list matchup
  end.

Record Response (A : Type) := mkResponse { status_code : Z; json : A }.
Arguments mkResponse {A} _ _.
Arguments status_code {A} _.
Arguments json {A} _.

(** The remote service: the answer to a request may depend on every
    request issued before it. *)
Definition remote : Type := list endpoint -> forall e : endpoint, Response (payload e).

(** ** The relational store ([db.py]) *)

Record league_row := LeagueRow {
  row_season : string;
  row_name : option string;
  row_total_rosters : option Z;
  row_playoff_teams : option Z;
  row_status : option string }.

(** [made_playoffs INTEGER]: [None] is SQL NULL. *)
Record roster_row := RosterRow {
  row_owner_id : option string;
  row_made_playoffs : option Z }.

Record database := Database {
  leagues : gmap string league_row;
  rosters : gmap (string * Z) roster_row;
  roster_players : gset (string * Z * string) }.

Definition empty_db : database := Database ∅ ∅ ∅.

(** ** The checkpoint file and the world *)

(** The JSON object of [crawl_state.json]. *)
Record crawl_state := CrawlState {
  seen_user_ids_json : list string;
  user_queue_json : list string }.

Record world := World {
  calls : list endpoint;           (* requests issued so far, oldest first *)
  db : database;
  commits : nat;                   (* number of [conn.commit()] so far *)
  state_file : option crawl_state; (* [None]: the file does not exist *)
  rand_draws : nat }.              (* number of [random.randint] calls so far *)

Definition set_calls (c : list endpoint) (w : world) : world :=
  World c (db w) (commits w) (state_file w) (rand_draws w).
(** A write to the store followed by [conn.commit()]. *)
Definition commit_db (d : database) (w : world) : world :=
  World (calls w) d (S (commits w)) (state_file w) (rand_draws w).
Definition set_state_file (f : option crawl_state) (w : world) : world :=
  World (calls w) (db w) (commits w) f (rand_draws w).
Definition set_rand_draws (n : nat) (w : world) : world :=
  World (calls w) (db w) (commits w) (state_file w) n.

(** [w] after the further requests [es]. *)
Definition after (es : list endpoint) (w : world) : world :=
  set_calls (calls w ++ es) w.

(** ** Exceptions and the state-and-exception monad *)

Inductive exn :=
  | RuntimeError                      (* "Rate limited (429) on ..." *)
  | HTTPError (status : Z)            (* [requests.HTTPError], with [e.response.status_code] *)
  | IndexError                        (* "pop from an empty deque" *)
  | ArithmeticError (e : PyFloat.arith_error).
                                      (* [ZeroDivisionError] or [OverflowError], both
                                         subclasses of [ArithmeticError] *)

Inductive result (A : Type) :=
  | Return (a : A)
  | Raise (e : exn).
Arguments Return {A} _.
Arguments Raise {A} _.

Definition M (A : Type) : Type := world -> result A * world.

Definition ret {A} (a : A) : M A := fun w => (Return a, w).
Definition raise {A} (e : exn) : M A := fun w => (Raise e, w).
Definition bind {A B} (m : M A) (k : A -> M B) : M B :=
  fun w => match m w with
           | (Return a, w') => k a w'
           | (Raise e, w') => (Raise e, w')
           end.
Definition modify (f : world -> world) : M unit := fun w => (Return tt, f w).
Definition gets {A} (f : world -> A) : M A := fun w => (Return (f w), w).

Notation "'let*' x ':=' m 'in' k" := (bind m (fun x => k))
  (at level 10, x name, m at level 100, k at level 200).
Notation "m ';;' k" := (bind m (fun _ => k))
  (at level 100, k at level 200, right associativity).

(** [try: m  except requests.HTTPError as e: h e]; any other exception
    passes through. *)
Definition except_HTTPError {A} (m : M A) (h : Z -> M A) : M A :=
  fun w => match m w with
           | (Raise (HTTPError st), w') => h st w'
           | r => r
           end.

(** [for x in xs: body x] *)
Fixpoint for_each {A} (xs : list A) (body : A -> M unit) : M unit :=
  match xs with
  | [] => ret tt
  | x :: xs' => body x ;; for_each xs' body
  end.

(** ** Truth values and small Python idioms *)

(** [bool(s)] for a string. *)
Definition str_truthy (s : string) : bool := negb (String.eqb s "").

(** [bool(d)] for the league dict: false exactly when it has no key. *)
Definition league_truthy (l : league) : bool :=
  match name l, status l, total_rosters l, settings l, other_keys l with
  | None, None, None, None, [] => false
  | _, _, _, _, _ => true
  end.

(** [x == s] for an optional string [x] and a string literal [s]. *)
Definition opt_str_eqb (o : option string) (s : string) : bool :=
  match o with Some x => String.eqb x s | None => false end.

(** ** The client ([sleeper_api.py]) *)

Section Client.

Variable srv : remote.

(** [SleeperAPI._get]: one request; 429 raises [RuntimeError],
    [raise_for_status] raises [HTTPError] on every other 4xx and 5xx
    status, otherwise the decoded body is returned. *)
Definition _get (e : endpoint) : M (payload e) :=
  fun w =>
    let resp := srv (calls w) e in
    let w' := set_calls (calls w ++ [e]) w in
    if status_code resp =? 429 then (Raise RuntimeError, w')
    else if (400 <=? status_code resp) && (status_code resp <? 600)
         then (Raise (HTTPError (status_code resp)), w')
         else (Return (json resp), w').

Definition get_user (username : string) : M (option user) :=
  except_HTTPError (_get (EUser username))
    (fun st => if st =? 404 then ret None else raise (HTTPError st)).

Definition get_user_leagues (uid : string) (season : Z) : M (list league_stub) :=
  except_HTTPError (_get (EUserLeagues uid season)) (fun _ => ret []).

Definition get_league (league_id : string) : M (option league) :=
  except_HTTPError (_get (ELeague league_id))
    (fun st => if st =? 404 then ret None else raise (HTTPError st)).

Definition get_league_users (league_id : string) : M (list user) :=
  except_HTTPError (_get (ELeagueUsers league_id)) (fun _ => ret []).

Definition get_league_rosters (league_id : string) : M (list roster) :=
  except_HTTPError (_get (ELeagueRosters league_id)) (fun _ => ret []).

Definition get_winners_bracket (league_id : string) : M (list matchup) :=
  except_HTTPError (_get (EWinnersBracket league_id)) (fun _ => ret []).

End Client.

(** [extract_playoff_roster_ids]: the loop over the bracket adds every
    non-null [t1] and [t2] to [roster_ids]; a falsy (empty) bracket
    returns the empty set at once. *)
Definition add_slot (slot : option Z) (roster_ids : gset Z) : gset Z :=
  match slot with
  | Some r => roster_ids ∪ {[ r ]}
  | None => roster_ids
  end.

Definition extract_playoff_roster_ids (bracket : list matchup) : gset Z :=
  match bracket with
  | [] => ∅
  | _ => foldl (fun roster_ids m => add_slot (t2 m) (add_slot (t1 m) roster_ids)) ∅ bracket
  end.

(** ** Writes to the store ([db.py]) *)

(** SQLite stores signed 64-bit integers.  Asked to bind a Python int
    outside that range, [sqlite3] raises [OverflowError] ("Python int too
    large to convert to SQLite INTEGER") from [execute], before the row is
    written and before [conn.commit()]. *)
Definition sqlite_int (z : Z) : bool := (- 2 ^ 63 <=? z) && (z <? 2 ^ 63).

(** An integer parameter that may be [None] (bound as NULL). *)
Definition sqlite_param (o : option Z) : bool :=
  match o with Some z => sqlite_int z | None => true end.

(** [INSERT OR REPLACE INTO leagues]. *)
Definition insert_league (league_id season : string) (nm : option string)
    (total : option Z) (playoff : option Z) (st : option string) : M unit :=
  if sqlite_param total && sqlite_param playoff then
    modify (fun w =>
      commit_db (Database (<[league_id := LeagueRow season nm total playoff st]> (leagues (db w)))
                       (rosters (db w)) (roster_players (db w))) w)
  else raise (ArithmeticError PyFloat.OverflowError).

(** [None if made_playoffs is None else (1 if made_playoffs else 0)] *)
Definition made_playoffs_int (made_playoffs : option bool) : option Z :=
  match made_playoffs with
  | None => None
  | Some b => Some (if b then 1 else 0)
  end.

(** [INSERT OR REPLACE INTO rosters]. *)
Definition insert_roster (league_id : string) (rid : Z) (owner : option string)
    (made_playoffs : option bool) : M unit :=
  if sqlite_int rid then
    modify (fun w =>
      commit_db (Database (leagues (db w))
                       (<[(league_id, rid) := RosterRow owner (made_playoffs_int made_playoffs)]>
                          (rosters (db w)))
                       (roster_players (db w))) w)
  else raise (ArithmeticError PyFloat.OverflowError).

(** [INSERT OR IGNORE INTO roster_players], one row per player id;
    [executemany] binds [roster_id] once per row, so with no row nothing
    is bound. *)
Definition insert_roster_players (league_id : string) (rid : Z)
    (player_ids : list string) : M unit :=
  if sqlite_int rid || bool_decide (player_ids = []) then
    modify (fun w =>
      commit_db (Database (leagues (db w)) (rosters (db w))
                       (roster_players (db w)
                          ∪ list_to_set ((fun pid => (league_id, rid, pid)) <$> player_ids))) w)
  else raise (ArithmeticError PyFloat.OverflowError).

Definition league_exists (league_id : string) : M bool :=
  gets (fun w => bool_decide (is_Some (leagues (db w) !! league_id))).

(** ** The league processor ([collector.process_league]) *)

(** [total_rosters > 0 and playoff_teams / total_rosters > 0.67]; the
    division is only evaluated when the first conjunct holds. *)
Definition fraction_too_high (playoff total : Z) : M bool :=
  if 0 <? total then
    match PyFloat.int_truediv playoff total with
    | inl e => raise (ArithmeticError e)
    | inr q => ret (PyFloat.float_gt q PyFloat.lit_0_67)
    end
  else ret false.

(** [roster_id in playoff_roster_ids if playoff_roster_ids else None] *)
Definition made_playoffs_of (rid : Z) (playoff_roster_ids : gset Z) : option bool :=
  if bool_decide (playoff_roster_ids = ∅) then None
  else Some (bool_decide (rid ∈ playoff_roster_ids)).

Section Processor.

Variable srv : remote.

(** Body of [for roster in rosters]. *)
Definition store_roster (league_id : string) (playoff_roster_ids : gset Z)
    (r : roster) : M unit :=
  match roster_id r with
  | None => ret tt
  | Some rid =>
      let owner := owner_id r in
      let pls := default [] (players r) in
      let made_playoffs := made_playoffs_of rid playoff_roster_ids in
      insert_roster league_id rid owner made_playoffs ;;
      insert_roster_players league_id rid pls
  end.

Definition process_league (league_id : string) (season : Z) : M bool :=
  let* lg := get_league srv league_id in
  match lg with
  | None => ret false
  | Some lg =>
    if negb (league_truthy lg) then ret false else
    let st := status lg in
    if opt_str_eqb st "pre_draft" || opt_str_eqb st "drafting" then ret false else
    let stg := default (Settings None) (settings lg) in
    let playoff := default 6 (playoff_teams stg) in
    let total := default 12 (total_rosters lg) in
    let* too_high := fraction_too_high playoff total in
    if too_high then ret false else
    insert_league league_id (pretty season) (name lg) (total_rosters lg)
                  (Some playoff) st ;;
    let* rs := get_league_rosters srv league_id in
    match rs with
    | [] => ret false
    | _ =>
      let* bracket := get_winners_bracket srv league_id in
      let playoff_roster_ids := extract_playoff_roster_ids bracket in
      for_each rs (store_roster league_id playoff_roster_ids) ;;
      ret true
    end
  end.

End Processor.

(** ** The checkpoint store ([collector.py]) *)

(** [load_crawl_state]: the file's object, or the empty state when the
    file does not exist. *)
Definition load_crawl_state : M crawl_state :=
  gets (fun w => default (CrawlState [] []) (state_file w)).

(** [save_crawl_state]: the file is overwritten with
    [list(seen_user_ids)] (in the set's iteration order, here
    [elements]) and [list(user_queue)]. *)
Definition save_crawl_state (seen : gset string) (queue : list string) : M unit :=
  modify (set_state_file (Some (CrawlState (elements seen) queue))).


(** ** The frontier walker ([collector.crawl_and_store_leagues]) *)

(** The local variables of the walker that live across iterations. *)
Record walker := Walker {
  seen_user_ids : gset string;
  user_q : list string;
  seen_leagues : gset string;
  leagues_processed : Z }.

Definition set_user_q (q : list string) (v : walker) : walker :=
  Walker (seen_user_ids v) q (seen_leagues v) (leagues_processed v).

(** [deque.rotate(n)]: [n] steps to the right. *)
Definition deque_rotate {A} (n : nat) (q : list A) : list A :=
  let k := (length q - n mod length q)%nat in
  drop k q ++ take k q.

(** The loop [for u in league_users: ...  user_q.append(u_id)]. *)
Definition enqueue_users (league_users : list user) (seen : gset string)
    (q : list string) : list string :=
  foldl (fun q u =>
           match user_id u with
           | Some u_id =>
               if str_truthy u_id && negb (bool_decide (u_id ∈ seen))
               then q ++ [u_id] else q
           | None => q
           end) q league_users.

(** The arguments of [crawl_and_store_leagues] other than the client and
    the seeds. *)
Record crawl_config := CrawlConfig {
  season : Z;
  target_leagues : Z;
  max_users_to_visit : Z;
  max_leagues_per_user : Z;
  shuffle_queue : bool;
  skip_existing : bool }.

Section Walker.

Variable srv : remote.
(** The raw value of the [i]-th draw of the random generator. *)
Variable rnd : nat -> nat.

Variable cfg : crawl_config.

(** [random.randint(lo, hi)], for [lo <= hi]. *)
Definition randint (lo hi : nat) : M nat :=
  fun w => (Return (lo + rnd (rand_draws w) mod (hi - lo + 1))%nat,
            set_rand_draws (S (rand_draws w)) w).

(** The seed loop of lines 83-86. *)
Fixpoint resolve_seeds (seed_usernames : list string) (q : list string)
    : M (list string) :=
  match seed_usernames with
  | [] => ret q
  | username :: rest =>
      let* u := get_user srv username in
      match u with
      | Some (User (Some uid)) =>
          if str_truthy uid then resolve_seeds rest (q ++ [uid])
          else resolve_seeds rest q
      | _ => resolve_seeds rest q
      end
  end.

(** Lines 74-88: load the checkpoint and, when its queue is empty,
    resolve the seeds. *)
Definition crawl_init (seed_usernames : list string) : M walker :=
  let* st := load_crawl_state in
  let seen := list_to_set (seen_user_ids_json st) in
  let q := user_queue_json st in
  let* q' := match q with
             | [] => resolve_seeds seed_usernames q
             | _ => ret q
             end in
  ret (Walker seen q' ∅ 0).

(** The loop [for lg in leagues] of one walker iteration;
    [from_this_user] is [leagues_from_this_user]. *)
Fixpoint leagues_loop (lgs : list league_stub) (v : walker)
    (from_this_user : Z) : M walker :=
  match lgs with
  | [] => ret v
  | lg :: rest =>
    let league_id := default "" (stub_league_id lg) in
    if negb (str_truthy league_id) || bool_decide (league_id ∈ seen_leagues v)
    then leagues_loop rest v from_this_user
    else if negb (opt_str_eqb (stub_sport lg) "nfl")
    then leagues_loop rest v from_this_user
    else
      let v1 := Walker (seen_user_ids v) (user_q v)
                       (seen_leagues v ∪ {[ league_id ]}) (leagues_processed v) in
      let* in_db := (if skip_existing cfg then league_exists league_id else ret false) in
      if in_db then
        let* league_users := get_league_users srv league_id in
        leagues_loop rest
          (set_user_q (enqueue_users league_users (seen_user_ids v1) (user_q v1)) v1)
          from_this_user
      else
        let* success := process_league srv league_id (season cfg) in
        let* vn :=
          (if success then
             let* league_users := get_league_users srv league_id in
             ret (Walker (seen_user_ids v1)
                         (enqueue_users league_users (seen_user_ids v1) (user_q v1))
                         (seen_leagues v1) (leagues_processed v1 + 1),
                  from_this_user + 1)
           else ret (v1, from_this_user)) in
        if target_leagues cfg <=? leagues_processed (fst vn) then ret (fst vn)
        else if max_leagues_per_user cfg <=? snd vn then ret (fst vn)
        else leagues_loop rest (fst vn) (snd vn)
  end.

(** The condition of the [while]. *)
Definition loop_guard (v : walker) : bool :=
  negb (bool_decide (user_q v = []))
  && (leagues_processed v <? target_leagues cfg)
  && (Z.of_nat (size (seen_user_ids v)) <? max_users_to_visit cfg).

(** Lines 93-94: the optional random rotation. *)
Definition shuffle (q : list string) : M (list string) :=
  if shuffle_queue cfg && (1 <? length q)%nat then
    let* n := randint 0 (length q - 1) in
    ret (deque_rotate n q)
  else ret q.

(** One iteration of the [while] body (lines 93-146). *)
Definition loop_body (v : walker) : M walker :=
  let* q := shuffle (user_q v) in
  match q with
  | [] => raise IndexError
  | uid :: q' =>
    if bool_decide (uid ∈ seen_user_ids v) then ret (set_user_q q' v)
    else
      let v1 := Walker (seen_user_ids v ∪ {[ uid ]}) q'
                       (seen_leagues v) (leagues_processed v) in
      let* lgs := get_user_leagues srv uid (season cfg) in
      let* v2 := leagues_loop lgs v1 0 in
      (if Z.of_nat (size (seen_user_ids v2)) mod 10 =? 0
       then save_crawl_state (seen_user_ids v2) (user_q v2)
       else ret tt) ;;
      ret v2
  end.

(** The [while] loop, cut off after [fuel] iterations ([None]). *)
Fixpoint walk (fuel : nat) (v : walker) : M (option walker) :=
  if loop_guard v then
    match fuel with
    | O => ret None
    | S fuel' => let* v' := loop_body v in walk fuel' v'
    end
  else ret (Some v).

(** The whole function up to its final save (line 149); the walker's
    variables at exit are returned with it. *)
Definition crawl_run (fuel : nat) (seed_usernames : list string) : M (option walker) :=
  let* v0 := crawl_init seed_usernames in
  let* r := walk fuel v0 in
  match r with
  | None => ret None
  | Some v =>
      save_crawl_state (seen_user_ids v) (user_q v) ;;
      ret (Some v)
  end.

Definition crawl_and_store_leagues (fuel : nat) (seed_usernames : list string)
    : M (option Z) :=
  let* r := crawl_run fuel seed_usernames in
  ret (leagues_processed <$> r).

End Walker.

(** ** Vocabulary of the statements *)

(** A status on which [raise_for_status] raises. *)
Definition http_error (st : Z) : bool := (400 <=? st) && (st <? 600).

(** ** A small remote service and store used to exercise the statements *)

Definition demo_rosters : list roster :=
  [ Roster (Some 3) (Some "u1") (Some ["p1"; "p2"]);
    Roster (Some 5) (Some "u2") None;
    Roster (Some 7) None (Some []);
    Roster (Some 1) (Some "u3") (Some ["p1"]);
    Roster None (Some "u4") (Some ["p9"]) ].

Definition demo_bracket : list matchup :=
  [ Matchup (Some 3) (Some 5); Matchup (Some 3) (Some 7) ].

Definition demo_league (total playoff : option Z) : league :=
  League (Some "Demo") (Some "complete") total (Some (Settings playoff)) ["season"].

(** Leagues "L8", "L9", "L67" differ in their counts; "Lhuge" has more
    rosters than SQLite can count and "Lwide" a fraction no double can
    hold; "Lbare" omits both
    counts; "Lnobracket" has no bracket; "Lpre" has not started; user
    "alice" is "u1".  "limited", "gone" and "broken" answer 429, 404 and
    500 at every endpoint. *)
Definition demo_status (key : string) : Z :=
  if String.eqb key "limited" then 429
  else if String.eqb key "gone" then 404
  else if String.eqb key "broken" then 500
  else 200.

Definition demo_srv : remote := fun _ e =>
  match e return Response (payload e) with
  | EUser username =>
      mkResponse (demo_status username)
        (if String.eqb username "alice" then Some (User (Some "u1"))
         else if String.eqb username "bob" then Some (User (Some "u2"))
         else None)
  | EUserLeagues uid _ =>
      mkResponse (demo_status uid)
        (if String.eqb uid "u1"
         then [ LeagueStub (Some "L8") (Some "nfl"); LeagueStub (Some "L9") (Some "nfl") ]
         else [])
  | ELeague lid =>
      mkResponse (demo_status lid)
        (if String.eqb lid "L8" then Some (demo_league (Some 12) (Some 8))
         else if String.eqb lid "L9" then Some (demo_league (Some 12) (Some 9))
         else if String.eqb lid "L67" then Some (demo_league (Some 100) (Some 67))
         else if String.eqb lid "Lhuge" then Some (demo_league (Some (2 ^ 64)) (Some 8))
         else if String.eqb lid "Lwide" then Some (demo_league (Some 1) (Some (2 ^ 1024)))
         else if String.eqb lid "Lnobracket" then Some (demo_league (Some 10) (Some 4))
         else if String.eqb lid "Lbare"
              then Some (League (Some "Bare") (Some "in_season") None None [])
         else if String.eqb lid "Lpre"
              then Some (League (Some "Pre") (Some "pre_draft") (Some 12) None [])
         else None)
  | ELeagueUsers lid =>
      mkResponse (demo_status lid) [ User (Some "u1"); User (Some "u2"); User None ]
  | ELeagueRosters lid => mkResponse (demo_status lid) demo_rosters
  | EWinnersBracket lid =>
      mkResponse (demo_status lid)
        (if String.eqb lid "Lnobracket" then [] else demo_bracket)
  end.

Definition demo_world : world := World [] empty_db 0 None 0.

(** The status gate of [process_league]: the two pre-competitive statuses. *)
Definition not_started (lg : league) : bool :=
  opt_str_eqb (status lg) "pre_draft" || opt_str_eqb (status lg) "drafting".

(** The counts the fraction filter is evaluated on. *)
Definition filter_playoff_teams (lg : league) : Z :=
  default 6 (playoff_teams (default (Settings None) (settings lg))).
Definition filter_total_rosters (lg : league) : Z :=
  default 12 (total_rosters lg).

(** The integers of a league and of a roster fit SQLite's INTEGER. *)
Definition league_storable (lg : league) : bool :=
  sqlite_param (total_rosters lg) && sqlite_int (filter_playoff_teams lg).
Definition roster_storable (r : roster) : bool := sqlite_param (roster_id r).
Definition rosters_storable (rs : list roster) : bool := forallb roster_storable rs.

(** The row [process_league] upserts for a league. *)
Definition league_row_of (season : Z) (lg : league) : league_row :=
  LeagueRow (pretty season) (name lg) (total_rosters lg)
            (Some (filter_playoff_teams lg)) (status lg).

(** The store with that row upserted and committed. *)
Definition with_league (lid : string) (season : Z) (lg : league) (w : world) : world :=
  commit_db (Database (<[lid := league_row_of season lg]> (leagues (db w)))
                      (rosters (db w)) (roster_players (db w))) w.

(** Lines 189-213 of [process_league], the part that runs once the league
    row is committed. *)
Definition process_league_rosters (srv : remote) (lid : string) : M bool :=
  let* rs := get_league_rosters srv lid in
  match rs with
  | [] => ret false
  | _ =>
    let* bracket := get_winners_bracket srv lid in
    for_each rs (store_roster lid (extract_playoff_roster_ids bracket)) ;;
    ret true
  end.

(** [r], the outcome of a call started in [w], is a failure that
    persisted nothing. *)
Definition fails_persisting_nothing (r : result bool * world) (w : world) : Prop :=
  fst r = Return false /\ commits (snd r) = commits w /\ db (snd r) = db w.

(** For a league [lg] that passed the first two gates, [r] being the
    outcome of [process_league] started in [w]: the call fails with
    nothing persisted exactly when [total_rosters] is positive and
    [playoff_teams / total_rosters] exceeds [num / den]. *)
Definition fails_exactly_above (num den : Z) (lg : league)
    (r : result bool * world) (w : world) : Prop :=
  (fst r = Return false /\ commits (snd r) = commits w /\ db (snd r) = db w)
  <-> (0 < filter_total_rosters lg
       /\ num * filter_total_rosters lg < den * filter_playoff_teams lg).

(** The quotients [p / t] ([0 < t]) that Python's division rounds to a
    double above the literal [0.67]: those from the midpoint between the
    literal and the next double on, [12069647001352931 / 2 ^ 54]. *)
Definition above_0_67 (p t : Z) : Prop := 12069647001352931 * t <= p * 2 ^ 54.

(** The quotients [p / t] ([0 < t]) too large for a double: those whose
    magnitude is at least the midpoint between the largest double and
    [2 ^ 1024]. *)
Definition overflows_double (p t : Z) : Prop := (2 ^ 1024 - 2 ^ 970) * t <= Z.abs p.

(** The exception of an integer that does not fit: Python's
    [OverflowError], from [int / int] and from [sqlite3] alike. *)
Definition overflow_error : exn := ArithmeticError PyFloat.OverflowError.

(** The three stop conditions of the walker loop. *)
Definition stop_condition (cfg : crawl_config) (v : walker) : Prop :=
  user_q v = []
  \/ target_leagues cfg <= leagues_processed v
  \/ max_users_to_visit cfg <= Z.of_nat (size (seen_user_ids v)).

(** The walker's variables as rebuilt from a checkpoint object. *)
Definition walker_of_state (st : crawl_state) : walker :=
  Walker (list_to_set (seen_user_ids_json st)) (user_queue_json st) ∅ 0.

(** What is on disk, as [load_crawl_state] reads it. *)
Definition loaded (w : world) : crawl_state :=
  default (CrawlState [] []) (state_file w).

(** A configuration, a saved checkpoint and a generator for the examples. *)
Definition demo_cfg : crawl_config := CrawlConfig 2025 10 100 5 true true.
Definition demo_rnd : nat -> nat := fun i => i.
Definition resumed_world : world :=
  World [] empty_db 0 (Some (CrawlState ["u1"] ["u1"; "u2"])) 0.
Definition resumed_walker : walker := Walker {[ "u1" ]} ["u1"; "u2"] ∅ 0.

(** * Further vocabulary: the store as seen across a call *)

(** [m] relates every world it is started in to the world it leaves,
    whatever its outcome. *)
Definition keeps (R : world -> world -> Prop) {A} (m : M A) : Prop :=
  forall w, R w (snd (m w)).

(** Nothing is deleted: the requests of [w] are a prefix of those of
    [w'], every league and roster key of [w] is still present, every
    membership row is still there, and the commit count has not gone
    back. *)
Definition extends (w w' : world) : Prop :=
  calls w `prefix_of` calls w'
  /\ dom (leagues (db w)) ⊆ dom (leagues (db w'))
  /\ dom (rosters (db w)) ⊆ dom (rosters (db w'))
  /\ roster_players (db w) ⊆ roster_players (db w')
  /\ (commits w <= commits w')%nat.

(** The rows of every league other than [lid] are the same in [w] and
    [w']. *)
Definition same_elsewhere (lid : string) (w w' : world) : Prop :=
  forall l, l <> lid ->
    leagues (db w') !! l = leagues (db w) !! l
    /\ (forall r, rosters (db w') !! (l, r) = rosters (db w) !! (l, r))
    /\ (forall r p, (l, r, p) ∈ roster_players (db w') <-> (l, r, p) ∈ roster_players (db w)).

(** The requests [process_league] may issue, in order. *)
Definition league_requests (lid : string) : list endpoint :=
  [ELeague lid; ELeagueRosters lid; EWinnersBracket lid].

(** A second remote for the edge cases: league "Lnull" has a null
    detail, "Lempty" an empty roster list (and "Lhugeempty" also more
    rosters than SQLite can count), "Ldup" the roster list [dup_rosters], "Lrost429" and "Lbr429" answer
    429 to the roster and to the bracket request, "Lnullslots" has a
    bracket whose only matchup has no team yet; user "u1" lists league
    "A" twice, a basketball league, a stub without id and league "B". *)
Definition edge_stubs : list league_stub :=
  [ LeagueStub (Some "A") (Some "nfl");
    LeagueStub (Some "A") (Some "nfl");
    LeagueStub (Some "N") (Some "nba");
    LeagueStub None (Some "nfl");
    LeagueStub (Some "B") (Some "nfl") ].

(** Two fetched rosters that carry the same id with different owners. *)
Definition dup_rosters : list roster :=
  [ Roster (Some 3) (Some "u1") (Some ["p1"]);
    Roster (Some 3) (Some "u2") None ].

Definition edge_users : list user :=
  [ User (Some "u1"); User (Some "u2"); User (Some ""); User None;
    User (Some "u3"); User (Some "u2") ].

Definition edge_srv : remote := fun _ e =>
  match e return Response (payload e) with
  | EUser username => mkResponse 200 (Some (User (Some username)))
  | EUserLeagues uid _ =>
      mkResponse 200 (if String.eqb uid "u1" then edge_stubs else [])
  | ELeague lid =>
      mkResponse 200
        (if String.eqb lid "Lnull" then None
         else if String.eqb lid "Lhugeempty"
              then Some (demo_league (Some (2 ^ 64)) (Some 4))
         else if String.eqb lid "Lpre"
              then Some (League (Some "Pre") (Some "pre_draft") (Some 12) None [])
         else Some (demo_league (Some 10) (Some 4)))
  | ELeagueUsers lid => mkResponse 200 edge_users
  | ELeagueRosters lid =>
      if String.eqb lid "Lempty" || String.eqb lid "Lhugeempty" then mkResponse 200 []
      else if String.eqb lid "Lrost429" then mkResponse 429 []
      else if String.eqb lid "Ldup" then mkResponse 200 dup_rosters
      else mkResponse 200 demo_rosters
  | EWinnersBracket lid =>
      if String.eqb lid "Lbr429" then mkResponse 429 []
      else if String.eqb lid "Lnullslots" then mkResponse 200 [Matchup None None]
      else mkResponse 200 demo_bracket
  end.

(** A roster id occupies a slot of some matchup of the bracket. *)
Definition in_bracket (rid : Z) (bracket : list matchup) : Prop :=
  exists m, m ∈ bracket /\ (t1 m = Some rid \/ t2 m = Some rid).

(** What one turn of the loop of [process_league] does to the roster
    table and to the membership table. *)
Definition row_step (lid : string) (ids : gset Z)
    (m : gmap (string * Z) roster_row) (r : roster) : gmap (string * Z) roster_row :=
  match roster_id r with
  | Some rid =>
      <[(lid, rid) := RosterRow (owner_id r)
                        (made_playoffs_int (made_playoffs_of rid ids))]> m
  | None => m
  end.

Definition member_step (lid : string) (s : gset (string * Z * string)) (r : roster)
    : gset (string * Z * string) :=
  match roster_id r with
  | Some rid =>
      s ∪ list_to_set ((fun pid => (lid, rid, pid)) <$> default [] (players r))
  | None => s
  end.

(** The roster rows and the membership rows that the loop writes for
    the fetched rosters [rs], as tables: a later roster with the same id
    replaces the row of an earlier one. *)
Definition roster_rows (lid : string) (ids : gset Z) (rs : list roster)
    : gmap (string * Z) roster_row :=
  foldl (row_step lid ids) ∅ rs.

Definition roster_members (lid : string) (rs : list roster)
    : gset (string * Z * string) :=
  foldl (member_step lid) ∅ rs.

(** The league ids whose detail is requested in a list of requests. *)
Definition league_detail_requests (es : list endpoint) : list string :=
  omap (fun e => match e with ELeague lid => Some lid | _ => None end) es.

(** A world holding league "A" already, and a walker about to look at it. *)
Definition stored_world : world :=
  World [] (Database {[ "A" := LeagueRow "2025" None (Some 10) (Some 4) None ]} ∅ ∅)
        1 None 0.

(** The requests [l] issued between [w] and [w'] ask for no league
    detail twice and for none of a league in [S]. *)
Definition fresh_requests (S : gset string) (w w' : world) (l : list endpoint) : Prop :=
  calls w' = calls w ++ l
  /\ NoDup (league_detail_requests l)
  /\ forall lid, lid ∈ league_detail_requests l -> lid ∉ S.

(** [fresh_requests] for a computation on the walker's variables with outcome [r]:
    if it returns, the leagues of [S] and those it asked for are among its
    seen leagues. *)
Definition asks_once (S : gset string) (w : world) (r : result walker * world)
    (l : list endpoint) : Prop :=
  fresh_requests S w (snd r) l
  /\ forall v', fst r = Return v' ->
       S ⊆ seen_leagues v'
       /\ forall lid, lid ∈ league_detail_requests l -> lid ∈ seen_leagues v'.

(** The league a request fetches data of: its detail, its rosters or
    its bracket.  The other requests look up a user, a user's leagues or
    a league's users. *)
Definition league_data_of (e : endpoint) : option string :=
  match e with
  | ELeague lid | ELeagueRosters lid | EWinnersBracket lid => Some lid
  | _ => None
  end.

Definition league_data_requests (es : list endpoint) : list string :=
  omap league_data_of es.

(** Between [w] and [w'] nothing was deleted and no data was fetched of
    a league that [w] had in its store. *)
Definition avoids_stored (w w' : world) : Prop :=
  extends w w'
  /\ forall l, calls w' = calls w ++ l ->
       forall lid, lid ∈ league_data_requests l -> leagues (db w) !! lid = None.

(** ** Reading the store ([db.get_league_count], [db.get_roster_count],
    the counts of [db.get_playoff_odds]) *)

(** The readers open a connection, run one or two [SELECT]s and close it
    without a commit: they leave the world as it is. *)

(** [SELECT COUNT FROM leagues]: the number of league rows. *)
Definition get_league_count : M Z :=
  gets (fun w => Z.of_nat (size (leagues (db w)))).

(** [WHERE made_playoffs IS NOT NULL] on a roster row. *)
Definition flag_known (kv : string * Z * roster_row) : Prop :=
  is_Some (row_made_playoffs kv.2).

(** [SELECT COUNT FROM rosters WHERE made_playoffs IS NOT NULL]. *)
Definition get_roster_count : M Z :=
  gets (fun w => Z.of_nat (size (filter flag_known (rosters (db w))))).

(** The flag that the join of [roster_players] with [rosters] on
    (league_id, roster_id) attaches to a membership row: [None] when
    there is no roster row to join with, or when its flag is NULL; in
    both cases the query of [get_playoff_odds] drops the row. *)
Definition joined_flag (d : database) (x : string * Z * string) : option Z :=
  match rosters d !! x.1 with
  | Some row => row_made_playoffs row
  | None => None
  end.

(** The rows the query of [get_playoff_odds] aggregates over: the
    membership rows of [player_id] joined to a roster with a known flag. *)
Definition odds_rows (d : database) (player_id : string) : gset (string * Z * string) :=
  filter (fun x => x.2 = player_id /\ is_Some (joined_flag d x)) (roster_players d).

(** The fields [total_rosters] and [playoff_rosters] of the result of
    [get_playoff_odds]: [COUNT] of the joined rows and
    [SUM(CASE WHEN made_playoffs = 1 THEN 1 ELSE 0 END)] over them, a SUM
    over no row being NULL and read as 0 by [or 0].  The name, position
    and team come from the players table and the percentage is a rounded
    float; they are left out here. *)
Definition get_playoff_odds (player_id : string) : M (Z * Z) :=
  gets (fun w =>
    (Z.of_nat (size (odds_rows (db w) player_id)),
     Z.of_nat (size (filter (fun x => joined_flag (db w) x = Some 1)
                            (odds_rows (db w) player_id))))).

(** The ids of the fetched rosters [rs] that hold [player_id]. *)
Definition holders (player_id : string) (rs : list roster) : gset Z :=
  list_to_set
    (omap (fun r => if bool_decide (player_id ∈ default [] (players r))
                    then roster_id r else None) rs).

(** The store has no roster row and no membership row of league [lid]. *)
Definition no_rosters_of (lid : string) (d : database) : Prop :=
  (forall rid, rosters d !! (lid, rid) = None)
  /\ (forall rid p, (lid, rid, p) ∉ roster_players d).

(** * Properties *)

(** ** Running the client *)

Section ClientFacts.

Variable srv : remote.

Lemma _get_rate_limited e w :
  status_code (srv (calls w) e) = 429 ->
  _get srv e w = (Raise RuntimeError, set_calls (calls w ++ [e]) w).
Proof. intros H. unfold _get. rewrite H. reflexivity. Qed.

Lemma _get_http_error e w :
  status_code (srv (calls w) e) <> 429 ->
  http_error (status_code (srv (calls w) e)) = true ->
  _get srv e w
  = (Raise (HTTPError (status_code (srv (calls w) e))), set_calls (calls w ++ [e]) w).
Proof.
  intros Hne Herr. unfold _get, http_error in *.
  destruct (Z.eqb_spec (status_code (srv (calls w) e)) 429) as [Heq|_]; [contradiction|].
  rewrite Herr. reflexivity.
Qed.

Lemma _get_ok e w :
  http_error (status_code (srv (calls w) e)) = false ->
  _get srv e w = (Return (json (srv (calls w) e)), set_calls (calls w ++ [e]) w).
Proof.
  intros Hok. unfold _get, http_error in *.
  destruct (Z.eqb_spec (status_code (srv (calls w) e)) 429) as [Heq|_].
  - rewrite Heq in Hok. discriminate.
  - rewrite Hok. reflexivity.
Qed.

(** Every request is logged, whatever its outcome. *)
Lemma _get_calls e w : calls (snd (_get srv e w)) = calls w ++ [e].
Proof.
  unfold _get.
  destruct (status_code (srv (calls w) e) =? 429); [reflexivity|].
  destruct ((400 <=? _) && _); reflexivity.
Qed.

End ClientFacts.

(** ** The client's failure mapping *)

Section FailureMapping.

Variable srv : remote.

(** C5: a 429 makes every lookup raise the fatal [RuntimeError] after a
    single request; a 404 makes [get_user] and [get_league] return [None];
    any other error status makes the four list lookups return [[]]. *)
Theorem client_failure_mapping (w : world) :
  (forall e, status_code (srv (calls w) e) = 429 ->
     _get srv e w = (Raise RuntimeError, set_calls (calls w ++ [e]) w))
  /\ (forall u, status_code (srv (calls w) (EUser u)) = 429 ->
        get_user srv u w = (Raise RuntimeError, set_calls (calls w ++ [EUser u]) w))
  /\ (forall u s, status_code (srv (calls w) (EUserLeagues u s)) = 429 ->
        get_user_leagues srv u s w
        = (Raise RuntimeError, set_calls (calls w ++ [EUserLeagues u s]) w))
  /\ (forall l, status_code (srv (calls w) (ELeague l)) = 429 ->
        get_league srv l w = (Raise RuntimeError, set_calls (calls w ++ [ELeague l]) w))
  /\ (forall l, status_code (srv (calls w) (ELeagueUsers l)) = 429 ->
        get_league_users srv l w
        = (Raise RuntimeError, set_calls (calls w ++ [ELeagueUsers l]) w))
  /\ (forall l, status_code (srv (calls w) (ELeagueRosters l)) = 429 ->
        get_league_rosters srv l w
        = (Raise RuntimeError, set_calls (calls w ++ [ELeagueRosters l]) w))
  /\ (forall l, status_code (srv (calls w) (EWinnersBracket l)) = 429 ->
        get_winners_bracket srv l w
        = (Raise RuntimeError, set_calls (calls w ++ [EWinnersBracket l]) w))
  /\ (forall u, status_code (srv (calls w) (EUser u)) = 404 ->
        fst (get_user srv u w) = Return None)
  /\ (forall l, status_code (srv (calls w) (ELeague l)) = 404 ->
        fst (get_league srv l w) = Return None)
  /\ (forall u s, let st := status_code (srv (calls w) (EUserLeagues u s)) in
        http_error st = true -> st <> 429 ->
        fst (get_user_leagues srv u s w) = Return [])
  /\ (forall l, let st := status_code (srv (calls w) (ELeagueUsers l)) in
        http_error st = true -> st <> 429 ->
        fst (get_league_users srv l w) = Return [])
  /\ (forall l, let st := status_code (srv (calls w) (ELeagueRosters l)) in
        http_error st = true -> st <> 429 ->
        fst (get_league_rosters srv l w) = Return [])
  /\ (forall l, let st := status_code (srv (calls w) (EWinnersBracket l)) in
        http_error st = true -> st <> 429 ->
        fst (get_winners_bracket srv l w) = Return []).
Proof.
  assert (R : forall e, status_code (srv (calls w) e) = 429 ->
                _get srv e w = (Raise RuntimeError, set_calls (calls w ++ [e]) w))
    by (intros; now apply _get_rate_limited).
  assert (N : forall e, status_code (srv (calls w) e) = 404 ->
                _get srv e w = (Raise (HTTPError 404), set_calls (calls w ++ [e]) w)).
  { intros e H. rewrite _get_http_error; rewrite H; [reflexivity|lia|reflexivity]. }
  assert (E : forall e, http_error (status_code (srv (calls w) e)) = true ->
                status_code (srv (calls w) e) <> 429 ->
                exists st, _get srv e w = (Raise (HTTPError st), set_calls (calls w ++ [e]) w)).
  { intros e H1 H2. eexists. now apply _get_http_error. }
  repeat split; intros;
    unfold get_user, get_user_leagues, get_league, get_league_users,
      get_league_rosters, get_winners_bracket, except_HTTPError;
    try (rewrite R by assumption; reflexivity);
    try (rewrite N by assumption; reflexivity);
    match goal with
    | H1 : http_error _ = true, H2 : _ <> 429 |- _ =>
        destruct (E _ H1 H2) as [st' ->]; reflexivity
    end.
Qed.

End FailureMapping.

Lemma client_failure_mapping_witness :
  get_league demo_srv "limited" demo_world
    = (Raise RuntimeError, after [ELeague "limited"] demo_world)
  /\ fst (get_user demo_srv "gone" demo_world) = Return None
  /\ fst (get_league_rosters demo_srv "broken" demo_world) = Return [].
Proof.
  pose proof (client_failure_mapping demo_srv demo_world) as H.
  split; [|split].
  - apply H. reflexivity.
  - apply H. reflexivity.
  - apply H; [reflexivity | vm_compute; discriminate].
Defined.

(** ** Checkpoint round trip *)

(** C6: saving [visited] and [frontier] and loading the file back gives an
    object whose visited list denotes the same set and whose queue is the
    same sequence; the walker rebuilds its variables from that object with
    [set(...)] ([list_to_set]) and [deque(...)]. *)
Theorem checkpoint_round_trip (visited : gset string) (frontier : list string)
    (w : world) :
  let w' := snd (save_crawl_state visited frontier w) in
  exists st : crawl_state,
    load_crawl_state w' = (Return st, w')
    /\ list_to_set (seen_user_ids_json st) = visited
    /\ user_queue_json st = frontier.
Proof.
  cbn. eexists. split; [reflexivity|]. cbn. split; [|reflexivity].
  apply list_to_set_elements_L.
Qed.

(** ** Running monadic code *)

Lemma bind_run {A B} (m : M A) (k : A -> M B) w :
  bind m k w
  = match fst (m w) with
    | Return a => k a (snd (m w))
    | Raise e => (Raise e, snd (m w))
    end.
Proof. unfold bind. destruct (m w) as [[a|e] w']; reflexivity. Qed.

Lemma bind_return {A B} (m : M A) (k : A -> M B) w a :
  fst (m w) = Return a -> bind m k w = k a (snd (m w)).
Proof. intros H. rewrite bind_run, H. reflexivity. Qed.

Lemma bind_raise {A B} (m : M A) (k : A -> M B) w e :
  fst (m w) = Raise e -> bind m k w = (Raise e, snd (m w)).
Proof. intros H. rewrite bind_run, H. reflexivity. Qed.

Section LookupFacts.

Variable srv : remote.

(** A lookup issues exactly one request and touches nothing else. *)
Lemma lookup_world {e : endpoint} (h : Z -> M (payload e)) w :
  (forall st w', snd (h st w') = w') ->
  snd (except_HTTPError (_get srv e) h w) = after [e] w.
Proof.
  intros Hh. unfold except_HTTPError, _get.
  destruct (status_code (srv (calls w) e) =? 429); [reflexivity|].
  destruct ((400 <=? _) && _); [apply Hh | reflexivity].
Qed.

(** Its outcome depends on the world through the call log only. *)
Lemma lookup_outcome {e : endpoint} (h : Z -> M (payload e)) w1 w2 :
  (forall st w w', fst (h st w) = fst (h st w')) ->
  calls w1 = calls w2 ->
  fst (except_HTTPError (_get srv e) h w1) = fst (except_HTTPError (_get srv e) h w2).
Proof.
  intros Hh Hc. unfold except_HTTPError, _get. rewrite Hc.
  destruct (status_code (srv (calls w2) e) =? 429); [reflexivity|].
  destruct ((400 <=? _) && _); [apply Hh | reflexivity].
Qed.

Lemma get_league_world lid w :
  snd (get_league srv lid w) = after [ELeague lid] w.
Proof. apply (lookup_world (e := ELeague lid)). intros st w'. cbn. destruct (st =? 404); reflexivity. Qed.

Lemma get_user_world u w : snd (get_user srv u w) = after [EUser u] w.
Proof. apply (lookup_world (e := EUser u)). intros st w'. cbn. destruct (st =? 404); reflexivity. Qed.

Lemma get_user_leagues_world u s w :
  snd (get_user_leagues srv u s w) = after [EUserLeagues u s] w.
Proof. apply (lookup_world (e := EUserLeagues u s)). reflexivity. Qed.

Lemma get_league_users_world lid w :
  snd (get_league_users srv lid w) = after [ELeagueUsers lid] w.
Proof. apply (lookup_world (e := ELeagueUsers lid)). reflexivity. Qed.

Lemma get_league_rosters_world lid w :
  snd (get_league_rosters srv lid w) = after [ELeagueRosters lid] w.
Proof. apply (lookup_world (e := ELeagueRosters lid)). reflexivity. Qed.

Lemma get_winners_bracket_world lid w :
  snd (get_winners_bracket srv lid w) = after [EWinnersBracket lid] w.
Proof. apply (lookup_world (e := EWinnersBracket lid)). reflexivity. Qed.

Lemma get_league_rosters_outcome lid w1 w2 :
  calls w1 = calls w2 ->
  fst (get_league_rosters srv lid w1) = fst (get_league_rosters srv lid w2).
Proof. apply (lookup_outcome (e := ELeagueRosters lid)). reflexivity. Qed.

Lemma get_winners_bracket_outcome lid w1 w2 :
  calls w1 = calls w2 ->
  fst (get_winners_bracket srv lid w1) = fst (get_winners_bracket srv lid w2).
Proof. apply (lookup_outcome (e := EWinnersBracket lid)). reflexivity. Qed.

End LookupFacts.

(** ** The store phase of [process_league] *)

Section StorePhase.

Variable lid : string.
Variable ids : gset Z.

(** One turn of the loop on a roster whose id SQLite can hold, as two
    committed writes; a roster without id is skipped. *)
Lemma store_roster_eq r rid w :
  roster_id r = Some rid -> sqlite_int rid = true ->
  store_roster lid ids r w
  = (Return tt,
     commit_db
       (Database (leagues (db w))
          (<[(lid, rid) := RosterRow (owner_id r)
                             (made_playoffs_int (made_playoffs_of rid ids))]> (rosters (db w)))
          (roster_players (db w)
             ∪ list_to_set ((fun pid => (lid, rid, pid)) <$> default [] (players r))))
       (commit_db
          (Database (leagues (db w))
             (<[(lid, rid) := RosterRow (owner_id r)
                                (made_playoffs_int (made_playoffs_of rid ids))]> (rosters (db w)))
             (roster_players (db w))) w)).
Proof.
  intros Hr Hs. unfold store_roster, insert_roster, insert_roster_players.
  rewrite Hr, Hs. reflexivity.
Qed.

(** A roster id outside SQLite's range stops the loop with
    [OverflowError] before anything of that roster is written. *)
Lemma store_roster_overflow r w :
  roster_storable r = false ->
  store_roster lid ids r w = (Raise (ArithmeticError PyFloat.OverflowError), w).
Proof.
  unfold roster_storable, store_roster, insert_roster. destruct (roster_id r) as [rid|].
  - cbn. intros ->. reflexivity.
  - discriminate.
Qed.

Lemma store_roster_run r w :
  roster_storable r = true ->
  exists w', store_roster lid ids r w = (Return tt, w')
    /\ calls w' = calls w /\ state_file w' = state_file w
    /\ rand_draws w' = rand_draws w
    /\ leagues (db w') = leagues (db w)
    /\ (commits w <= commits w')%nat.
Proof.
  unfold roster_storable. destruct (roster_id r) as [rid|] eqn:Hr.
  - cbn. intros Hs. rewrite (store_roster_eq r rid w Hr Hs).
    eexists. split; [reflexivity|]. cbn. repeat split; lia.
  - intros _. unfold store_roster. rewrite Hr.
    eexists. split; [reflexivity|]. repeat split; lia.
Qed.

(** Whether it returns or raises, a turn of the loop touches only the
    roster tables and the commit count. *)
Lemma store_roster_world r w :
  let w' := snd (store_roster lid ids r w) in
  calls w' = calls w /\ state_file w' = state_file w
  /\ rand_draws w' = rand_draws w
  /\ leagues (db w') = leagues (db w)
  /\ (commits w <= commits w')%nat.
Proof.
  destruct (roster_storable r) eqn:Hs.
  - destruct (store_roster_run r w Hs) as (w' & -> & H). exact H.
  - rewrite (store_roster_overflow r w Hs). cbn. repeat split; lia.
Qed.

Lemma store_rosters_world rs w :
  let w' := snd (for_each rs (store_roster lid ids) w) in
  calls w' = calls w /\ state_file w' = state_file w
  /\ rand_draws w' = rand_draws w
  /\ leagues (db w') = leagues (db w)
  /\ (commits w <= commits w')%nat.
Proof.
  revert w. induction rs as [|r rs IH]; intros w.
  - cbn. repeat split; lia.
  - cbn [for_each]. rewrite bind_run.
    pose proof (store_roster_world r w) as (C1 & F1 & R1 & L1 & K1).
    destruct (fst (store_roster lid ids r w)) as [[]|e].
    + pose proof (IH (snd (store_roster lid ids r w))) as (C2 & F2 & R2 & L2 & K2).
      cbv zeta in *. repeat split; try congruence. lia.
    + cbn [snd]. repeat split; assumption.
Qed.

Lemma store_rosters_run rs w :
  rosters_storable rs = true ->
  exists w', for_each rs (store_roster lid ids) w = (Return tt, w')
    /\ calls w' = calls w /\ state_file w' = state_file w
    /\ rand_draws w' = rand_draws w
    /\ leagues (db w') = leagues (db w)
    /\ (commits w <= commits w')%nat.
Proof.
  revert w. induction rs as [|r rs IH]; intros w Hs.
  - exists w. repeat split; lia.
  - cbn in Hs. apply andb_true_iff in Hs as [Hr Hs].
    destruct (store_roster_run r w Hr) as (w1 & E1 & C1 & F1 & R1 & L1 & K1).
    destruct (IH w1 Hs) as (w2 & E2 & C2 & F2 & R2 & L2 & K2).
    exists w2. split.
    + cbn [for_each]. unfold bind at 1. rewrite E1. exact E2.
    + repeat split; try congruence. lia.
Qed.

(** The first roster the loop cannot store makes it raise. *)
Lemma store_rosters_overflow rs w :
  rosters_storable rs = false ->
  fst (for_each rs (store_roster lid ids) w) = Raise (ArithmeticError PyFloat.OverflowError).
Proof.
  revert w. induction rs as [|r rs IH]; intros w Hs; [discriminate|].
  cbn in Hs. cbn [for_each]. rewrite bind_run.
  destruct (roster_storable r) eqn:Hr.
  - destruct (store_roster_run r w Hr) as (w1 & E1 & _). rewrite E1. cbn [fst snd].
    apply IH. exact Hs.
  - rewrite (store_roster_overflow r w Hr). reflexivity.
Qed.

(** The flag every row written for roster [rid] carries. *)
Lemma store_roster_flag r rid w :
  roster_id r = Some rid -> sqlite_int rid = true ->
  exists row,
    rosters (db (snd (store_roster lid ids r w))) !! (lid, rid) = Some row
    /\ row_made_playoffs row = made_playoffs_int (made_playoffs_of rid ids).
Proof.
  intros Hr Hs. rewrite (store_roster_eq r rid w Hr Hs). cbn.
  eexists. split; [apply lookup_insert_eq | reflexivity].
Qed.

Lemma store_roster_keeps_flag r rid w row :
  rosters (db w) !! (lid, rid) = Some row ->
  row_made_playoffs row = made_playoffs_int (made_playoffs_of rid ids) ->
  exists row',
    rosters (db (snd (store_roster lid ids r w))) !! (lid, rid) = Some row'
    /\ row_made_playoffs row' = made_playoffs_int (made_playoffs_of rid ids).
Proof.
  intros Hl Hf. destruct (roster_storable r) eqn:Hst.
  - unfold roster_storable in Hst. destruct (roster_id r) as [rid'|] eqn:Hr.
    + cbn in Hst. rewrite (store_roster_eq r rid' w Hr Hst). cbn.
      destruct (decide (rid' = rid)) as [->|Hne].
      * eexists. split; [apply lookup_insert_eq | reflexivity].
      * exists row. split; [|exact Hf].
        rewrite lookup_insert_ne by congruence. exact Hl.
    + unfold store_roster. rewrite Hr. exists row. split; assumption.
  - rewrite (store_roster_overflow r w Hst). exists row. split; assumption.
Qed.

Lemma store_rosters_keep_flag rs rid w row :
  rosters (db w) !! (lid, rid) = Some row ->
  row_made_playoffs row = made_playoffs_int (made_playoffs_of rid ids) ->
  exists row',
    rosters (db (snd (for_each rs (store_roster lid ids) w))) !! (lid, rid) = Some row'
    /\ row_made_playoffs row' = made_playoffs_int (made_playoffs_of rid ids).
Proof.
  revert w row. induction rs as [|r rs IH]; intros w row Hl Hf.
  - exists row. split; assumption.
  - destruct (store_roster_keeps_flag r rid w row Hl Hf) as (row1 & Hl1 & Hf1).
    cbn [for_each]. rewrite bind_run.
    destruct (fst (store_roster lid ids r w)) as [[]|e].
    + exact (IH _ row1 Hl1 Hf1).
    + exists row1. split; assumption.
Qed.

(** After the loop, every fetched roster with an id has a row whose flag
    is the tri-state value computed from the qualifier set. *)
Lemma store_rosters_flag rs r rid w :
  rosters_storable rs = true ->
  r ∈ rs -> roster_id r = Some rid ->
  exists row,
    rosters (db (snd (for_each rs (store_roster lid ids) w))) !! (lid, rid) = Some row
    /\ row_made_playoffs row = made_playoffs_int (made_playoffs_of rid ids).
Proof.
  revert w. induction rs as [|r0 rs IH]; intros w Hst Hin Hr.
  - inversion Hin.
  - cbn in Hst. apply andb_true_iff in Hst as [Hs0 Hst].
    destruct (store_roster_run r0 w Hs0) as (w1 & E1 & _).
    cbn [for_each]. unfold bind at 1. rewrite E1.
    apply elem_of_cons in Hin as [->|Hin].
    + assert (Hs : sqlite_int rid = true).
      { unfold roster_storable in Hs0. rewrite Hr in Hs0. exact Hs0. }
      destruct (store_roster_flag r0 rid w Hr Hs) as (row & Hl & Hf).
      rewrite E1 in Hl. cbn [snd] in Hl.
      exact (store_rosters_keep_flag rs rid w1 row Hl Hf).
    + exact (IH w1 Hst Hin Hr).
Qed.

End StorePhase.

(** ** The float comparison of the fraction filter, in integers *)

(** Replace the constant [2 ^ k] by its value, for [lia]. *)
Ltac pow2_const k :=
  let v := eval vm_compute in (2 ^ k) in change (2 ^ k) with v in *.

Section FloatFacts.

Import PyFloat.

Lemma shl_nonneg x k : 0 <= k -> shl x k = x * 2 ^ k.
Proof. intros H. unfold shl. rewrite Z.max_r by lia. reflexivity. Qed.

Lemma shl_nonpos x k : k <= 0 -> shl x k = x.
Proof. intros H. unfold shl. rewrite Z.max_l by lia. lia. Qed.

Lemma pow2_pos k : 0 <= k -> 0 < 2 ^ k.
Proof. intros H. apply Z.pow_pos_nonneg; lia. Qed.

Lemma pow2_succ k : 0 <= k -> 2 ^ (k + 1) = 2 * 2 ^ k.
Proof. intros H. rewrite Z.pow_add_r by lia. lia. Qed.

(** Rounding to nearest-even lands above an odd [M] exactly from the
    midpoint [M + 1/2] on. *)
Lemma rne_div_gt_odd n d M :
  0 < d -> Z.odd M = true ->
  (M <? rne_div n d) = ((2 * M + 1) * d <=? 2 * n).
Proof.
  intros Hd HM. unfold rne_div.
  pose proof (Z.div_mod n d ltac:(lia)) as Hn.
  pose proof (Z.mod_pos_bound n d Hd) as Hr.
  set (q := n / d) in *. set (r := n mod d) in *.
  destruct (Z.ltb_spec (2 * r) d) as [H1|H1].
  - destruct (Z.ltb_spec M q), (Z.leb_spec ((2 * M + 1) * d) (2 * n)); try reflexivity; nia.
  - destruct (Z.ltb_spec d (2 * r)) as [H2|H2].
    + destruct (Z.ltb_spec M (q + 1)), (Z.leb_spec ((2 * M + 1) * d) (2 * n));
        try reflexivity; nia.
    + assert (Hne : q <> M \/ Z.even q = false).
      { destruct (Z.eq_dec q M) as [->|]; [right|left; assumption].
        rewrite <- Z.negb_odd, HM. reflexivity. }
      destruct (Z.even q) eqn:Hev.
      * destruct Hne as [Hne|]; [|discriminate].
        destruct (Z.ltb_spec M q), (Z.leb_spec ((2 * M + 1) * d) (2 * n));
          try reflexivity; nia.
      * destruct (Z.ltb_spec M (q + 1)), (Z.leb_spec ((2 * M + 1) * d) (2 * n));
          try reflexivity; nia.
Qed.

Lemma rne_div_bounds n d :
  0 <= n -> 0 < d -> n / d <= rne_div n d <= n / d + 1.
Proof.
  intros Hn Hd. unfold rne_div.
  destruct (2 * (n mod d) <? d); [lia|].
  destruct (d <? 2 * (n mod d)); [lia|].
  destruct (Z.even (n / d)); lia.
Qed.

(** [ratio_log2 n d] is the binade of [n / d]:
    [2 ^ e <= n / d < 2 ^ (e + 1)], cross-multiplied. *)
Lemma ratio_log2_spec n d :
  0 < n -> 0 < d ->
  let e := ratio_log2 n d in
  shl d e <= shl n (- e) < 2 * shl d e.
Proof.
  intros Hn Hd. cbv zeta. unfold ratio_log2.
  destruct (Z.log2_spec n Hn) as [Hn1 Hn2].
  destruct (Z.log2_spec d Hd) as [Hd1 Hd2].
  pose proof (Z.log2_nonneg n) as Hla. pose proof (Z.log2_nonneg d) as Hlb.
  set (la := Z.log2 n) in *. set (lb := Z.log2 d) in *.
  replace (Z.succ la) with (la + 1) in Hn2 by lia.
  replace (Z.succ lb) with (lb + 1) in Hd2 by lia.
  rewrite pow2_succ in Hn2, Hd2 by assumption.
  pose proof (pow2_pos la Hla) as HX. pose proof (pow2_pos lb Hlb) as HY.
  destruct (Z_le_gt_dec lb la) as [Hle|Hgt].
  - (* the quotient is at least 1/2 *)
    assert (HE : 2 ^ la = 2 ^ lb * 2 ^ (la - lb)).
    { rewrite <- Z.pow_add_r by lia. f_equal. lia. }
    pose proof (pow2_pos (la - lb) ltac:(lia)) as HEpos.
    rewrite (shl_nonneg d (la - lb)) by lia.
    rewrite (shl_nonpos n (- (la - lb))) by lia.
    destruct (Z.leb_spec (d * 2 ^ (la - lb)) n) as [Hc|Hc].
    + rewrite (shl_nonneg d (la - lb)) by lia.
      rewrite (shl_nonpos n (- (la - lb))) by lia. nia.
    + destruct (Z.eq_dec la lb) as [Heq|Hne].
      * replace (la - lb) with 0 in * by lia.
        rewrite (shl_nonpos d (0 - 1)) by lia.
        rewrite (shl_nonneg n (- (0 - 1))) by lia.
        change (2 ^ (- (0 - 1))) with 2. change (2 ^ 0) with 1 in *. nia.
      * assert (HE' : 2 ^ (la - lb) = 2 * 2 ^ (la - lb - 1)).
        { rewrite <- pow2_succ by lia. f_equal. lia. }
        pose proof (pow2_pos (la - lb - 1) ltac:(lia)).
        rewrite (shl_nonneg d (la - lb - 1)) by lia.
        rewrite (shl_nonpos n (- (la - lb - 1))) by lia. nia.
  - (* the quotient is below 1 *)
    assert (HE : 2 ^ lb = 2 ^ la * 2 ^ (lb - la)).
    { rewrite <- Z.pow_add_r by lia. f_equal. lia. }
    pose proof (pow2_pos (lb - la) ltac:(lia)) as HEpos.
    replace (- (la - lb)) with (lb - la) by lia.
    rewrite (shl_nonpos d (la - lb)) by lia.
    rewrite (shl_nonneg n (lb - la)) by lia.
    destruct (Z.leb_spec d (n * 2 ^ (lb - la))) as [Hc|Hc].
    + rewrite (shl_nonpos d (la - lb)) by lia.
      replace (- (la - lb)) with (lb - la) by lia.
      rewrite (shl_nonneg n (lb - la)) by lia. nia.
    + rewrite (shl_nonpos d (la - lb - 1)) by lia.
      replace (- (la - lb - 1)) with (lb - la + 1) by lia.
      rewrite (shl_nonneg n (lb - la + 1)) by lia.
      rewrite pow2_succ by lia. nia.
Qed.

Lemma pow2_le a b : 0 <= a <= b -> 2 ^ a <= 2 ^ b.
Proof. intros H. apply Z.pow_le_mono_r; lia. Qed.

(** The binade of a quotient of two counts up to [2 ^ 32]. *)
Lemma ratio_log2_range n d :
  0 < n <= 2 ^ 32 -> 0 < d <= 2 ^ 32 -> -33 <= ratio_log2 n d <= 32.
Proof.
  intros Hn Hd. pose proof (ratio_log2_spec n d ltac:(lia) ltac:(lia)) as H.
  cbv zeta in H. set (e := ratio_log2 n d) in *.
  destruct (Z_le_gt_dec e 32) as [Hhi|Hhi]; [destruct (Z_le_gt_dec (-33) e) as [Hlo|Hlo]|].
  - lia.
  - exfalso. rewrite (shl_nonpos d e), (shl_nonneg n (- e)) in H by lia.
    pose proof (pow2_le 34 (- e) ltac:(lia)) as Hp.
    change (2 ^ 34) with 17179869184 in Hp. change (2 ^ 32) with 4294967296 in *. nia.
  - exfalso. rewrite (shl_nonneg d e), (shl_nonpos n (- e)) in H by lia.
    pose proof (pow2_le 33 e ltac:(lia)) as Hp.
    change (2 ^ 33) with 8589934592 in Hp. change (2 ^ 32) with 4294967296 in *. nia.
Qed.

(** For counts up to [2 ^ 32] the rounded quotient is above the literal
    [0.67] exactly when the exact quotient is above 67/100. *)
Lemma int_truediv_gt_0_67 p t :
  - 2 ^ 32 <= p <= 2 ^ 32 -> 0 < t <= 2 ^ 32 ->
  exists q, int_truediv p t = inr q
            /\ float_gt q lit_0_67 = (67 * t <? 100 * p).
Proof.
  intros Hp Ht. unfold int_truediv.
  destruct (Z.eqb_spec t 0) as [|_]; [lia|].
  destruct (Z.eqb_spec p 0) as [->|Hp0].
  { eexists. split; [reflexivity|].
    change (float_gt (Float 0 0) lit_0_67) with false.
    symmetry. apply Z.ltb_ge. lia. }
  rewrite (Z.abs_eq t) by lia.
  assert (Hn : 0 < Z.abs p <= 2 ^ 32) by lia.
  pose proof (ratio_log2_spec (Z.abs p) t ltac:(lia) ltac:(lia)) as He.
  pose proof (ratio_log2_range (Z.abs p) t Hn Ht) as Hr.
  cbv zeta in He. set (n := Z.abs p) in *. set (e := ratio_log2 n t) in *.
  rewrite (Z.max_l (e - 52) (-1074)) by lia.
  rewrite (shl_nonpos t (e - 52)) by lia.
  replace (- (e - 52)) with (52 - e) by lia.
  rewrite (shl_nonneg n (52 - e)) by lia.
  set (N := n * 2 ^ (52 - e)).
  set (m := rne_div N t).
  pose proof (pow2_pos (52 - e) ltac:(lia)) as HPpos.
  (* the scaled quotient lies in one binade *)
  assert (HN : N < 2 ^ 53 * t /\ (0 <= e -> 2 ^ 52 * t <= N /\ t <= n)
               /\ (e = -1 -> N = n * 2 ^ 53)
               /\ (e <= -2 -> 2 * n < t)).
  { unfold N. destruct (Z_le_gt_dec 0 e) as [He0|He0].
    - rewrite (shl_nonneg t e), (shl_nonpos n (- e)) in He by lia.
      assert (HE : 2 ^ 52 = 2 ^ e * 2 ^ (52 - e)).
      { rewrite <- Z.pow_add_r by lia. f_equal; lia. }
      pose proof (pow2_pos e He0).
      change (2 ^ 53) with (2 * 2 ^ 52). rewrite HE.
      repeat split; try lia; nia.
    - rewrite (shl_nonpos t e), (shl_nonneg n (- e)) in He by lia.
      assert (HE : 2 ^ (52 - e) = 2 ^ 52 * 2 ^ (- e)).
      { rewrite <- Z.pow_add_r by lia. f_equal; lia. }
      pose proof (pow2_pos (- e) ltac:(lia)).
      change (2 ^ 53) with (2 * 2 ^ 52). rewrite HE.
      repeat split; try lia.
      + intros He1. rewrite He1. change (2 ^ (- -1)) with 2. lia.
      + intros He2. pose proof (pow2_le 2 (- e) ltac:(lia)) as Hp4.
        change (2 ^ 2) with 4 in Hp4. nia. }
  destruct HN as (HN1 & HN2 & HN3 & HN4).
  assert (HNpos : 0 <= N) by (unfold N; nia).
  assert (Hm : 0 <= m <= 2 ^ 53 /\ (0 <= e -> 2 ^ 52 <= m)).
  { pose proof (rne_div_bounds N t HNpos ltac:(lia)) as Hb. fold m in Hb.
    pose proof (Z.div_mod N t ltac:(lia)) as Hdm.
    pose proof (Z.mod_pos_bound N t ltac:(lia)) as Hmod.
    set (qq := N / t) in *. set (rr := N mod t) in *.
    assert (0 <= qq) by (apply Z.div_pos; lia).
    assert (qq < 2 ^ 53) by nia.
    split; [lia|]. intros He0. destruct (HN2 He0) as [HN2' _].
    assert (2 ^ 52 <= qq) by nia. lia. }
  destruct Hm as (Hm1 & Hm2).
  rewrite (shl_nonpos m (e - 52)) by lia.
  destruct (Z.leb_spec (2 ^ 1024) m) as [Hov|_].
  { exfalso. pose proof (pow2_le 53 1024 ltac:(lia)). lia. }
  eexists. split; [reflexivity|].
  unfold float_gt, lit_0_67. cbn [fmant fexp].
  replace (-53 - (e - 52)) with (- 1 - e) by lia.
  replace (e - 52 - -53) with (e + 1) by lia.
  rewrite (Z.sgn_pos t) by lia.
  destruct (Z_lt_le_dec p 0) as [Hneg|Hpos].
  - (* a negative quotient is never above the threshold *)
    rewrite (Z.sgn_neg p) by lia.
    assert (0 < shl 6034823500676465 (- 1 - e)).
    { unfold shl. pose proof (pow2_pos (Z.max 0 (- 1 - e)) ltac:(lia)). lia. }
    assert (shl (-1 * 1 * m) (e + 1) <= 0).
    { unfold shl. pose proof (pow2_pos (Z.max 0 (e + 1)) ltac:(lia)). nia. }
    destruct (Z.ltb_spec (shl 6034823500676465 (- 1 - e)) (shl (-1 * 1 * m) (e + 1)));
      destruct (Z.ltb_spec (67 * t) (100 * p)); try reflexivity; lia.
  - rewrite (Z.sgn_pos p) by lia. replace (1 * 1 * m) with m by lia.
    assert (Hnp : n = p) by (unfold n; lia).
    destruct (Z_le_gt_dec 0 e) as [He0|He0]; [|destruct (Z.eq_dec e (-1)) as [He1|He1]].
    + (* quotient at least 1 *)
      rewrite (shl_nonpos _ (- 1 - e)), (shl_nonneg m (e + 1)) by lia.
      pose proof (pow2_le 1 (e + 1) ltac:(lia)) as Hp2. change (2 ^ 1) with 2 in Hp2.
      specialize (Hm2 He0). destruct (HN2 He0) as [_ Htn].
      change (2 ^ 52) with 4503599627370496 in Hm2.
      destruct (Z.ltb_spec 6034823500676465 (m * 2 ^ (e + 1)));
        destruct (Z.ltb_spec (67 * t) (100 * p)); try reflexivity; nia.
    + (* quotient in [1/2, 1): the rounding decides *)
      subst e. rewrite He1. change (- 1 - -1) with 0. change (-1 + 1) with 0.
      rewrite !(shl_nonpos _ 0) by lia.
      unfold m. rewrite (rne_div_gt_odd N t 6034823500676465 ltac:(lia) eq_refl).
      rewrite (HN3 He1). change (2 ^ 53) with 9007199254740992.
      change (2 ^ 32) with 4294967296 in *.
      destruct (Z.leb_spec ((2 * 6034823500676465 + 1) * t) (2 * (n * 9007199254740992)));
        destruct (Z.ltb_spec (67 * t) (100 * p)); try reflexivity; lia.
    + (* quotient below 1/2 *)
      rewrite (shl_nonneg _ (- 1 - e)), (shl_nonpos m (e + 1)) by lia.
      pose proof (pow2_le 1 (- 1 - e) ltac:(lia)) as Hp2. change (2 ^ 1) with 2 in Hp2.
      specialize (HN4 ltac:(lia)).
      change (2 ^ 53) with 9007199254740992 in Hm1.
      destruct (Z.ltb_spec (6034823500676465 * 2 ^ (- 1 - e)) m);
        destruct (Z.ltb_spec (67 * t) (100 * p)); try reflexivity; nia.
Qed.

(** The scaled quotient that is rounded to a significand: whatever the
    sizes of [n] and [t], it is below [2 ^ 53], and at least [2 ^ 52]
    outside the subnormal range. *)
Lemma scaled_quotient n t :
  0 < n -> 0 < t ->
  let e := ratio_log2 n t in
  let qe := Z.max (e - 52) (-1074) in
  let N := shl n (- qe) in
  let D := shl t qe in
  0 < D /\ 0 < N /\ N < 2 ^ 53 * D /\ (-1022 <= e -> 2 ^ 52 * D <= N).
Proof.
  intros Hn Ht. pose proof (ratio_log2_spec n t Hn Ht) as He. cbv zeta in *.
  set (e := ratio_log2 n t) in *.
  change (2 ^ 53) with 9007199254740992. change (2 ^ 52) with 4503599627370496.
  destruct (Z_le_gt_dec (-1022) e) as [Hlo|Hlo].
  - rewrite (Z.max_l (e - 52) (-1074)) by lia.
    destruct (Z_le_gt_dec 52 e) as [H52|H52]; [|destruct (Z_le_gt_dec 0 e) as [H0|H0]].
    + rewrite (shl_nonneg t (e - 52)), (shl_nonpos n (- (e - 52))) by lia.
      rewrite (shl_nonneg t e), (shl_nonpos n (- e)) in He by lia.
      assert (HE : 2 ^ e = 4503599627370496 * 2 ^ (e - 52)).
      { change 4503599627370496 with (2 ^ 52). rewrite <- Z.pow_add_r by lia. f_equal; lia. }
      pose proof (pow2_pos (e - 52) ltac:(lia)) as HX.
      rewrite HE in He. set (X := 2 ^ (e - 52)) in *. repeat split; try nia.
    + rewrite (shl_nonpos t (e - 52)) by lia.
      replace (- (e - 52)) with (52 - e) by lia. rewrite (shl_nonneg n (52 - e)) by lia.
      rewrite (shl_nonneg t e), (shl_nonpos n (- e)) in He by lia.
      assert (HE : 2 ^ e * 2 ^ (52 - e) = 4503599627370496).
      { change 4503599627370496 with (2 ^ 52). rewrite <- Z.pow_add_r by lia. f_equal; lia. }
      pose proof (pow2_pos e H0) as HA. pose proof (pow2_pos (52 - e) ltac:(lia)) as HB.
      set (A := 2 ^ e) in *. set (B := 2 ^ (52 - e)) in *.
      assert (t * A * B <= n * B) by nia.
      assert (n * B < 2 * t * A * B) by nia.
      repeat split; try nia.
    + rewrite (shl_nonpos t (e - 52)) by lia.
      replace (- (e - 52)) with (52 - e) by lia. rewrite (shl_nonneg n (52 - e)) by lia.
      rewrite (shl_nonpos t e), (shl_nonneg n (- e)) in He by lia.
      assert (HE : 2 ^ (52 - e) = 4503599627370496 * 2 ^ (- e)).
      { change 4503599627370496 with (2 ^ 52). rewrite <- Z.pow_add_r by lia. f_equal; lia. }
      pose proof (pow2_pos (- e) ltac:(lia)) as HX.
      rewrite HE. set (X := 2 ^ (- e)) in *. repeat split; try nia.
  - rewrite (Z.max_r (e - 52) (-1074)) by lia.
    rewrite (shl_nonpos t (-1074)) by lia. change (- -1074) with 1074.
    rewrite (shl_nonneg n 1074) by lia.
    rewrite (shl_nonpos t e), (shl_nonneg n (- e)) in He by lia.
    pose proof (pow2_le 1023 (- e) ltac:(lia)) as Hp.
    assert (HE : 2 ^ 1074 = 2 ^ 1023 * 2251799813685248).
    { change 2251799813685248 with (2 ^ 51). rewrite <- Z.pow_add_r by lia. reflexivity. }
    pose proof (pow2_pos 1023 ltac:(lia)) as HZ.
    rewrite HE. set (Z0 := 2 ^ 1023) in *. set (X := 2 ^ (- e)) in *.
    assert (n * Z0 < 2 * t) by nia.
    repeat split; try lia; nia.
Qed.

(** The significand [rne_div] produces from the scaled quotient. *)
Lemma significand_range N D :
  0 < D -> 0 < N -> N < 2 ^ 53 * D ->
  0 <= rne_div N D <= 2 ^ 53 /\ (2 ^ 52 * D <= N -> 2 ^ 52 <= rne_div N D).
Proof.
  intros HD HN H53.
  pose proof (rne_div_bounds N D ltac:(lia) HD) as Hb.
  pose proof (Z.div_mod N D ltac:(lia)) as Hdm.
  pose proof (Z.mod_pos_bound N D HD) as Hmod.
  set (qq := N / D) in *. set (rr := N mod D) in *.
  change (2 ^ 53) with 9007199254740992 in *. change (2 ^ 52) with 4503599627370496.
  assert (0 <= qq) by nia.
  assert (qq < 9007199254740992) by nia.
  split; [lia|]. intros H52. assert (4503599627370496 <= qq) by nia. lia.
Qed.

(** [int / int] overflows exactly from the midpoint between the largest
    double and [2 ^ 1024] on. *)
Lemma int_truediv_overflow_iff n t :
  0 < n -> 0 < t ->
  let e := ratio_log2 n t in
  let qe := Z.max (e - 52) (-1074) in
  let m := rne_div (shl n (- qe)) (shl t qe) in
  (2 ^ 1024 <=? shl m qe) = ((2 ^ 1024 - 2 ^ 970) * t <=? n).
Proof.
  intros Hn Ht. pose proof (ratio_log2_spec n t Hn Ht) as He.
  pose proof (scaled_quotient n t Hn Ht) as (HD & HN & H53 & H52).
  cbv zeta in *. set (e := ratio_log2 n t) in *.
  set (qe := Z.max (e - 52) (-1074)) in *.
  pose proof (significand_range _ _ HD HN H53) as [Hm Hm52].
  set (m := rne_div (shl n (- qe)) (shl t qe)) in *.
  destruct (Z_le_gt_dec 1024 e) as [Hbig|Hbig];
    [|destruct (Z.eq_dec e 1023) as [Heq|Hne]].
  - (* from 2^1024 on *)
    specialize (Hm52 (H52 ltac:(lia))).
    assert (Hq : qe = e - 52) by (unfold qe; lia).
    rewrite Hq. rewrite (shl_nonneg m (e - 52)) by lia.
    rewrite (shl_nonneg t e), (shl_nonpos n (- e)) in He by lia.
    pose proof (pow2_le 972 (e - 52) ltac:(lia)) as HX.
    pose proof (pow2_le 1024 e ltac:(lia)) as HY.
    assert (H1 : 2 ^ 1024 <= m * 2 ^ (e - 52)).
    { change (2 ^ 1024) with (2 ^ 52 * 2 ^ 972).
      apply Z.mul_le_mono_nonneg; lia. }
    assert (H2 : (2 ^ 1024 - 2 ^ 970) * t <= n).
    { etransitivity; [|apply He]. rewrite (Z.mul_comm t).
      apply Z.mul_le_mono_nonneg_r; [lia|].
      pose proof (pow2_pos 970 ltac:(lia)). lia. }
    destruct (Z.leb_spec (2 ^ 1024) (m * 2 ^ (e - 52))); [|lia].
    destruct (Z.leb_spec ((2 ^ 1024 - 2 ^ 970) * t) n); [reflexivity|lia].
  - (* the last binade: the rounding decides *)
    assert (Hq : qe = 971) by (unfold qe; lia).
    unfold m. rewrite Hq.
    rewrite (shl_nonneg (rne_div _ _) 971), (shl_nonpos n (Z.opp 971)), (shl_nonneg t 971) by lia.
    assert (Hodd : (2 ^ 53 - 1 <? rne_div n (t * 2 ^ 971))
                   = ((2 * (2 ^ 53 - 1) + 1) * (t * 2 ^ 971) <=? 2 * n)).
    { apply rne_div_gt_odd; [|reflexivity]. pose proof (pow2_pos 971 ltac:(lia)). nia. }
    set (m' := rne_div n (t * 2 ^ 971)) in *.
    apply Bool.eq_iff_eq_true in Hodd. rewrite Z.ltb_lt, Z.leb_le in Hodd.
    apply Bool.eq_iff_eq_true. rewrite !Z.leb_le.
    pow2_const 1024. pow2_const 971. pow2_const 970. pow2_const 53. lia.
  - (* below: no overflow *)
    assert (Hlt : n < (2 ^ 1024 - 2 ^ 970) * t).
    { destruct (Z_le_gt_dec 0 e) as [H0|H0].
      - rewrite (shl_nonneg t e), (shl_nonpos n (- e)) in He by lia.
        pose proof (pow2_le e 1022 ltac:(lia)) as HX.
        pose proof (pow2_pos e H0) as HXp. set (X := 2 ^ e) in *.
        assert (n < 2 * t * 2 ^ 1022) by nia.
        pow2_const 1024. pow2_const 970. pow2_const 1022. lia.
      - rewrite (shl_nonpos t e), (shl_nonneg n (- e)) in He by lia.
        pose proof (pow2_pos (- e) ltac:(lia)) as HXp. set (X := 2 ^ (- e)) in *.
        assert (n < 2 * t) by nia.
        pow2_const 1024. pow2_const 970. lia. }
    assert (Hno : shl m qe < 2 ^ 1024).
    { destruct (Z_le_gt_dec qe 0) as [Hq0|Hq0].
      - rewrite (shl_nonpos m qe) by lia. pow2_const 1024. pow2_const 53. lia.
      - assert (Hq : qe = e - 52) by (unfold qe; lia).
        rewrite (shl_nonneg m qe) by lia.
        pose proof (pow2_le qe 970 ltac:(lia)) as HX.
        pose proof (pow2_pos qe ltac:(lia)) as HXp. set (X := 2 ^ qe) in *.
        assert (m * X <= 2 ^ 53 * 2 ^ 970) by (apply Z.mul_le_mono_nonneg; lia).
        pow2_const 1024. pow2_const 970. pow2_const 53. lia. }
    destruct (Z.leb_spec (2 ^ 1024) (shl m qe)); [lia|].
    destruct (Z.leb_spec ((2 ^ 1024 - 2 ^ 970) * t) n); [lia|reflexivity].
Qed.

(** A positive quotient rounds to a double above the literal [0.67]
    exactly from the midpoint between the literal and the next double on,
    which is [12069647001352931 / 2 ^ 54]. *)
Lemma int_truediv_gt_midpoint n t :
  0 < n -> 0 < t ->
  let e := ratio_log2 n t in
  let qe := Z.max (e - 52) (-1074) in
  let m := rne_div (shl n (- qe)) (shl t qe) in
  float_gt (Float m qe) lit_0_67 = (12069647001352931 * t <=? n * 2 ^ 54).
Proof.
  intros Hn Ht. pose proof (ratio_log2_spec n t Hn Ht) as He.
  pose proof (scaled_quotient n t Hn Ht) as (HD & HN & H53 & H52).
  cbv zeta in *. set (e := ratio_log2 n t) in *.
  set (qe := Z.max (e - 52) (-1074)) in *.
  pose proof (significand_range _ _ HD HN H53) as [Hm Hm52].
  unfold float_gt, lit_0_67. cbn [fmant fexp].
  destruct (Z_le_gt_dec 0 e) as [H0|H0]; [|destruct (Z.eq_dec e (-1)) as [H1|H1]].
  - (* quotient at least 1 *)
    specialize (Hm52 (H52 ltac:(lia))).
    assert (Hq : qe = e - 52) by (unfold qe; lia).
    set (m := rne_div (shl n (- qe)) (shl t qe)) in *.
    rewrite (shl_nonpos _ (-53 - qe)), (shl_nonneg m (qe - -53)) by lia.
    rewrite (shl_nonneg t e), (shl_nonpos n (- e)) in He by lia.
    pose proof (pow2_le 1 (qe - -53) ltac:(lia)) as HX. change (2 ^ 1) with 2 in HX.
    pose proof (pow2_pos e H0) as HY.
    set (X := 2 ^ (qe - -53)) in *. set (Y := 2 ^ e) in *.
    pow2_const 52. pow2_const 53. pow2_const 54.
    assert (t <= n) by nia.
    destruct (Z.ltb_spec 6034823500676465 (m * X));
      destruct (Z.leb_spec (12069647001352931 * t) (n * 18014398509481984));
      try reflexivity; nia.
  - (* quotient in [1/2, 1): the rounding decides *)
    assert (Hq : qe = -53) by (unfold qe; lia).
    rewrite Hq in HD |- *. change (-53 - -53) with 0.
    rewrite !(shl_nonpos _ 0) by lia.
    rewrite (rne_div_gt_odd _ _ 6034823500676465 HD eq_refl).
    rewrite (shl_nonpos t (-53)) by lia. rewrite (shl_nonneg n (Z.opp (-53))) by lia.
    change (Z.opp (-53)) with 53. pow2_const 53. pow2_const 54.
    destruct (Z.leb_spec ((2 * 6034823500676465 + 1) * t) (2 * (n * 9007199254740992)));
      destruct (Z.leb_spec (12069647001352931 * t) (n * 18014398509481984));
      try reflexivity; lia.
  - (* quotient below 1/2 *)
    assert (Hq : qe <= -54) by (unfold qe; lia).
    set (m := rne_div (shl n (- qe)) (shl t qe)) in *.
    rewrite (shl_nonneg _ (-53 - qe)), (shl_nonpos m (qe - -53)) by lia.
    rewrite (shl_nonpos t e), (shl_nonneg n (- e)) in He by lia.
    pose proof (pow2_le 1 (-53 - qe) ltac:(lia)) as HX. change (2 ^ 1) with 2 in HX.
    pose proof (pow2_le 2 (- e) ltac:(lia)) as HY. change (2 ^ 2) with 4 in HY.
    set (X := 2 ^ (-53 - qe)) in *. set (Y := 2 ^ (- e)) in *.
    pow2_const 53. pow2_const 54.
    assert (2 * n < t) by nia.
    destruct (Z.ltb_spec (6034823500676465 * X) m);
      destruct (Z.leb_spec (12069647001352931 * t) (n * 18014398509481984));
      try reflexivity; nia.
Qed.

(** Python's [p / t] compared with [0.67], for every pair of integers
    with a positive divisor: [OverflowError] when the quotient is too
    large for a double, and otherwise above the literal exactly from the
    midpoint on. *)
Lemma int_truediv_spec p t :
  0 < t ->
  ((2 ^ 1024 - 2 ^ 970) * t <= Z.abs p -> int_truediv p t = inl OverflowError)
  /\ (Z.abs p < (2 ^ 1024 - 2 ^ 970) * t ->
      exists q, int_truediv p t = inr q
                /\ float_gt q lit_0_67 = (12069647001352931 * t <=? p * 2 ^ 54)).
Proof.
  intros Ht. unfold int_truediv.
  destruct (Z.eqb_spec t 0) as [|_]; [lia|].
  assert (HB : 0 < 2 ^ 1024 - 2 ^ 970) by reflexivity.
  destruct (Z.eqb_spec p 0) as [->|Hp0].
  { split; [intros H; cbn in H; nia|]. intros _. eexists. split; [reflexivity|].
    change (float_gt (Float 0 0) lit_0_67) with false.
    symmetry. apply Z.leb_gt. lia. }
  rewrite (Z.abs_eq t) by lia. cbv zeta.
  rewrite (int_truediv_overflow_iff (Z.abs p) t ltac:(lia) Ht).
  split; intros H.
  - apply Z.leb_le in H. rewrite H. reflexivity.
  - apply Z.leb_gt in H. rewrite H. eexists. split; [reflexivity|].
    rewrite (Z.sgn_pos t) by lia.
    destruct (Z_lt_le_dec p 0) as [Hneg|Hpos].
    + (* a negative quotient is never above the literal *)
      rewrite (Z.sgn_neg p) by lia.
      pose proof (scaled_quotient (Z.abs p) t ltac:(lia) Ht) as (HD & HN & H53 & _).
      cbv zeta in *.
      pose proof (significand_range _ _ HD HN H53) as [Hm _].
      set (qe := Z.max (ratio_log2 (Z.abs p) t - 52) (-1074)) in *.
      set (m := rne_div (shl (Z.abs p) (- qe)) (shl t qe)) in *.
      unfold float_gt, lit_0_67. cbn [fmant fexp].
      assert (0 < shl 6034823500676465 (-53 - qe)).
      { unfold shl. pose proof (pow2_pos (Z.max 0 (-53 - qe)) ltac:(lia)). lia. }
      assert (shl (-1 * 1 * m) (qe - -53) <= 0).
      { unfold shl. pose proof (pow2_pos (Z.max 0 (qe - -53)) ltac:(lia)). nia. }
      pow2_const 54.
      destruct (Z.ltb_spec (shl 6034823500676465 (-53 - qe)) (shl (-1 * 1 * m) (qe - -53)));
        destruct (Z.leb_spec (12069647001352931 * t) (p * 18014398509481984));
        try reflexivity; lia.
    + rewrite (Z.sgn_pos p) by lia. rewrite (Z.abs_eq p) by lia.
      replace (1 * 1 * rne_div _ _) with
        (rne_div (shl p (- Z.max (ratio_log2 p t - 52) (-1074)))
                 (shl t (Z.max (ratio_log2 p t - 52) (-1074)))) by lia.
      exact (int_truediv_gt_midpoint p t ltac:(lia) Ht).
Qed.

End FloatFacts.

(** ** The gates of [process_league] *)

Lemma after_after es1 es2 w : after es2 (after es1 w) = after (es1 ++ es2) w.
Proof. unfold after, set_calls. cbn. rewrite app_assoc. reflexivity. Qed.

Lemma fraction_too_high_world p t w : snd (fraction_too_high p t w) = w.
Proof.
  unfold fraction_too_high. destruct (0 <? t); [|reflexivity].
  destruct (PyFloat.int_truediv p t); reflexivity.
Qed.

Lemma fraction_too_high_outcome p t w1 w2 :
  fst (fraction_too_high p t w1) = fst (fraction_too_high p t w2).
Proof.
  unfold fraction_too_high. destruct (0 <? t); [|reflexivity].
  destruct (PyFloat.int_truediv p t); reflexivity.
Qed.

Section Gates.

Variable srv : remote.
Variable lid : string.
Variable season : Z.

(** Up to the fraction filter nothing but the league request happens. *)
Lemma process_league_to_filter w lg :
  fst (get_league srv lid w) = Return (Some lg) ->
  league_truthy lg = true ->
  not_started lg = false ->
  process_league srv lid season w
  = (let* too_high := fraction_too_high (filter_playoff_teams lg) (filter_total_rosters lg) in
     if too_high then ret false else
     insert_league lid (pretty season) (name lg) (total_rosters lg)
                   (Some (filter_playoff_teams lg)) (status lg) ;;
     let* rs := get_league_rosters srv lid in
     match rs with
     | [] => ret false
     | _ =>
       let* bracket := get_winners_bracket srv lid in
       for_each rs (store_roster lid (extract_playoff_roster_ids bracket)) ;;
       ret true
     end) (after [ELeague lid] w).
Proof.
  intros Hl Ht Hs. unfold process_league.
  rewrite (bind_return _ _ _ _ Hl), get_league_world, Ht. cbn [negb].
  unfold not_started in Hs. rewrite Hs. reflexivity.
Qed.

Lemma process_league_filter_raises w lg e :
  fst (get_league srv lid w) = Return (Some lg) ->
  league_truthy lg = true ->
  not_started lg = false ->
  fst (fraction_too_high (filter_playoff_teams lg) (filter_total_rosters lg) w) = Raise e ->
  process_league srv lid season w = (Raise e, after [ELeague lid] w).
Proof.
  intros Hl Ht Hs Hf. rewrite (process_league_to_filter w lg Hl Ht Hs).
  rewrite (fraction_too_high_outcome _ _ _ (after [ELeague lid] w)) in Hf.
  rewrite (bind_raise _ _ _ _ Hf), fraction_too_high_world. reflexivity.
Qed.

Lemma process_league_rejected w lg :
  fst (get_league srv lid w) = Return (Some lg) ->
  league_truthy lg = true ->
  not_started lg = false ->
  fst (fraction_too_high (filter_playoff_teams lg) (filter_total_rosters lg) w) = Return true ->
  process_league srv lid season w = (Return false, after [ELeague lid] w).
Proof.
  intros Hl Ht Hs Hf. rewrite (process_league_to_filter w lg Hl Ht Hs).
  rewrite (fraction_too_high_outcome _ _ _ (after [ELeague lid] w)) in Hf.
  rewrite (bind_return _ _ _ _ Hf), fraction_too_high_world. reflexivity.
Qed.

(** The upsert of the league row: committed when the counts fit SQLite's
    INTEGER, [OverflowError] with nothing written otherwise. *)
Lemma insert_league_run w lg :
  league_storable lg = true ->
  insert_league lid (pretty season) (name lg) (total_rosters lg)
                (Some (filter_playoff_teams lg)) (status lg) w
  = (Return tt, with_league lid season lg w).
Proof.
  unfold league_storable, insert_league. cbn [sqlite_param]. intros ->. reflexivity.
Qed.

Lemma insert_league_overflow w lg :
  league_storable lg = false ->
  insert_league lid (pretty season) (name lg) (total_rosters lg)
                (Some (filter_playoff_teams lg)) (status lg) w
  = (Raise (ArithmeticError PyFloat.OverflowError), w).
Proof.
  unfold league_storable, insert_league. cbn [sqlite_param]. intros ->. reflexivity.
Qed.

(** Past the filter the league row is committed before anything else. *)
Lemma process_league_past_filter w lg :
  fst (get_league srv lid w) = Return (Some lg) ->
  league_truthy lg = true ->
  not_started lg = false ->
  fst (fraction_too_high (filter_playoff_teams lg) (filter_total_rosters lg) w) = Return false ->
  league_storable lg = true ->
  process_league srv lid season w
  = process_league_rosters srv lid (with_league lid season lg (after [ELeague lid] w)).
Proof.
  intros Hl Ht Hs Hf Hst. rewrite (process_league_to_filter w lg Hl Ht Hs).
  rewrite (fraction_too_high_outcome _ _ _ (after [ELeague lid] w)) in Hf.
  rewrite (bind_return _ _ _ _ Hf), fraction_too_high_world. cbn [negb].
  unfold bind at 1. rewrite (insert_league_run _ lg Hst). reflexivity.
Qed.

(** Past the filter with a count SQLite cannot hold: [OverflowError],
    after the league request only and with nothing written. *)
Lemma process_league_overflow w lg :
  fst (get_league srv lid w) = Return (Some lg) ->
  league_truthy lg = true ->
  not_started lg = false ->
  fst (fraction_too_high (filter_playoff_teams lg) (filter_total_rosters lg) w) = Return false ->
  league_storable lg = false ->
  process_league srv lid season w
  = (Raise (ArithmeticError PyFloat.OverflowError), after [ELeague lid] w).
Proof.
  intros Hl Ht Hs Hf Hst. rewrite (process_league_to_filter w lg Hl Ht Hs).
  rewrite (fraction_too_high_outcome _ _ _ (after [ELeague lid] w)) in Hf.
  rewrite (bind_return _ _ _ _ Hf), fraction_too_high_world. cbn [negb].
  unfold bind at 1. rewrite (insert_league_overflow _ lg Hst). reflexivity.
Qed.

(** Whatever happens after the commit, the league table stays as
    committed and the commit count does not go back. *)
Lemma process_league_rosters_world w :
  let w' := snd (process_league_rosters srv lid w) in
  leagues (db w') = leagues (db w)
  /\ (commits w <= commits w')%nat
  /\ state_file w' = state_file w
  /\ rand_draws w' = rand_draws w.
Proof.
  unfold process_league_rosters. rewrite bind_run, get_league_rosters_world.
  destruct (fst (get_league_rosters srv lid w)) as [rs|e]; [|cbn; auto].
  destruct rs as [|r rs]; [cbn; auto|].
  rewrite bind_run, get_winners_bracket_world.
  destruct (fst (get_winners_bracket srv lid _)) as [br|e]; [|cbn; auto].
  pose proof (store_rosters_world lid (extract_playoff_roster_ids br) (r :: rs)
                (after [EWinnersBracket lid] (after [ELeagueRosters lid] w)))
    as (C & F & R & L & K).
  cbv zeta in *. rewrite bind_run.
  destruct (fst (for_each (r :: rs) _ _)) as [[]|e]; cbn [snd ret];
    rewrite L, F, R; cbn; repeat split; exact K.
Qed.

(** The whole success path. *)
Lemma process_league_stored w lg rs br :
  fst (get_league srv lid w) = Return (Some lg) ->
  league_truthy lg = true ->
  not_started lg = false ->
  fst (fraction_too_high (filter_playoff_teams lg) (filter_total_rosters lg) w) = Return false ->
  fst (get_league_rosters srv lid (after [ELeague lid] w)) = Return rs ->
  rs <> [] ->
  fst (get_winners_bracket srv lid (after [ELeague lid; ELeagueRosters lid] w)) = Return br ->
  league_storable lg = true ->
  rosters_storable rs = true ->
  process_league srv lid season w
  = (Return true,
     snd (for_each rs (store_roster lid (extract_playoff_roster_ids br))
            (with_league lid season lg
               (after [ELeague lid; ELeagueRosters lid; EWinnersBracket lid] w)))).
Proof.
  intros Hl Ht Hs Hf Hr Hne Hb Hsl Hsr.
  rewrite (process_league_past_filter w lg Hl Ht Hs Hf Hsl). unfold process_league_rosters.
  set (w1 := with_league lid season lg (after [ELeague lid] w)).
  rewrite (get_league_rosters_outcome srv lid _ w1) in Hr by reflexivity.
  rewrite (bind_return _ _ _ _ Hr), get_league_rosters_world.
  destruct rs as [|r rs']; [congruence|].
  rewrite (get_winners_bracket_outcome srv lid _ (after [ELeagueRosters lid] w1)) in Hb
    by (cbn; rewrite <- !app_assoc; reflexivity).
  rewrite (bind_return _ _ _ _ Hb), get_winners_bracket_world.
  assert (Hw : after [EWinnersBracket lid] (after [ELeagueRosters lid] w1)
               = with_league lid season lg
                   (after [ELeague lid; ELeagueRosters lid; EWinnersBracket lid] w)).
  { unfold w1, with_league, after, commit_db, set_calls. cbn.
    rewrite <- !app_assoc. reflexivity. }
  rewrite Hw.
  destruct (store_rosters_run lid (extract_playoff_roster_ids br) (r :: rs')
              (with_league lid season lg
                 (after [ELeague lid; ELeagueRosters lid; EWinnersBracket lid] w)) Hsr)
    as (w' & E & _).
  unfold bind at 1. rewrite E. reflexivity.
Qed.

End Gates.

(** A successful run went through every gate, and every integer it wrote
    fitted SQLite's INTEGER. *)
Lemma process_league_success_inv srv lid season w :
  fst (process_league srv lid season w) = Return true ->
  exists lg rs br,
    fst (get_league srv lid w) = Return (Some lg)
    /\ league_truthy lg = true
    /\ not_started lg = false
    /\ fst (fraction_too_high (filter_playoff_teams lg) (filter_total_rosters lg) w)
       = Return false
    /\ fst (get_league_rosters srv lid (after [ELeague lid] w)) = Return rs
    /\ rs <> []
    /\ fst (get_winners_bracket srv lid (after [ELeague lid; ELeagueRosters lid] w))
       = Return br
    /\ league_storable lg = true
    /\ rosters_storable rs = true.
Proof.
  intros H.
  destruct (fst (get_league srv lid w)) as [[lg|]|e] eqn:Hl.
  2:{ unfold process_league in H. rewrite (bind_return _ _ _ _ Hl) in H. discriminate. }
  2:{ unfold process_league in H. rewrite (bind_raise _ _ _ _ Hl) in H. discriminate. }
  destruct (league_truthy lg) eqn:Ht.
  2:{ unfold process_league in H. rewrite (bind_return _ _ _ _ Hl), Ht in H. discriminate. }
  destruct (not_started lg) eqn:Hs.
  { unfold process_league in H. rewrite (bind_return _ _ _ _ Hl), Ht in H.
    unfold not_started in Hs. cbn [negb] in H. rewrite Hs in H. discriminate. }
  destruct (fst (fraction_too_high (filter_playoff_teams lg) (filter_total_rosters lg) w))
    as [[|]|e] eqn:Hf.
  { rewrite (process_league_rejected srv lid season w lg Hl Ht Hs Hf) in H. discriminate. }
  2:{ rewrite (process_league_to_filter srv lid season w lg Hl Ht Hs) in H.
      rewrite (fraction_too_high_outcome _ _ _ (after [ELeague lid] w)) in Hf.
      rewrite (bind_raise _ _ _ _ Hf) in H. discriminate. }
  destruct (league_storable lg) eqn:Hsl.
  2:{ rewrite (process_league_overflow srv lid season w lg Hl Ht Hs Hf Hsl) in H.
      discriminate. }
  rewrite (process_league_past_filter srv lid season w lg Hl Ht Hs Hf Hsl) in H.
  unfold process_league_rosters in H.
  set (w1 := with_league lid season lg (after [ELeague lid] w)) in *.
  destruct (fst (get_league_rosters srv lid w1)) as [rs|e] eqn:Hr.
  2:{ rewrite (bind_raise _ _ _ _ Hr) in H. discriminate. }
  rewrite (bind_return _ _ _ _ Hr), get_league_rosters_world in H.
  destruct rs as [|r rs]; [discriminate|].
  destruct (fst (get_winners_bracket srv lid (after [ELeagueRosters lid] w1)))
    as [br|e] eqn:Hb.
  2:{ rewrite (bind_raise _ _ _ _ Hb) in H. discriminate. }
  rewrite (bind_return _ _ _ _ Hb), get_winners_bracket_world in H.
  exists lg, (r :: rs), br. repeat split; try assumption; try discriminate.
  - rewrite <- Hr. apply get_league_rosters_outcome. reflexivity.
  - rewrite <- Hb. apply get_winners_bracket_outcome.
    cbn. rewrite <- !app_assoc. reflexivity.
  - destruct (rosters_storable (r :: rs)) eqn:Hsr; [reflexivity|]. exfalso.
    pose proof (store_rosters_overflow lid (extract_playoff_roster_ids br) (r :: rs)
                  (after [EWinnersBracket lid] (after [ELeagueRosters lid] w1)) Hsr) as He.
    rewrite (bind_raise _ _ _ _ He) in H. discriminate.
Qed.

(** ** Tri-state qualification *)

(** What a successful [process_league] leaves in the roster table. *)
Lemma process_league_flags srv lid season w rs br r rid :
  fst (process_league srv lid season w) = Return true ->
  fst (get_league_rosters srv lid (after [ELeague lid] w)) = Return rs ->
  fst (get_winners_bracket srv lid (after [ELeague lid; ELeagueRosters lid] w)) = Return br ->
  r ∈ rs -> roster_id r = Some rid ->
  exists row,
    rosters (db (snd (process_league srv lid season w))) !! (lid, rid) = Some row
    /\ row_made_playoffs row
       = made_playoffs_int (made_playoffs_of rid (extract_playoff_roster_ids br)).
Proof.
  intros Hok Hr Hb Hin Hid.
  destruct (process_league_success_inv srv lid season w Hok)
    as (lg & rs' & br' & Hl & Ht & Hs & Hf & Hr' & Hne & Hb' & Hsl & Hsr).
  assert (rs' = rs) as -> by congruence.
  assert (br' = br) as -> by congruence.
  rewrite (process_league_stored srv lid season w lg rs br Hl Ht Hs Hf Hr Hne Hb Hsl Hsr).
  cbn [snd]. apply (store_rosters_flag lid _ rs r rid _ Hsr Hin Hid).
Qed.

(** C3: with an empty bracket the qualifier set is empty, and every
    fetched roster of a processed league is recorded with
    [made_playoffs] NULL (unknown), not 0. *)
Theorem empty_bracket_is_unknown srv lid season w rs :
  fst (process_league srv lid season w) = Return true ->
  fst (get_league_rosters srv lid (after [ELeague lid] w)) = Return rs ->
  fst (get_winners_bracket srv lid (after [ELeague lid; ELeagueRosters lid] w)) = Return [] ->
  extract_playoff_roster_ids [] = ∅
  /\ forall r rid, r ∈ rs -> roster_id r = Some rid ->
       exists row,
         rosters (db (snd (process_league srv lid season w))) !! (lid, rid) = Some row
         /\ row_made_playoffs row = None.
Proof.
  intros Hok Hr Hb. split; [reflexivity|]. intros r rid Hin Hid.
  destruct (process_league_flags srv lid season w rs [] r rid Hok Hr Hb Hin Hid)
    as (row & Hrow & Hflag).
  exists row. split; [exact Hrow|]. rewrite Hflag. reflexivity.
Qed.

Lemma empty_bracket_is_unknown_witness :
  exists row,
    rosters (db (snd (process_league demo_srv "Lnobracket" 2025 demo_world)))
      !! ("Lnobracket", 5) = Some row
    /\ row_made_playoffs row = None.
Proof.
  refine (proj2 (empty_bracket_is_unknown demo_srv "Lnobracket" 2025 demo_world
                   demo_rosters _ _ _)
            (Roster (Some 5) (Some "u2") None) 5 _ _).
  - vm_compute. reflexivity.
  - vm_compute. reflexivity.
  - vm_compute. reflexivity.
  - unfold demo_rosters. set_solver.
  - reflexivity.
Defined.

Lemma demo_bracket_ids : extract_playoff_roster_ids demo_bracket = {[ 3; 5; 7 ]}.
Proof. unfold extract_playoff_roster_ids, demo_bracket. cbn. set_solver. Qed.

(** C4: the bracket [[{t1: 3, t2: 5}, {t1: 3, t2: 7}]] yields the
    qualifier set {3, 5, 7}; in a processed league with that bracket the
    rosters 3, 5 and 7 are recorded with [made_playoffs] 1 and every
    other fetched roster with 0. *)
Theorem bracket_scenario srv lid season w rs :
  fst (process_league srv lid season w) = Return true ->
  fst (get_league_rosters srv lid (after [ELeague lid] w)) = Return rs ->
  fst (get_winners_bracket srv lid (after [ELeague lid; ELeagueRosters lid] w))
  = Return [Matchup (Some 3) (Some 5); Matchup (Some 3) (Some 7)] ->
  extract_playoff_roster_ids [Matchup (Some 3) (Some 5); Matchup (Some 3) (Some 7)]
  = {[ 3; 5; 7 ]}
  /\ forall r rid, r ∈ rs -> roster_id r = Some rid ->
       exists row,
         rosters (db (snd (process_league srv lid season w))) !! (lid, rid) = Some row
         /\ row_made_playoffs row
            = Some (if bool_decide (rid = 3 \/ rid = 5 \/ rid = 7) then 1 else 0).
Proof.
  intros Hok Hr Hb. split; [exact demo_bracket_ids|]. intros r rid Hin Hid.
  destruct (process_league_flags srv lid season w rs _ r rid Hok Hr Hb Hin Hid)
    as (row & Hrow & Hflag).
  exists row. split; [exact Hrow|]. rewrite Hflag.
  change (extract_playoff_roster_ids _) with (extract_playoff_roster_ids demo_bracket).
  rewrite demo_bracket_ids. unfold made_playoffs_of.
  rewrite bool_decide_eq_false_2 by set_solver. cbn.
  assert (E : rid ∈ ({[ 3; 5; 7 ]} : gset Z) <-> rid = 3 \/ rid = 5 \/ rid = 7)
    by (rewrite !elem_of_union, !elem_of_singleton; tauto).
  rewrite (bool_decide_ext _ _ E). reflexivity.
Qed.

Lemma bracket_scenario_witness :
  (exists row,
     rosters (db (snd (process_league demo_srv "L8" 2025 demo_world))) !! ("L8", 7)
       = Some row
     /\ row_made_playoffs row = Some 1)
  /\ (exists row,
     rosters (db (snd (process_league demo_srv "L8" 2025 demo_world))) !! ("L8", 1)
       = Some row
     /\ row_made_playoffs row = Some 0).
Proof.
  assert (H := proj2 (bracket_scenario demo_srv "L8" 2025 demo_world demo_rosters
                        ltac:(vm_compute; reflexivity) ltac:(vm_compute; reflexivity)
                        ltac:(vm_compute; reflexivity))).
  split.
  - apply (H (Roster (Some 7) None (Some [])) 7); [unfold demo_rosters; set_solver | reflexivity].
  - apply (H (Roster (Some 1) (Some "u3") (Some ["p1"])) 1);
      [unfold demo_rosters; set_solver | reflexivity].
Defined.

(** ** The playoff-fraction filter *)

Lemma league_truthy_total lg t : total_rosters lg = Some t -> league_truthy lg = true.
Proof.
  intros H. unfold league_truthy. rewrite H.
  destruct (name lg), (status lg); reflexivity.
Qed.

(** The filter on every pair of integers. *)
Lemma fraction_too_high_spec p t w :
  fraction_too_high p t w
  = if 0 <? t then
      if (2 ^ 1024 - 2 ^ 970) * t <=? Z.abs p then (Raise overflow_error, w)
      else (Return (12069647001352931 * t <=? p * 2 ^ 54), w)
    else (Return false, w).
Proof.
  unfold fraction_too_high. destruct (Z.ltb_spec 0 t) as [Hpos|Hneg]; [|reflexivity].
  destruct (int_truediv_spec p t Hpos) as [Hov Hok].
  destruct (Z.leb_spec ((2 ^ 1024 - 2 ^ 970) * t) (Z.abs p)) as [H|H].
  - rewrite (Hov H). reflexivity.
  - destruct (Hok H) as (q & -> & ->). reflexivity.
Qed.

Lemma fraction_too_high_exact p t w :
  - 2 ^ 32 <= p <= 2 ^ 32 -> t <= 2 ^ 32 ->
  fraction_too_high p t w = (Return ((0 <? t) && (67 * t <? 100 * p)), w).
Proof.
  intros Hp Ht. unfold fraction_too_high.
  destruct (Z.ltb_spec 0 t) as [Hpos|Hneg]; [|reflexivity].
  destruct (int_truediv_gt_0_67 p t Hp ltac:(lia)) as (q & -> & ->). reflexivity.
Qed.

(** Below 100 rosters no fraction lies between 2/3 and 67/100, so there
    the filter is the 2/3 filter. *)
Lemma fraction_too_high_below_100 p t w :
  - 2 ^ 32 <= p <= 2 ^ 32 -> t < 100 ->
  fraction_too_high p t w = (Return ((0 <? t) && (2 * t <? 3 * p)), w).
Proof.
  intros Hp Ht. rewrite fraction_too_high_exact by (try assumption; lia).
  do 2 f_equal. destruct (Z.ltb_spec 0 t); [|reflexivity]. cbn.
  destruct (Z.ltb_spec (67 * t) (100 * p)), (Z.ltb_spec (2 * t) (3 * p));
    try reflexivity; lia.
Qed.

Section FilterOutcomes.

Variable srv : remote.
Variable lid : string.
Variable season : Z.
Variable w : world.
Variable lg : league.
Hypothesis Hl : fst (get_league srv lid w) = Return (Some lg).
Hypothesis Ht : league_truthy lg = true.
Hypothesis Hs : not_started lg = false.

Let p := filter_playoff_teams lg.
Let t := filter_total_rosters lg.
Let r := process_league srv lid season w.

(** A rejection by the filter is a failure that persisted nothing. *)
Lemma rejected_fails :
  fst (fraction_too_high p t w) = Return true -> fails_persisting_nothing r w.
Proof.
  intros Hf. unfold r. rewrite (process_league_rejected srv lid season w lg Hl Ht Hs Hf).
  repeat split.
Qed.

(** Past the filter the league row is committed, or the upsert raises. *)
Lemma past_filter_row :
  fst (fraction_too_high p t w) = Return false ->
  (league_storable lg = true ->
     leagues (db (snd r)) !! lid = Some (league_row_of season lg)
     /\ (commits w < commits (snd r))%nat)
  /\ (league_storable lg = false -> r = (Raise overflow_error, after [ELeague lid] w)).
Proof.
  intros Hf. split; intros Hst.
  - unfold r. rewrite (process_league_past_filter srv lid season w lg Hl Ht Hs Hf Hst).
    destruct (process_league_rosters_world srv lid
                (with_league lid season lg (after [ELeague lid] w))) as (Hlg & Hc & _).
    rewrite Hlg. cbn in Hc |- *. rewrite lookup_insert_eq. split; [reflexivity | lia].
  - exact (process_league_overflow srv lid season w lg Hl Ht Hs Hf Hst).
Qed.

(** Past the filter the call is not a failure that persisted nothing. *)
Lemma past_filter_not_fails :
  fst (fraction_too_high p t w) = Return false -> ~ fails_persisting_nothing r w.
Proof.
  intros Hf (Hr & Hc & _). destruct (past_filter_row Hf) as [Hyes Hno].
  destruct (league_storable lg).
  - destruct (Hyes eq_refl) as [_ Hlt]. lia.
  - rewrite (Hno eq_refl) in Hr. discriminate.
Qed.

(** The outcome of the filter in integers, for every pair of counts. *)
Lemma filter_cases :
  (0 < t -> overflows_double p t ->
     r = (Raise overflow_error, after [ELeague lid] w))
  /\ (0 < t -> ~ overflows_double p t -> above_0_67 p t ->
     r = (Return false, after [ELeague lid] w))
  /\ (t <= 0 \/ (~ overflows_double p t /\ ~ above_0_67 p t) ->
     fst (fraction_too_high p t w) = Return false).
Proof.
  pose proof (fraction_too_high_spec p t w) as Hspec.
  unfold overflows_double, above_0_67.
  split; [|split].
  - intros Hpos Hov. apply (process_league_filter_raises srv lid season w lg _ Hl Ht Hs).
    fold p t. rewrite Hspec.
    destruct (Z.ltb_spec 0 t); [|lia].
    destruct (Z.leb_spec ((2 ^ 1024 - 2 ^ 970) * t) (Z.abs p)); [reflexivity|lia].
  - intros Hpos Hov Hab. apply (process_league_rejected srv lid season w lg Hl Ht Hs).
    fold p t. rewrite Hspec.
    destruct (Z.ltb_spec 0 t); [|lia].
    destruct (Z.leb_spec ((2 ^ 1024 - 2 ^ 970) * t) (Z.abs p)); [lia|].
    destruct (Z.leb_spec (12069647001352931 * t) (p * 2 ^ 54)); [reflexivity|lia].
  - intros Hc. rewrite Hspec.
    destruct (Z.ltb_spec 0 t); [|reflexivity].
    destruct Hc as [Hc|[Hnov Hnab]]; [lia|].
    destruct (Z.leb_spec ((2 ^ 1024 - 2 ^ 970) * t) (Z.abs p)); [lia|].
    destruct (Z.leb_spec (12069647001352931 * t) (p * 2 ^ 54)); [lia|reflexivity].
Qed.

End FilterOutcomes.

(** ** The playoff-fraction filter at the boundary and with defaults *)

(** The loop over the rosters stops with [OverflowError] at the first
    roster id that SQLite cannot hold. *)
Lemma process_league_roster_overflow srv lid season w lg rs br :
  fst (get_league srv lid w) = Return (Some lg) ->
  league_truthy lg = true ->
  not_started lg = false ->
  fst (fraction_too_high (filter_playoff_teams lg) (filter_total_rosters lg) w) = Return false ->
  fst (get_league_rosters srv lid (after [ELeague lid] w)) = Return rs ->
  fst (get_winners_bracket srv lid (after [ELeague lid; ELeagueRosters lid] w)) = Return br ->
  league_storable lg = true ->
  rosters_storable rs = false ->
  fst (process_league srv lid season w) = Raise overflow_error.
Proof.
  intros Hl Ht Hs Hf Hr Hb Hsl Hsr.
  rewrite (process_league_past_filter srv lid season w lg Hl Ht Hs Hf Hsl).
  unfold process_league_rosters.
  set (w1 := with_league lid season lg (after [ELeague lid] w)).
  rewrite (get_league_rosters_outcome srv lid _ w1) in Hr by reflexivity.
  rewrite (bind_return _ _ _ _ Hr), get_league_rosters_world.
  destruct rs as [|r0 rs']; [discriminate|].
  rewrite (get_winners_bracket_outcome srv lid _ (after [ELeagueRosters lid] w1)) in Hb
    by (cbn; rewrite <- !app_assoc; reflexivity).
  rewrite (bind_return _ _ _ _ Hb), get_winners_bracket_world.
  rewrite (bind_raise _ _ _ overflow_error); [reflexivity|].
  apply store_rosters_overflow. exact Hsr.
Qed.

(** C2: with 12 rosters, 8 playoff slots pass the filter (8/12 is not
    above the threshold): the league row is committed and, the roster
    list being non-empty, the league is processed, unless a roster id does
    not fit SQLite's INTEGER, which ends the call with [OverflowError];
    9 playoff slots are rejected before anything is written.  All other
    gates pass. *)
Theorem fraction_filter_boundary srv lid season w lg rs br :
  fst (get_league srv lid w) = Return (Some lg) ->
  not_started lg = false ->
  total_rosters lg = Some 12 ->
  fst (get_league_rosters srv lid (after [ELeague lid] w)) = Return rs ->
  rs <> [] ->
  fst (get_winners_bracket srv lid (after [ELeague lid; ELeagueRosters lid] w)) = Return br ->
  (settings lg = Some (Settings (Some 8)) ->
     leagues (db (snd (process_league srv lid season w))) !! lid
     = Some (LeagueRow (pretty season) (name lg) (Some 12) (Some 8) (status lg))
     /\ (rosters_storable rs = true ->
         fst (process_league srv lid season w) = Return true)
     /\ (rosters_storable rs = false ->
         fst (process_league srv lid season w) = Raise overflow_error))
  /\ (settings lg = Some (Settings (Some 9)) ->
     process_league srv lid season w = (Return false, after [ELeague lid] w)).
Proof.
  intros Hl Hs Htot Hr Hne Hb.
  pose proof (league_truthy_total lg 12 Htot) as Ht.
  split; intros Hset.
  - assert (Hf : fst (fraction_too_high (filter_playoff_teams lg) (filter_total_rosters lg) w)
                 = Return false).
    { unfold filter_playoff_teams, filter_total_rosters. rewrite Hset, Htot.
      vm_compute. reflexivity. }
    assert (Hsl : league_storable lg = true).
    { unfold league_storable, filter_playoff_teams. rewrite Hset, Htot. reflexivity. }
    split; [|split].
    + destruct (past_filter_row srv lid season w lg Hl Ht Hs Hf) as [Hrow _].
      destruct (Hrow Hsl) as [-> _]. unfold league_row_of, filter_playoff_teams.
      rewrite Hset, Htot. reflexivity.
    + intros Hsr.
      rewrite (process_league_stored srv lid season w lg rs br Hl Ht Hs Hf Hr Hne Hb Hsl Hsr).
      reflexivity.
    + intros Hsr.
      exact (process_league_roster_overflow srv lid season w lg rs br
               Hl Ht Hs Hf Hr Hb Hsl Hsr).
  - apply (process_league_rejected srv lid season w lg Hl Ht Hs).
    unfold filter_playoff_teams, filter_total_rosters. rewrite Hset, Htot.
    vm_compute. reflexivity.
Qed.

Lemma fraction_filter_boundary_witness :
  fst (process_league demo_srv "L8" 2025 demo_world) = Return true
  /\ process_league demo_srv "L9" 2025 demo_world
     = (Return false, after [ELeague "L9"] demo_world).
Proof.
  split.
  - apply (proj1 (fraction_filter_boundary demo_srv "L8" 2025 demo_world
                    (demo_league (Some 12) (Some 8)) demo_rosters demo_bracket
                    ltac:(vm_compute; reflexivity) ltac:(reflexivity) ltac:(reflexivity)
                    ltac:(vm_compute; reflexivity) ltac:(discriminate)
                    ltac:(vm_compute; reflexivity)) eq_refl).
    reflexivity.
  - apply (proj2 (fraction_filter_boundary demo_srv "L9" 2025 demo_world
                    (demo_league (Some 12) (Some 9)) demo_rosters demo_bracket
                    ltac:(vm_compute; reflexivity) ltac:(reflexivity) ltac:(reflexivity)
                    ltac:(vm_compute; reflexivity) ltac:(discriminate)
                    ltac:(vm_compute; reflexivity))).
    reflexivity.
Defined.

(** C10: a missing [settings.playoff_teams] counts as 6 and a missing
    [total_rosters] as 12 in the filter, which is stated here in integers
    for every pair of counts: with [p] and [t] the counts after the
    defaults, the call raises [OverflowError] when [t] is positive and
    [p / t] is too large for a double, and is rejected with nothing
    written when [t] is positive and [p / t] rounds to a double above
    0.67.  Otherwise the league row is committed with the raw
    [total_rosters] of the detail (NULL when it is missing) and
    [playoff_teams] with the default applied, or, when one of the two does
    not fit SQLite's INTEGER, [OverflowError] is raised and nothing is
    written.  For counts up to [2 ^ 32] the filter's condition is
    [67 * t < 100 * p]. *)
Theorem filter_defaults_and_row srv lid season w lg :
  fst (get_league srv lid w) = Return (Some lg) ->
  league_truthy lg = true ->
  not_started lg = false ->
  let p := match settings lg with
           | Some (Settings (Some p)) => p
           | _ => 6
           end in
  let t := match total_rosters lg with Some t => t | None => 12 end in
  let r := process_league srv lid season w in
  (0 < t -> overflows_double p t ->
     r = (Raise overflow_error, after [ELeague lid] w))
  /\ (0 < t -> ~ overflows_double p t -> above_0_67 p t ->
     r = (Return false, after [ELeague lid] w))
  /\ (t <= 0 \/ (~ overflows_double p t /\ ~ above_0_67 p t) ->
     (sqlite_param (total_rosters lg) && sqlite_int p = true ->
        leagues (db (snd r)) !! lid
        = Some (LeagueRow (pretty season) (name lg) (total_rosters lg) (Some p) (status lg)))
     /\ (sqlite_param (total_rosters lg) && sqlite_int p = false ->
        r = (Raise overflow_error, after [ELeague lid] w)))
  /\ (- 2 ^ 32 <= p <= 2 ^ 32 -> 0 < t <= 2 ^ 32 ->
     ~ overflows_double p t /\ (above_0_67 p t <-> 67 * t < 100 * p)).
Proof.
  intros Hl Ht Hs p t r.
  assert (Hp : filter_playoff_teams lg = p).
  { unfold filter_playoff_teams, p. destruct (settings lg) as [[[q|]]|]; reflexivity. }
  assert (Htot : filter_total_rosters lg = t).
  { unfold filter_total_rosters, t. destruct (total_rosters lg); reflexivity. }
  destruct (filter_cases srv lid season w lg Hl Ht Hs) as (H1 & H2 & H3).
  rewrite Hp, Htot in H1, H2, H3.
  split; [exact H1|]. split; [exact H2|]. split.
  - intros Hc. specialize (H3 Hc).
    assert (Hf : fst (fraction_too_high (filter_playoff_teams lg)
                        (filter_total_rosters lg) w) = Return false)
      by (rewrite Hp, Htot; exact H3).
    destruct (past_filter_row srv lid season w lg Hl Ht Hs Hf) as [Hyes Hno].
    unfold league_storable in Hyes, Hno. rewrite Hp in Hyes, Hno. split; intros Hst.
    + destruct (Hyes Hst) as [Hrow _]. unfold r. rewrite Hrow.
      unfold league_row_of. rewrite Hp. reflexivity.
    + exact (Hno Hst).
  - intros Hpb Htb. unfold overflows_double, above_0_67.
    pow2_const 1024. pow2_const 970. pow2_const 54. pow2_const 32. lia.
Qed.

Lemma filter_defaults_and_row_witness :
  leagues (db (snd (process_league demo_srv "Lbare" 2025 demo_world))) !! "Lbare"
  = Some (LeagueRow "2025" (Some "Bare") None (Some 6) (Some "in_season")).
Proof.
  pose proof (filter_defaults_and_row demo_srv "Lbare" 2025 demo_world
                (League (Some "Bare") (Some "in_season") None None [])
                ltac:(vm_compute; reflexivity) ltac:(reflexivity) ltac:(reflexivity))
    as (_ & _ & H & _).
  apply H; [|reflexivity].
  right. unfold overflows_double, above_0_67.
  split; intros Hc; vm_compute in Hc; exact (Hc eq_refl).
Defined.

(** C1 (amended): for a league whose detail is present and whose status
    passes the started gate, [process_league] fails with nothing persisted
    exactly when [total_rosters] is positive and the double
    [playoff_teams / total_rosters] is above the code's threshold, the
    double 0.67; in integers, for every pair of counts: exactly when
    [total_rosters] is positive and the quotient is at least
    [12069647001352931 / 2 ^ 54], the quotients of magnitude
    [2 ^ 1024 - 2 ^ 970] and more apart, on which the division raises
    [OverflowError] with nothing persisted.  For counts up to [2 ^ 32]
    the condition is the exact [67 * total < 100 * playoff].  With
    [total_rosters <= 0] the filter is skipped: the league row is
    committed, or, when a count does not fit SQLite's INTEGER,
    [OverflowError] is raised with nothing persisted. *)
Theorem fraction_gate srv lid season w lg :
  fst (get_league srv lid w) = Return (Some lg) ->
  league_truthy lg = true ->
  not_started lg = false ->
  let p := filter_playoff_teams lg in
  let t := filter_total_rosters lg in
  let r := process_league srv lid season w in
  (0 < t -> overflows_double p t ->
     r = (Raise overflow_error, after [ELeague lid] w))
  /\ (~ (0 < t /\ overflows_double p t) ->
     (fails_persisting_nothing r w <-> 0 < t /\ above_0_67 p t))
  /\ (- 2 ^ 32 <= p <= 2 ^ 32 -> t <= 2 ^ 32 -> fails_exactly_above 67 100 lg r w)
  /\ (t <= 0 ->
     (league_storable lg = true ->
        leagues (db (snd r)) !! lid = Some (league_row_of season lg))
     /\ (league_storable lg = false ->
        r = (Raise overflow_error, after [ELeague lid] w))).
Proof.
  intros Hl Ht Hs p t r.
  destruct (filter_cases srv lid season w lg Hl Ht Hs) as (H1 & H2 & H3).
  fold p t r in H1, H2, H3.
  assert (Hiff : ~ (0 < t /\ overflows_double p t) ->
                 (fails_persisting_nothing r w <-> 0 < t /\ above_0_67 p t)).
  { intros Hno. split.
    - intros Hfail.
      destruct (Z_lt_le_dec 0 t) as [Hpos|Hneg].
      + assert (Hnov : ~ overflows_double p t) by tauto.
        split; [exact Hpos|].
        destruct (Z_le_gt_dec (12069647001352931 * t) (p * 2 ^ 54)) as [Hab|Hab];
          [exact Hab|].
        exfalso. apply (past_filter_not_fails srv lid season w lg Hl Ht Hs); [|exact Hfail].
        apply H3. right. split; [exact Hnov|]. unfold above_0_67. lia.
      + exfalso. apply (past_filter_not_fails srv lid season w lg Hl Ht Hs); [|exact Hfail].
        apply H3. left. exact Hneg.
    - intros [Hpos Hab].
      assert (Hr : r = (Return false, after [ELeague lid] w)).
      { apply H2; [exact Hpos| |exact Hab]. intros Hov. apply Hno. split; assumption. }
      rewrite Hr. repeat split. }
  split; [exact H1|]. split; [exact Hiff|]. split.
  - intros Hpb Htb. unfold fails_exactly_above. fold p t.
    change (fails_persisting_nothing r w <-> 0 < t /\ 67 * t < 100 * p).
    assert (Hnov : 0 < t -> ~ overflows_double p t /\ (above_0_67 p t <-> 67 * t < 100 * p)).
    { intros Hpos. unfold overflows_double, above_0_67.
      pow2_const 1024. pow2_const 970. pow2_const 54. pow2_const 32. lia. }
    rewrite Hiff by (intros [Hpos Hov]; apply (proj1 (Hnov Hpos)); exact Hov).
    split; intros [Hpos Hc]; (split; [exact Hpos|]); apply (proj2 (Hnov Hpos)); exact Hc.
  - intros Hneg.
    destruct (past_filter_row srv lid season w lg Hl Ht Hs (H3 (or_introl Hneg)))
      as [Hyes Hno].
    split; intros Hst; [exact (proj1 (Hyes Hst)) | exact (Hno Hst)].
Qed.

Lemma fraction_gate_witness :
  fails_exactly_above 67 100 (demo_league (Some 100) (Some 67))
    (process_league demo_srv "L67" 2025 demo_world) demo_world
  /\ process_league demo_srv "Lwide" 2025 demo_world
     = (Raise overflow_error, after [ELeague "Lwide"] demo_world).
Proof.
  split.
  - pose proof (fraction_gate demo_srv "L67" 2025 demo_world
                  (demo_league (Some 100) (Some 67))
                  ltac:(vm_compute; reflexivity) ltac:(reflexivity) ltac:(reflexivity))
      as (_ & _ & H & _).
    apply H; [vm_compute; split; discriminate | vm_compute; discriminate].
  - pose proof (fraction_gate demo_srv "Lwide" 2025 demo_world
                  (demo_league (Some 1) (Some (2 ^ 1024)))
                  ltac:(vm_compute; reflexivity) ltac:(reflexivity) ltac:(reflexivity))
      as (H & _).
    apply H; [reflexivity | vm_compute; discriminate].
Defined.

(** C1 as stated fails: a league with 100 rosters and 67 playoff slots has
    a fraction above 2/3, its detail is present and it has started, yet
    [process_league] processes it. *)
Lemma fraction_gate_two_thirds_counterexample :
  fst (get_league demo_srv "L67" demo_world)
  = Return (Some (demo_league (Some 100) (Some 67)))
  /\ not_started (demo_league (Some 100) (Some 67)) = false
  /\ fst (process_league demo_srv "L67" 2025 demo_world) = Return true
  /\ ~ fails_exactly_above 2 3 (demo_league (Some 100) (Some 67))
       (process_league demo_srv "L67" 2025 demo_world) demo_world.
Proof.
  assert (Hr : fst (process_league demo_srv "L67" 2025 demo_world) = Return true)
    by (vm_compute; reflexivity).
  repeat split; try (vm_compute; reflexivity).
  intros [_ H]. destruct H as (Hfail & _).
  - vm_compute. split; reflexivity.
  - rewrite Hr in Hfail. discriminate.
Qed.

(** ** The frontier walker *)

Lemma deque_rotate_length {A} n (q : list A) : length (deque_rotate n q) = length q.
Proof.
  unfold deque_rotate. rewrite length_app, length_drop, length_take. lia.
Qed.

Lemma deque_rotate_elem_of {A} n (q : list A) x : x ∈ deque_rotate n q <-> x ∈ q.
Proof.
  unfold deque_rotate. set (k := (length q - n mod length q)%nat).
  transitivity (x ∈ take k q ++ drop k q).
  - rewrite !elem_of_app. tauto.
  - rewrite take_drop. reflexivity.
Qed.

Section WalkerFacts.

Variable srv : remote.
Variable rnd : nat -> nat.
Variable cfg : crawl_config.

(** The rotation reorders the queue and touches nothing but the random
    generator. *)
Lemma shuffle_run q w :
  exists q' w',
    shuffle rnd cfg q w = (Return q', w')
    /\ calls w' = calls w /\ db w' = db w /\ commits w' = commits w
    /\ state_file w' = state_file w
    /\ length q' = length q
    /\ (forall x, x ∈ q' <-> x ∈ q).
Proof.
  unfold shuffle. destruct (shuffle_queue cfg && (1 <? length q)%nat).
  - eexists _, _. split; [reflexivity|]. cbn.
    repeat split; auto using deque_rotate_length; apply deque_rotate_elem_of.
  - exists q, w. repeat split; auto.
Qed.

Lemma loop_guard_false v : loop_guard cfg v = false <-> stop_condition cfg v.
Proof.
  unfold loop_guard, stop_condition.
  rewrite !andb_false_iff, negb_false_iff, bool_decide_eq_true, !Z.ltb_ge. tauto.
Qed.

(** The league loop never touches the visited set. *)
Lemma leagues_loop_seen lgs v n w v' w' :
  leagues_loop srv cfg lgs v n w = (Return v', w') ->
  seen_user_ids v' = seen_user_ids v.
Proof.
  revert v n w. induction lgs as [|lg rest IH]; intros v n w H; cbn [leagues_loop] in H.
  - inversion H. reflexivity.
  - destruct (negb _ || _); [eauto|].
    destruct (negb (opt_str_eqb _ _)); [eauto|].
    rewrite bind_run in H.
    destruct (fst _) as [[|]|e] in H; [ | |discriminate].
    + rewrite bind_run in H.
      destruct (fst _) as [us|e] in H; [|discriminate].
      apply IH in H. exact H.
    + rewrite bind_run in H.
      destruct (fst _) as [[|]|e] in H; [ | |discriminate].
      * rewrite !bind_run in H.
        destruct (fst (get_league_users _ _ _)) as [us|e] in H; [|discriminate].
        cbn [ret fst snd leagues_processed] in H.
        destruct (_ <=? _) in H; [inversion H; reflexivity|].
        destruct (_ <=? _) in H; [inversion H; reflexivity|].
        apply IH in H. exact H.
      * rewrite bind_run in H. cbn [ret fst snd leagues_processed] in H.
        destruct (_ <=? _) in H; [inversion H; reflexivity|].
        destruct (_ <=? _) in H; [inversion H; reflexivity|].
        apply IH in H. exact H.
Qed.

(** An iteration on an already visited node. *)
Lemma loop_body_visited v w uid rest :
  fst (shuffle rnd cfg (user_q v) w) = Return (uid :: rest) ->
  uid ∈ seen_user_ids v ->
  loop_body srv rnd cfg v w
  = (Return (set_user_q rest v), snd (shuffle rnd cfg (user_q v) w)).
Proof.
  intros Hq Hin. unfold loop_body.
  rewrite (bind_return _ _ _ _ Hq).
  rewrite bool_decide_eq_true_2 by assumption. reflexivity.
Qed.

(** An iteration on a new node: what it returns, if it returns. *)
Lemma loop_body_new v w uid rest v' w' :
  fst (shuffle rnd cfg (user_q v) w) = Return (uid :: rest) ->
  uid ∉ seen_user_ids v ->
  loop_body srv rnd cfg v w = (Return v', w') ->
  seen_user_ids v' = seen_user_ids v ∪ {[ uid ]}.
Proof.
  intros Hq Hin H. unfold loop_body in H.
  rewrite (bind_return _ _ _ _ Hq) in H.
  rewrite bool_decide_eq_false_2 in H by assumption.
  rewrite bind_run in H.
  destruct (fst _) as [lgs|e] in H; [|discriminate].
  rewrite bind_run in H.
  destruct (fst (leagues_loop _ _ _ _ _ _)) as [v2|e] eqn:E2 in H; [|discriminate].
  match type of E2 with fst (?m ?w0) = _ =>
    assert (E2' : m w0 = (Return v2, snd (m w0))) by (rewrite <- E2; apply surjective_pairing)
  end.
  apply leagues_loop_seen in E2'. cbn in E2'.
  rewrite bind_run in H.
  destruct (fst _) as [[]|e] in H; [|discriminate].
  inversion H; subst. exact E2'.
Qed.

(** One iteration either raises, or consumes a queue entry without
    visiting, or visits exactly one new node. *)
Lemma loop_body_progress v w :
  user_q v <> [] ->
  (exists e, fst (loop_body srv rnd cfg v w) = Raise e)
  \/ (exists v', fst (loop_body srv rnd cfg v w) = Return v'
        /\ ((seen_user_ids v' = seen_user_ids v
             /\ (length (user_q v') < length (user_q v))%nat)
            \/ (exists uid, (uid ∉ seen_user_ids v)
                  /\ seen_user_ids v' = seen_user_ids v ∪ {[ uid ]}))).
Proof.
  intros Hne.
  destruct (shuffle_run (user_q v) w) as (q' & w1 & Es & _ & _ & _ & _ & Hlen & _).
  destruct q' as [|uid rest].
  { destruct (user_q v); [congruence | discriminate]. }
  assert (Hq : fst (shuffle rnd cfg (user_q v) w) = Return (uid :: rest)) by (rewrite Es; reflexivity).
  destruct (decide (uid ∈ seen_user_ids v)) as [Hin|Hnin].
  - right. rewrite (loop_body_visited v w uid rest Hq Hin).
    eexists. split; [reflexivity|]. left. cbn in *. split; [reflexivity | lia].
  - destruct (loop_body srv rnd cfg v w) as [[v'|e] w'] eqn:E.
    + right. exists v'. split; [reflexivity|]. right. exists uid. split; [assumption|].
      exact (loop_body_new v w uid rest v' w' Hq Hnin E).
    + left. exists e. reflexivity.
Qed.

(** *** Termination of the loop *)

Lemma walk_stopped fuel v w :
  loop_guard cfg v = false -> walk srv rnd cfg fuel v w = (Return (Some v), w).
Proof. intros H. destruct fuel; cbn [walk]; rewrite H; reflexivity. Qed.

Lemma walk_step fuel v w :
  loop_guard cfg v = true ->
  walk srv rnd cfg (S fuel) v w
  = (let* v' := loop_body srv rnd cfg v in walk srv rnd cfg fuel v') w.
Proof. intros H. cbn [walk]. rewrite H. reflexivity. Qed.

(** The loop ends: by the lexicographic measure (visits left below the
    ceiling, queue length) some number of iterations suffices. *)
Lemma walk_terminates v w :
  exists fuel, fst (walk srv rnd cfg fuel v w) <> Return None.
Proof.
  remember (Z.to_nat (max_users_to_visit cfg - Z.of_nat (size (seen_user_ids v)))) as a eqn:Ha.
  assert (Hle : (Z.to_nat (max_users_to_visit cfg - Z.of_nat (size (seen_user_ids v))) <= a)%nat)
    by lia.
  clear Ha. revert v w Hle.
  induction a as [|a IHa]; intros v w Hle.
  - exists O. rewrite walk_stopped; [discriminate|].
    apply loop_guard_false. right. right. lia.
  - remember (length (user_q v)) as b eqn:Hb.
    assert (Hlen : (length (user_q v) <= b)%nat) by lia.
    clear Hb. revert v w Hle Hlen.
    induction b as [|b IHb]; intros v w Hle Hlen.
    + exists O. rewrite walk_stopped; [discriminate|].
      apply loop_guard_false. left. destruct (user_q v); [reflexivity | cbn in Hlen; lia].
    + destruct (loop_guard cfg v) eqn:Hg.
      2:{ exists O. rewrite walk_stopped by assumption. discriminate. }
      assert (Hne : user_q v <> []).
      { intros Hq. assert (loop_guard cfg v = false); [|congruence].
        apply loop_guard_false. left. exact Hq. }
      destruct (loop_body_progress v w Hne) as [[e He]|(v' & Hv' & Hcase)].
      * exists 1%nat. rewrite walk_step by assumption.
        rewrite (bind_raise _ _ _ _ He). discriminate.
      * destruct Hcase as [[Hseen Hq]|(uid & Hnin & Hseen)].
        -- destruct (IHb v' (snd (loop_body srv rnd cfg v w))) as [fuel Hf].
           ++ rewrite Hseen. exact Hle.
           ++ lia.
           ++ exists (S fuel). rewrite walk_step by assumption.
              rewrite (bind_return _ _ _ _ Hv'). exact Hf.
        -- destruct (IHa v' (snd (loop_body srv rnd cfg v w))) as [fuel Hf].
           ++ rewrite Hseen, size_union, size_singleton by set_solver.
              unfold loop_guard in Hg. apply andb_true_iff in Hg as [_ Hg].
              apply Z.ltb_lt in Hg. lia.
           ++ exists (S fuel). rewrite walk_step by assumption.
              rewrite (bind_return _ _ _ _ Hv'). exact Hf.
Qed.

(** More fuel does not change an outcome already reached. *)
Lemma walk_fuel_mono fuel k v w :
  fst (walk srv rnd cfg fuel v w) <> Return None ->
  walk srv rnd cfg (fuel + k) v w = walk srv rnd cfg fuel v w.
Proof.
  revert v w. induction fuel as [|fuel IH]; intros v w H.
  - destruct (loop_guard cfg v) eqn:Hg.
    + cbn [walk] in H. rewrite Hg in H. cbn in H. congruence.
    + rewrite !walk_stopped by assumption. reflexivity.
  - destruct (loop_guard cfg v) eqn:Hg.
    + cbn [Nat.add]. rewrite !walk_step in * by assumption.
      rewrite !bind_run in *.
      destruct (fst (loop_body srv rnd cfg v w)); [apply IH; exact H | reflexivity].
    + rewrite !walk_stopped by assumption. reflexivity.
Qed.

(** At a normal exit a stop condition holds, and the visited set has
    only grown. *)
Lemma walk_exit fuel v w v' w' :
  walk srv rnd cfg fuel v w = (Return (Some v'), w') ->
  stop_condition cfg v' /\ seen_user_ids v ⊆ seen_user_ids v'.
Proof.
  revert v w. induction fuel as [|fuel IH]; intros v w H.
  - cbn [walk] in H. destruct (loop_guard cfg v) eqn:Hg; [discriminate|].
    inversion H; subst. split; [apply loop_guard_false; assumption | reflexivity].
  - destruct (loop_guard cfg v) eqn:Hg.
    + rewrite walk_step in H by assumption. rewrite bind_run in H.
      destruct (fst (loop_body srv rnd cfg v w)) as [v1|e] eqn:E1; [|discriminate].
      destruct (IH _ _ H) as [Hstop Hsub]. split; [exact Hstop|].
      assert (Hne : user_q v <> []).
      { intros Hq. assert (loop_guard cfg v = false); [|congruence].
        apply loop_guard_false. left. exact Hq. }
      destruct (loop_body_progress v w Hne) as [[e He]|(v2 & Hv2 & Hcase)]; [congruence|].
      assert (v2 = v1) as -> by congruence.
      destruct Hcase as [[Hseen _]|(uid & _ & Hseen)]; rewrite Hseen in Hsub.
      * exact Hsub.
      * transitivity (seen_user_ids v ∪ {[ uid ]}); [apply union_subseteq_l | exact Hsub].
    + rewrite walk_stopped in H by assumption. inversion H; subst.
      split; [apply loop_guard_false; assumption | reflexivity].
Qed.

End WalkerFacts.

(** ** Resuming from a checkpoint *)

Section Resume.

Variable srv : remote.

Lemma get_user_outcome u w1 w2 :
  calls w1 = calls w2 ->
  fst (get_user srv u w1) = fst (get_user srv u w2).
Proof.
  apply (lookup_outcome srv (e := EUser u)). intros st w w'.
  destruct (st =? 404); reflexivity.
Qed.

(** The id a user lookup contributes to the frontier, if any. *)
Lemma resolve_seeds_cons username rest q w :
  resolve_seeds srv (username :: rest) q w
  = match fst (get_user srv username w) with
    | Raise e => (Raise e, after [EUser username] w)
    | Return (Some (User (Some uid))) =>
        resolve_seeds srv rest (if str_truthy uid then q ++ [uid] else q)
          (after [EUser username] w)
    | Return _ => resolve_seeds srv rest q (after [EUser username] w)
    end.
Proof.
  cbn [resolve_seeds]. rewrite bind_run, get_user_world.
  destruct (fst (get_user srv username w)) as [[[[uid|]]|]|e]; try reflexivity.
  destruct (str_truthy uid); reflexivity.
Qed.

Lemma resolve_seeds_returns seeds q w q' w' :
  resolve_seeds srv seeds q w = (Return q', w') ->
  w' = after (EUser <$> seeds) w
  /\ forall uid, uid ∈ q' <->
       uid ∈ q
       \/ exists i username,
            seeds !! i = Some username
            /\ str_truthy uid = true
            /\ fst (get_user srv username (after (EUser <$> take i seeds) w))
               = Return (Some (User (Some uid))).
Proof.
  revert q w. induction seeds as [|u rest IH]; intros q w H.
  - inversion H; subst. split.
    + unfold after, set_calls. cbn. rewrite app_nil_r. destruct w'; reflexivity.
    + intros uid. split; [tauto|]. intros [Hq|(i & username & Hi & _)]; [exact Hq|].
      rewrite lookup_nil in Hi. discriminate.
  - rewrite resolve_seeds_cons in H.
    assert (Hstep : forall q1,
              resolve_seeds srv rest q1 (after [EUser u] w) = (Return q', w') ->
              w' = after (EUser <$> u :: rest) w
              /\ forall uid, uid ∈ q' <->
                   uid ∈ q1
                   \/ exists i username,
                        rest !! i = Some username
                        /\ str_truthy uid = true
                        /\ fst (get_user srv username
                                  (after (EUser <$> take (S i) (u :: rest)) w))
                           = Return (Some (User (Some uid)))).
    { intros q1 H1. destruct (IH _ _ H1) as [Hw Hq]. split.
      - rewrite Hw, after_after. reflexivity.
      - intros uid. rewrite (Hq uid). apply or_iff_compat_l.
        split; intros (i & username & Hi & Ht & Hg); exists i, username;
          (split; [exact Hi|]; split; [exact Ht|]);
          rewrite <- Hg; apply get_user_outcome; cbn; rewrite <- !app_assoc; reflexivity. }
    destruct (fst (get_user srv u w)) as [[[[uid0|]]|]|e] eqn:Hu; [ | | |discriminate].
    + (* the lookup answers a user id *)
      destruct (Hstep _ H) as [Hw Hq]. split; [exact Hw|].
      intros uid. rewrite (Hq uid). split.
      * intros [Hin|(i & username & Hi & Ht & Hg)].
        -- destruct (str_truthy uid0) eqn:Ht0.
           ++ apply elem_of_app in Hin as [Hin|Hin]; [left; exact Hin|].
              apply list_elem_of_singleton in Hin as ->.
              right. exists O, u. repeat split; [exact Ht0|]. cbn.
              rewrite <- Hu. apply get_user_outcome. cbn. rewrite app_nil_r. reflexivity.
           ++ left. exact Hin.
        -- right. exists (S i), username. repeat split; assumption.
      * intros [Hin|(i & username & Hi & Ht & Hg)].
        -- left. destruct (str_truthy uid0); [apply elem_of_app; left|]; exact Hin.
        -- destruct i as [|i].
           ++ cbn in Hi. inversion Hi; subst username.
              assert (Hsame : fst (get_user srv u (after (EUser <$> take 0 (u :: rest)) w))
                              = fst (get_user srv u w))
                by (apply get_user_outcome; cbn; rewrite app_nil_r; reflexivity).
              rewrite Hsame, Hu in Hg. inversion Hg; subst uid0.
              rewrite Ht. left. apply elem_of_app. right. apply list_elem_of_singleton.
              reflexivity.
           ++ right. exists i, username. repeat split; assumption.
    + destruct (Hstep _ H) as [Hw Hq]. split; [exact Hw|].
      intros uid. rewrite (Hq uid). apply or_iff_compat_l. split.
      * intros (i & username & Hi & Ht & Hg). exists (S i), username. repeat split; assumption.
      * intros (i & username & Hi & Ht & Hg). destruct i as [|i].
        -- cbn in Hi. inversion Hi; subst username.
           assert (Hsame : fst (get_user srv u (after (EUser <$> take 0 (u :: rest)) w))
                           = fst (get_user srv u w))
             by (apply get_user_outcome; cbn; rewrite app_nil_r; reflexivity).
           rewrite Hsame, Hu in Hg. discriminate.
        -- exists i, username. repeat split; assumption.
    + destruct (Hstep _ H) as [Hw Hq]. split; [exact Hw|].
      intros uid. rewrite (Hq uid). apply or_iff_compat_l. split.
      * intros (i & username & Hi & Ht & Hg). exists (S i), username. repeat split; assumption.
      * intros (i & username & Hi & Ht & Hg). destruct i as [|i].
        -- cbn in Hi. inversion Hi; subst username.
           assert (Hsame : fst (get_user srv u (after (EUser <$> take 0 (u :: rest)) w))
                           = fst (get_user srv u w))
             by (apply get_user_outcome; cbn; rewrite app_nil_r; reflexivity).
           rewrite Hsame, Hu in Hg. discriminate.
        -- exists i, username. repeat split; assumption.
Qed.

(** An aborted resolution has looked up a non-empty prefix of the seeds. *)
Lemma resolve_seeds_raises seeds q w e w' :
  resolve_seeds srv seeds q w = (Raise e, w') ->
  exists k, (0 < k <= length seeds)%nat /\ w' = after (EUser <$> take k seeds) w.
Proof.
  revert q w. induction seeds as [|u rest IH]; intros q w H.
  - discriminate.
  - rewrite resolve_seeds_cons in H.
    assert (Hstep : forall q1,
              resolve_seeds srv rest q1 (after [EUser u] w) = (Raise e, w') ->
              exists k, (0 < k <= length (u :: rest))%nat
                        /\ w' = after (EUser <$> take k (u :: rest)) w).
    { intros q1 H1. destruct (IH _ _ H1) as (k & Hk & Hw).
      exists (S k). split; [cbn; lia|]. rewrite Hw, after_after. reflexivity. }
    destruct (fst (get_user srv u w)) as [[[[uid0|]]|]|e0]; eauto.
    inversion H; subst. exists 1%nat. split; [cbn; lia|]. reflexivity.
Qed.

End Resume.

Section ResumeContract.

Variable srv : remote.
Variable rnd : nat -> nat.
Variable cfg : crawl_config.

Lemma crawl_init_resumed seeds w :
  user_queue_json (loaded w) <> [] ->
  crawl_init srv seeds w = (Return (walker_of_state (loaded w)), w).
Proof.
  intros Hq. unfold crawl_init, load_crawl_state, gets, bind. fold (loaded w).
  destruct (user_queue_json (loaded w)) eqn:E; [congruence|].
  unfold walker_of_state. rewrite E. reflexivity.
Qed.

Lemma crawl_init_fresh seeds w :
  user_queue_json (loaded w) = [] ->
  crawl_init srv seeds w
  = (let* q := resolve_seeds srv seeds [] in
     ret (Walker (list_to_set (seen_user_ids_json (loaded w))) q ∅ 0)) w.
Proof.
  intros Hq. unfold crawl_init, load_crawl_state, gets. unfold bind at 1. fold (loaded w).
  rewrite Hq. reflexivity.
Qed.


End ResumeContract.


(** ** Visited nodes and the loop's exit *)

Section Loop.

Variable srv : remote.
Variable rnd : nat -> nat.
Variable cfg : crawl_config.

Lemma loop_body_returns_grows v w v' w' :
  loop_body srv rnd cfg v w = (Return v', w') ->
  seen_user_ids v ⊆ seen_user_ids v'.
Proof.
  intros H.
  destruct (shuffle_run rnd cfg (user_q v) w) as (q' & w1 & Es & _).
  assert (Hq : fst (shuffle rnd cfg (user_q v) w) = Return q') by (rewrite Es; reflexivity).
  destruct q' as [|uid rest].
  { unfold loop_body in H. rewrite (bind_return _ _ _ _ Hq) in H. discriminate. }
  destruct (decide (uid ∈ seen_user_ids v)) as [Hin|Hnin].
  - rewrite (loop_body_visited srv rnd cfg v w uid rest Hq Hin) in H.
    inversion H; subst. reflexivity.
  - rewrite (loop_body_new srv rnd cfg v w uid rest v' w' Hq Hnin H).
    apply union_subseteq_l.
Qed.

(** C8: an iteration that dequeues an already visited node returns the
    walker with the visited set, the seen leagues and the counter as they
    were and the queue shortened by that node; it issues no request,
    writes nothing to the store or to the checkpoint, and enqueues
    nothing.  Every iteration, and so every run of the loop, leaves the
    visited set a superset of what it was. *)
Theorem visited_node_is_noop :
  (forall v w uid rest,
     fst (shuffle rnd cfg (user_q v) w) = Return (uid :: rest) ->
     uid ∈ seen_user_ids v ->
     exists w',
       loop_body srv rnd cfg v w
       = (Return (Walker (seen_user_ids v) rest (seen_leagues v) (leagues_processed v)), w')
       /\ calls w' = calls w /\ db w' = db w /\ commits w' = commits w
       /\ state_file w' = state_file w
       /\ S (length rest) = length (user_q v)
       /\ (forall x, x ∈ rest -> x ∈ user_q v))
  /\ (forall v w v' w',
        loop_body srv rnd cfg v w = (Return v', w') ->
        seen_user_ids v ⊆ seen_user_ids v'
        /\ (size (seen_user_ids v) <= size (seen_user_ids v'))%nat)
  /\ (forall fuel v w v' w',
        walk srv rnd cfg fuel v w = (Return (Some v'), w') ->
        seen_user_ids v ⊆ seen_user_ids v').
Proof.
  split; [|split].
  - intros v w uid rest Hq Hin.
    destruct (shuffle_run rnd cfg (user_q v) w)
      as (q' & w1 & Es & Hc & Hd & Hk & Hf & Hlen & Hmem).
    rewrite Es in Hq. cbn in Hq. inversion Hq; subst q'.
    exists w1. split.
    + rewrite (loop_body_visited srv rnd cfg v w uid rest); [|rewrite Es; reflexivity|exact Hin].
      rewrite Es. reflexivity.
    + repeat split; try assumption.
      intros x Hx. apply Hmem. apply elem_of_cons. right. exact Hx.
  - intros v w v' w' H. pose proof (loop_body_returns_grows v w v' w' H) as Hsub.
    split; [exact Hsub | apply subseteq_size; exact Hsub].
  - intros fuel v w v' w' H. exact (proj2 (walk_exit srv rnd cfg fuel v w v' w' H)).
Qed.

(** C9: with a stop condition in force the loop returns at once, without
    running its body, and otherwise it runs the body once more; every run
    ends (some number of iterations suffices, and allowing more changes
    nothing); and when the function returns, the
    walker's variables satisfy a stop condition and the checkpoint file
    holds exactly the visited set and the frontier of that moment, the
    returned count being the number of leagues processed. *)
Theorem loop_exit_and_final_save :
  (forall fuel v w,
     stop_condition cfg v -> walk srv rnd cfg fuel v w = (Return (Some v), w))
  /\ (forall fuel v w,
        ~ stop_condition cfg v ->
        walk srv rnd cfg (S fuel) v w
        = (let* v' := loop_body srv rnd cfg v in walk srv rnd cfg fuel v') w)
  /\ (forall seeds w, exists fuel,
        fst (crawl_and_store_leagues srv rnd cfg fuel seeds w) <> Return None
        /\ forall k,
             crawl_and_store_leagues srv rnd cfg (fuel + k) seeds w
             = crawl_and_store_leagues srv rnd cfg fuel seeds w)
  /\ (forall fuel seeds w v w',
        crawl_run srv rnd cfg fuel seeds w = (Return (Some v), w') ->
        stop_condition cfg v
        /\ state_file w' = Some (CrawlState (elements (seen_user_ids v)) (user_q v))
        /\ crawl_and_store_leagues srv rnd cfg fuel seeds w
           = (Return (Some (leagues_processed v)), w')).
Proof.
  split; [|split; [|split]].
  - intros fuel v w Hs. apply walk_stopped. apply loop_guard_false. exact Hs.
  - intros fuel v w Hs. apply walk_step.
    destruct (loop_guard cfg v) eqn:Hg; [reflexivity|].
    exfalso. apply Hs. apply loop_guard_false. exact Hg.
  - intros seeds w.
    destruct (crawl_init srv seeds w) as [[v0|e] w0] eqn:E0.
    + destruct (walk_terminates srv rnd cfg v0 w0) as [fuel Hf]. exists fuel.
      split.
      * unfold crawl_and_store_leagues, crawl_run.
        rewrite !bind_run, E0. cbn [fst snd]. rewrite !bind_run.
        destruct (walk srv rnd cfg fuel v0 w0) as [[[v|]|e] w1]; cbn in *; congruence.
      * intros k. unfold crawl_and_store_leagues, crawl_run.
        rewrite !bind_run, E0. cbn [fst snd]. rewrite !bind_run.
        rewrite (walk_fuel_mono srv rnd cfg fuel k v0 w0 Hf). reflexivity.
    + exists O. unfold crawl_and_store_leagues, crawl_run.
      split; [|intros k]; rewrite !bind_run, E0; cbn; [discriminate | reflexivity].
  - intros fuel seeds w v w' H.
    assert (H' := H). unfold crawl_run in H. rewrite bind_run in H.
    destruct (crawl_init srv seeds w) as [[v0|e] w0] eqn:E0; [|discriminate].
    cbn [fst snd] in H. rewrite bind_run in H.
    destruct (walk srv rnd cfg fuel v0 w0) as [[[v1|]|e] w1] eqn:E1; try discriminate.
    cbn in H. inversion H; subst.
    split; [exact (proj1 (walk_exit srv rnd cfg fuel v0 w0 v w1 E1))|].
    split; [reflexivity|].
    unfold crawl_and_store_leagues. rewrite bind_run, H'. reflexivity.
Qed.

End Loop.

Lemma visited_node_is_noop_witness :
  exists w',
    loop_body demo_srv demo_rnd demo_cfg resumed_walker resumed_world
    = (Return (Walker {[ "u1" ]} ["u2"] ∅ 0), w')
    /\ calls w' = calls resumed_world.
Proof.
  destruct (proj1 (visited_node_is_noop demo_srv demo_rnd demo_cfg)
              resumed_walker resumed_world "u1" ["u2"]
              ltac:(vm_compute; reflexivity) ltac:(vm_compute; set_solver))
    as (w' & H & Hc & _).
  exists w'. split; assumption.
Defined.

Lemma loop_exit_and_final_save_witness :
  walk demo_srv demo_rnd demo_cfg 0 (Walker {[ "u1" ]} [] ∅ 0) demo_world
  = (Return (Some (Walker {[ "u1" ]} [] ∅ 0)), demo_world).
Proof.
  apply (proj1 (loop_exit_and_final_save demo_srv demo_rnd demo_cfg)).
  left. reflexivity.
Defined.

(** * Further properties of the code *)

(** ** [process_league]: rejections, failures and what is left behind *)

Section ProcessLeagueEdges.

Variable srv : remote.
Variable lid : string.
Variable season : Z.

Lemma process_league_rejects_early w :
  fst (get_league srv lid w) = Return None
  \/ (exists lg, fst (get_league srv lid w) = Return (Some lg)
                 /\ (league_truthy lg = false \/ not_started lg = true)) ->
  process_league srv lid season w = (Return false, after [ELeague lid] w).
Proof.
  intros [Hl|(lg & Hl & Hcase)]; unfold process_league;
    rewrite (bind_return _ _ _ _ Hl), get_league_world; [reflexivity|].
  destruct (league_truthy lg) eqn:Ht; [|reflexivity]. cbn [negb].
  destruct Hcase as [Hf|Hs]; [discriminate|].
  unfold not_started in Hs. rewrite Hs. reflexivity.
Qed.

(** X1: a league whose detail is absent (a 404, or a null or empty
    object), or whose status is [pre_draft] or [drafting], is rejected
    after the single league request: no further request is issued and the
    store, the commit count and the checkpoint are as before. *)
Theorem process_league_early_rejection w :
  fst (get_league srv lid w) = Return None
  \/ (exists lg, fst (get_league srv lid w) = Return (Some lg)
                 /\ (league_truthy lg = false \/ not_started lg = true)) ->
  process_league srv lid season w = (Return false, after [ELeague lid] w).
Proof. exact (process_league_rejects_early w). Qed.

(** X2: a league that passes the filters but whose roster list comes back
    empty (or fails with an HTTP error other than 429) is reported as a
    failure, yet its row has been committed: [league_exists] is true
    afterwards, exactly one commit was made and the bracket is never
    requested.  That is so when the league's counts fit SQLite's INTEGER;
    when they do not, the upsert raises [OverflowError]: nothing is
    committed and the rosters are not requested. *)
Theorem process_league_no_rosters w lg :
  fst (get_league srv lid w) = Return (Some lg) ->
  league_truthy lg = true ->
  not_started lg = false ->
  fst (fraction_too_high (filter_playoff_teams lg) (filter_total_rosters lg) w) = Return false ->
  fst (get_league_rosters srv lid (after [ELeague lid] w)) = Return [] ->
  let r := process_league srv lid season w in
  (league_storable lg = true ->
     r = (Return false,
          with_league lid season lg (after [ELeague lid; ELeagueRosters lid] w))
     /\ fst (league_exists lid (snd r)) = Return true
     /\ commits (snd r) = S (commits w)
     /\ rosters (db (snd r)) = rosters (db w)
     /\ roster_players (db (snd r)) = roster_players (db w))
  /\ (league_storable lg = false ->
     r = (Raise overflow_error, after [ELeague lid] w)).
Proof.
  intros Hl Ht Hs Hf Hr. cbv zeta. split; intros Hst.
  - assert (E : process_league srv lid season w
                = (Return false,
                   with_league lid season lg (after [ELeague lid; ELeagueRosters lid] w))).
    { rewrite (process_league_past_filter srv lid season w lg Hl Ht Hs Hf Hst).
      unfold process_league_rosters.
      set (w1 := with_league lid season lg (after [ELeague lid] w)).
      rewrite (get_league_rosters_outcome srv lid _ w1) in Hr by reflexivity.
      rewrite (bind_return _ _ _ _ Hr), get_league_rosters_world.
      unfold w1, with_league, after, commit_db, set_calls. cbn.
      rewrite <- !app_assoc. reflexivity. }
    rewrite E. cbn. repeat split.
    rewrite bool_decide_eq_true_2; [reflexivity|].
    rewrite lookup_insert_eq. eexists. reflexivity.
  - exact (process_league_overflow srv lid season w lg Hl Ht Hs Hf Hst).
Qed.

(** X3: a fatal 429 on the roster request, or on the bracket request,
    escapes [process_league] after the league row has been committed:
    the row stays, and no roster or membership row has been written.
    That is so when the league's counts fit SQLite's INTEGER; when they
    do not, [OverflowError] escapes from the upsert before the roster
    request, with nothing committed. *)
Theorem process_league_fatal_midway w lg :
  fst (get_league srv lid w) = Return (Some lg) ->
  league_truthy lg = true ->
  not_started lg = false ->
  fst (fraction_too_high (filter_playoff_teams lg) (filter_total_rosters lg) w) = Return false ->
  (league_storable lg = true ->
     (status_code (srv (calls w ++ [ELeague lid]) (ELeagueRosters lid)) = 429 ->
        process_league srv lid season w
        = (Raise RuntimeError,
           with_league lid season lg (after [ELeague lid; ELeagueRosters lid] w)))
     /\ (forall rs,
           fst (get_league_rosters srv lid (after [ELeague lid] w)) = Return rs ->
           rs <> [] ->
           status_code (srv (calls w ++ [ELeague lid; ELeagueRosters lid])
                            (EWinnersBracket lid)) = 429 ->
           process_league srv lid season w
           = (Raise RuntimeError,
              with_league lid season lg
                (after [ELeague lid; ELeagueRosters lid; EWinnersBracket lid] w))))
  /\ (league_storable lg = false ->
     process_league srv lid season w = (Raise overflow_error, after [ELeague lid] w)).
Proof.
  intros Hl Ht Hs Hf. split; intros Hst;
    [|exact (process_league_overflow srv lid season w lg Hl Ht Hs Hf Hst)].
  rewrite (process_league_past_filter srv lid season w lg Hl Ht Hs Hf Hst).
  unfold process_league_rosters.
  set (w1 := with_league lid season lg (after [ELeague lid] w)).
  split.
  - intros H429.
    assert (Hr : get_league_rosters srv lid w1
                 = (Raise RuntimeError, after [ELeagueRosters lid] w1)).
    { unfold get_league_rosters, except_HTTPError.
      rewrite _get_rate_limited by exact H429. reflexivity. }
    unfold bind. rewrite Hr.
    unfold w1, with_league, after, commit_db, set_calls. cbn.
    rewrite <- !app_assoc. reflexivity.
  - intros rs Hr Hne H429.
    rewrite (get_league_rosters_outcome srv lid _ w1) in Hr by reflexivity.
    rewrite (bind_return _ _ _ _ Hr), get_league_rosters_world.
    destruct rs as [|r rs']; [congruence|].
    assert (Hb : get_winners_bracket srv lid (after [ELeagueRosters lid] w1)
                 = (Raise RuntimeError,
                    after [EWinnersBracket lid] (after [ELeagueRosters lid] w1))).
    { unfold get_winners_bracket, except_HTTPError.
      rewrite _get_rate_limited; [reflexivity|].
      cbn. rewrite <- !app_assoc. exact H429. }
    unfold bind at 1. rewrite Hb.
    unfold w1, with_league, after, commit_db, set_calls. cbn.
    rewrite <- !app_assoc. reflexivity.
Qed.

End ProcessLeagueEdges.

Lemma process_league_early_rejection_witness :
  process_league edge_srv "Lnull" 2025 demo_world
    = (Return false, after [ELeague "Lnull"] demo_world)
  /\ process_league edge_srv "Lpre" 2025 demo_world
     = (Return false, after [ELeague "Lpre"] demo_world).
Proof.
  split.
  - apply process_league_early_rejection. left. vm_compute. reflexivity.
  - apply process_league_early_rejection. right. eexists.
    split; [vm_compute; reflexivity|]. right. reflexivity.
Defined.

Lemma process_league_no_rosters_witness :
  fst (league_exists "Lempty" (snd (process_league edge_srv "Lempty" 2025 demo_world)))
  = Return true
  /\ process_league edge_srv "Lhugeempty" 2025 demo_world
     = (Raise overflow_error, after [ELeague "Lhugeempty"] demo_world).
Proof.
  split.
  - apply (proj1 (process_league_no_rosters edge_srv "Lempty" 2025 demo_world
                    (demo_league (Some 10) (Some 4))
                    ltac:(vm_compute; reflexivity) ltac:(reflexivity) ltac:(reflexivity)
                    ltac:(vm_compute; reflexivity) ltac:(vm_compute; reflexivity))).
    reflexivity.
  - apply (proj2 (process_league_no_rosters edge_srv "Lhugeempty" 2025 demo_world
                    (demo_league (Some (2 ^ 64)) (Some 4))
                    ltac:(vm_compute; reflexivity) ltac:(reflexivity) ltac:(reflexivity)
                    ltac:(vm_compute; reflexivity) ltac:(vm_compute; reflexivity))).
    reflexivity.
Defined.

Lemma process_league_fatal_midway_witness :
  process_league edge_srv "Lrost429" 2025 demo_world
    = (Raise RuntimeError,
       with_league "Lrost429" 2025 (demo_league (Some 10) (Some 4))
         (after [ELeague "Lrost429"; ELeagueRosters "Lrost429"] demo_world))
  /\ process_league edge_srv "Lbr429" 2025 demo_world
     = (Raise RuntimeError,
        with_league "Lbr429" 2025 (demo_league (Some 10) (Some 4))
          (after [ELeague "Lbr429"; ELeagueRosters "Lbr429"; EWinnersBracket "Lbr429"]
             demo_world)).
Proof.
  split.
  - apply (proj1 (proj1 (process_league_fatal_midway edge_srv "Lrost429" 2025 demo_world
                    (demo_league (Some 10) (Some 4))
                    ltac:(vm_compute; reflexivity) ltac:(reflexivity) ltac:(reflexivity)
                    ltac:(vm_compute; reflexivity)) eq_refl)).
    reflexivity.
  - apply (proj2 (proj1 (process_league_fatal_midway edge_srv "Lbr429" 2025 demo_world
                    (demo_league (Some 10) (Some 4))
                    ltac:(vm_compute; reflexivity) ltac:(reflexivity) ltac:(reflexivity)
                    ltac:(vm_compute; reflexivity)) eq_refl) demo_rosters).
    + vm_compute. reflexivity.
    + discriminate.
    + reflexivity.
Defined.

(** ** Relations kept across monadic code *)

Section Keeps.

Variable R : world -> world -> Prop.
Hypothesis R_refl : forall w, R w w.
Hypothesis R_trans : forall w1 w2 w3, R w1 w2 -> R w2 w3 -> R w1 w3.

Lemma keeps_ret {A} (a : A) : keeps R (ret a).
Proof. intros w. apply R_refl. Qed.

Lemma keeps_raise {A} (e : exn) : keeps R (@raise A e).
Proof. intros w. apply R_refl. Qed.

Lemma keeps_gets {A} (f : world -> A) : keeps R (gets f).
Proof. intros w. apply R_refl. Qed.

Lemma keeps_bind {A B} (m : M A) (k : A -> M B) :
  keeps R m -> (forall a, keeps R (k a)) -> keeps R (bind m k).
Proof.
  intros Hm Hk w. rewrite bind_run.
  destruct (fst (m w)); [|apply Hm].
  eapply R_trans; [apply Hm | apply Hk].
Qed.

Lemma keeps_for_each {A} (xs : list A) (body : A -> M unit) :
  (forall x, keeps R (body x)) -> keeps R (for_each xs body).
Proof.
  intros Hb. induction xs as [|x xs IH]; cbn [for_each].
  - apply keeps_ret.
  - apply keeps_bind; [apply Hb | intros _; exact IH].
Qed.

Lemma keeps_if {A} (b : bool) (m1 m2 : M A) :
  keeps R m1 -> keeps R m2 -> keeps R (if b then m1 else m2).
Proof. destruct b; auto. Qed.

(** A relation that ignores all but the request log is kept by the
    client as soon as it holds for one more request. *)
Lemma keeps_lookups srv :
  (forall w e, R w (after [e] w)) ->
  (forall u, keeps R (get_user srv u))
  /\ (forall u s, keeps R (get_user_leagues srv u s))
  /\ (forall l, keeps R (get_league srv l))
  /\ (forall l, keeps R (get_league_users srv l))
  /\ (forall l, keeps R (get_league_rosters srv l))
  /\ (forall l, keeps R (get_winners_bracket srv l)).
Proof.
  intros H. repeat split; intros; intros w;
    rewrite ?get_user_world, ?get_user_leagues_world, ?get_league_world,
      ?get_league_users_world, ?get_league_rosters_world, ?get_winners_bracket_world;
    apply H.
Qed.

End Keeps.

Lemma extends_refl w : extends w w.
Proof. unfold extends. repeat split; try reflexivity. Qed.

Lemma extends_trans w1 w2 w3 : extends w1 w2 -> extends w2 w3 -> extends w1 w3.
Proof.
  intros (A1 & B1 & C1 & D1 & E1) (A2 & B2 & C2 & D2 & E2). unfold extends.
  repeat split; try (etransitivity; eassumption).
Qed.

Lemma extends_after w es : extends w (after es w).
Proof.
  unfold extends, after. cbn. repeat split; try reflexivity.
  apply prefix_app_r. reflexivity.
Qed.

Lemma same_elsewhere_refl lid w : same_elsewhere lid w w.
Proof. intros l Hl. split; [reflexivity|]. split; [reflexivity|]. reflexivity. Qed.

Lemma same_elsewhere_trans lid w1 w2 w3 :
  same_elsewhere lid w1 w2 -> same_elsewhere lid w2 w3 -> same_elsewhere lid w1 w3.
Proof.
  intros H1 H2 l Hl. destruct (H1 l Hl) as (A1 & B1 & C1).
  destruct (H2 l Hl) as (A2 & B2 & C2). split; [congruence|]. split.
  - intros r0. rewrite B2. apply B1.
  - intros r0 p0. rewrite C2. apply C1.
Qed.

Lemma same_elsewhere_after lid w es : same_elsewhere lid w (after es w).
Proof. intros l Hl. split; [reflexivity|]. split; [reflexivity|]. reflexivity. Qed.

(** ** What [process_league] may touch *)

Lemma keeps_fraction_too_high R p t :
  (forall w, R w w) -> keeps R (fraction_too_high p t).
Proof. intros HR w. rewrite fraction_too_high_world. apply HR. Qed.

Lemma insert_league_extends lid s nm tot pl st :
  keeps extends (insert_league lid s nm tot pl st).
Proof.
  intros w. unfold insert_league.
  destruct (sqlite_param tot && sqlite_param pl); [|apply extends_refl].
  unfold extends. cbn. repeat split; try reflexivity; try lia.
  rewrite dom_insert_L. apply union_subseteq_r.
Qed.

Lemma insert_roster_extends lid rid o mp : keeps extends (insert_roster lid rid o mp).
Proof.
  intros w. unfold insert_roster. destruct (sqlite_int rid); [|apply extends_refl].
  unfold extends. cbn. repeat split; try reflexivity; try lia.
  rewrite dom_insert_L. apply union_subseteq_r.
Qed.

Lemma insert_roster_players_extends lid rid ps :
  keeps extends (insert_roster_players lid rid ps).
Proof.
  intros w. unfold insert_roster_players.
  destruct (sqlite_int rid || bool_decide (ps = [])); [|apply extends_refl].
  unfold extends. cbn. repeat split; try reflexivity; try lia.
  apply union_subseteq_l.
Qed.

Lemma insert_league_elsewhere lid s nm tot pl st :
  keeps (same_elsewhere lid) (insert_league lid s nm tot pl st).
Proof.
  intros w. unfold insert_league.
  destruct (sqlite_param tot && sqlite_param pl); [|apply same_elsewhere_refl].
  intros l Hl. cbn. split; [|split; reflexivity].
  apply lookup_insert_ne. congruence.
Qed.

Lemma insert_roster_elsewhere lid rid o mp :
  keeps (same_elsewhere lid) (insert_roster lid rid o mp).
Proof.
  intros w. unfold insert_roster. destruct (sqlite_int rid); [|apply same_elsewhere_refl].
  intros l Hl. cbn. split; [reflexivity|]. split; [|reflexivity].
  intros r0. apply lookup_insert_ne. congruence.
Qed.

Lemma insert_roster_players_elsewhere lid rid ps :
  keeps (same_elsewhere lid) (insert_roster_players lid rid ps).
Proof.
  intros w. unfold insert_roster_players.
  destruct (sqlite_int rid || bool_decide (ps = [])); [|apply same_elsewhere_refl].
  intros l Hl. cbn. split; [reflexivity|]. split; [reflexivity|].
  intros r0 p0. rewrite elem_of_union, elem_of_list_to_set, list_elem_of_fmap.
  split; [|tauto]. intros [H|(pid & Heq & _)]; [exact H|]. congruence.
Qed.

Section ProcessLeagueKeeps.

Variable srv : remote.
Variable R : world -> world -> Prop.
Hypothesis R_refl : forall w, R w w.
Hypothesis R_trans : forall w1 w2 w3, R w1 w2 -> R w2 w3 -> R w1 w3.
Hypothesis R_after : forall w e, R w (after [e] w).

Lemma keeps_store_roster lid ids r :
  (forall rid o mp, keeps R (insert_roster lid rid o mp)) ->
  (forall rid ps, keeps R (insert_roster_players lid rid ps)) ->
  keeps R (store_roster lid ids r).
Proof.
  intros H1 H2. unfold store_roster. destruct (roster_id r).
  - apply (keeps_bind R R_trans); auto.
  - apply (keeps_ret R R_refl).
Qed.

(** [process_league] keeps every relation that the client and its three
    kinds of write keep. *)
Lemma keeps_process_league lid season :
  (forall s nm tot pl st, keeps R (insert_league lid s nm tot pl st)) ->
  (forall rid o mp, keeps R (insert_roster lid rid o mp)) ->
  (forall rid ps, keeps R (insert_roster_players lid rid ps)) ->
  keeps R (process_league srv lid season).
Proof.
  intros H1 H2 H3.
  destruct (keeps_lookups R srv R_after) as (_ & _ & Hgl & _ & Hgr & Hgb).
  unfold process_league.
  apply (keeps_bind R R_trans); [apply Hgl |].
  intros [lg|]; [|apply (keeps_ret R R_refl)].
  apply keeps_if; [apply (keeps_ret R R_refl)|].
  apply keeps_if; [apply (keeps_ret R R_refl)|].
  apply (keeps_bind R R_trans); [apply keeps_fraction_too_high; assumption |].
  intros too_high. apply keeps_if; [apply (keeps_ret R R_refl)|].
  apply (keeps_bind R R_trans); [apply H1 |]. intros _.
  apply (keeps_bind R R_trans); [apply Hgr |].
  intros [|r rs]; [apply (keeps_ret R R_refl)|].
  apply (keeps_bind R R_trans); [apply Hgb |]. intros br.
  apply (keeps_bind R R_trans); [| intros _; apply (keeps_ret R R_refl)].
  apply (keeps_for_each R R_refl R_trans).
  intros x. apply keeps_store_roster; assumption.
Qed.

End ProcessLeagueKeeps.

(** X4: whatever its outcome, [process_league] changes no row of any
    other league: the league rows, roster rows and membership rows whose
    league id differs from the one processed are exactly as before. *)
Theorem process_league_writes_own_league srv lid season w :
  same_elsewhere lid w (snd (process_league srv lid season w)).
Proof.
  apply (keeps_process_league srv (same_elsewhere lid)).
  - apply same_elsewhere_refl.
  - apply same_elsewhere_trans.
  - intros w0 e. apply same_elsewhere_after.
  - apply insert_league_elsewhere.
  - apply insert_roster_elsewhere.
  - apply insert_roster_players_elsewhere.
Qed.

Lemma process_league_extends srv lid season : keeps extends (process_league srv lid season).
Proof.
  apply (keeps_process_league srv extends).
  - apply extends_refl.
  - apply extends_trans.
  - intros w0 e. apply extends_after.
  - apply insert_league_extends.
  - apply insert_roster_extends.
  - apply insert_roster_players_extends.
Qed.

Lemma process_league_rosters_calls srv lid w :
  exists n, (1 <= n <= 2)%nat
    /\ calls (snd (process_league_rosters srv lid w))
       = calls w ++ take n [ELeagueRosters lid; EWinnersBracket lid].
Proof.
  unfold process_league_rosters. rewrite bind_run, get_league_rosters_world.
  destruct (fst (get_league_rosters srv lid w)) as [[|r rs]|e];
    try (exists 1%nat; split; [lia | reflexivity]).
  rewrite bind_run, get_winners_bracket_world.
  exists 2%nat. split; [lia|].
  destruct (fst (get_winners_bracket srv lid _)) as [br|e].
  - pose proof (store_rosters_world lid (extract_playoff_roster_ids br) (r :: rs)
                  (after [EWinnersBracket lid] (after [ELeagueRosters lid] w)))
      as (C & _).
    cbv zeta in C. rewrite bind_run.
    destruct (fst (for_each (r :: rs) _ _)) as [[]|e]; cbn [snd ret];
      rewrite C; cbn; rewrite <- app_assoc; reflexivity.
  - cbn. rewrite <- app_assoc. reflexivity.
Qed.

Lemma process_league_footprint srv lid season w :
  exists n, (1 <= n <= 3)%nat
    /\ calls (snd (process_league srv lid season w))
       = calls w ++ take n (league_requests lid)
    /\ state_file (snd (process_league srv lid season w)) = state_file w
    /\ rand_draws (snd (process_league srv lid season w)) = rand_draws w.
Proof.
  assert (One : forall b : result bool,
            exists n, (1 <= n <= 3)%nat
              /\ calls (snd (b, after [ELeague lid] w)) = calls w ++ take n (league_requests lid)
              /\ state_file (snd (b, after [ELeague lid] w)) = state_file w
              /\ rand_draws (snd (b, after [ELeague lid] w)) = rand_draws w).
  { intros b. exists 1%nat. repeat split; lia. }
  destruct (fst (get_league srv lid w)) as [[lg|]|e] eqn:Hl.
  2:{ rewrite process_league_rejects_early by (left; exact Hl). apply One. }
  2:{ unfold process_league. rewrite (bind_raise _ _ _ _ Hl), get_league_world. apply One. }
  destruct (league_truthy lg) eqn:Ht.
  2:{ rewrite process_league_rejects_early by (right; eauto). apply One. }
  destruct (not_started lg) eqn:Hs.
  { rewrite process_league_rejects_early by (right; eauto). apply One. }
  destruct (fst (fraction_too_high (filter_playoff_teams lg) (filter_total_rosters lg) w))
    as [[|]|e] eqn:Hf.
  - rewrite (process_league_rejected srv lid season w lg Hl Ht Hs Hf). apply One.
  - destruct (league_storable lg) eqn:Hst.
    2:{ rewrite (process_league_overflow srv lid season w lg Hl Ht Hs Hf Hst). apply One. }
    rewrite (process_league_past_filter srv lid season w lg Hl Ht Hs Hf Hst).
    set (w1 := with_league lid season lg (after [ELeague lid] w)).
    destruct (process_league_rosters_calls srv lid w1) as (n & Hn & Hc).
    destruct (process_league_rosters_world srv lid w1) as (_ & _ & Hsf & Hrd).
    exists (S n). split; [lia|]. rewrite Hc, Hsf, Hrd. cbn.
    rewrite <- app_assoc. repeat split.
  - rewrite (process_league_to_filter srv lid season w lg Hl Ht Hs).
    rewrite (fraction_too_high_outcome _ _ _ (after [ELeague lid] w)) in Hf.
    rewrite (bind_raise _ _ _ _ Hf), fraction_too_high_world. apply One.
Qed.

(** X5: whatever happens, [process_league] issues between one and three
    requests, always a prefix of: league detail, rosters, winners
    bracket, for the league it was given.  It never asks for the league's
    users and never touches the checkpoint file or the random generator. *)
Theorem process_league_requests srv lid season w :
  exists n, (1 <= n <= 3)%nat
    /\ calls (snd (process_league srv lid season w))
       = calls w ++ take n (league_requests lid)
    /\ state_file (snd (process_league srv lid season w)) = state_file w
    /\ rand_draws (snd (process_league srv lid season w)) = rand_draws w.
Proof. exact (process_league_footprint srv lid season w). Qed.

(** ** The qualifier set and the tri-state flag *)

Lemma add_slot_elem_of slot acc (rid : Z) :
  rid ∈ add_slot slot acc <-> rid ∈ acc \/ slot = Some rid.
Proof.
  unfold add_slot. destruct slot as [r|].
  - rewrite elem_of_union, elem_of_singleton. split; intros [H|H]; auto.
    + right. congruence.
    + right. congruence.
  - split; [auto|]. intros [H|H]; [exact H | discriminate].
Qed.

Lemma extract_fold_elem_of br acc (rid : Z) :
  rid ∈ foldl (fun roster_ids m => add_slot (t2 m) (add_slot (t1 m) roster_ids)) acc br
  <-> rid ∈ acc \/ in_bracket rid br.
Proof.
  revert acc. induction br as [|m br IH]; intros acc; cbn [foldl].
  - split; [auto|]. intros [H|(m & Hm & _)]; [exact H | inversion Hm].
  - rewrite IH, !add_slot_elem_of. unfold in_bracket. split.
    + intros [[[H|H]|H]|(m' & Hm' & H)]; auto.
      * right. exists m. split; [apply elem_of_cons; auto | auto].
      * right. exists m. split; [apply elem_of_cons; auto | auto].
      * right. exists m'. split; [apply elem_of_cons; auto | auto].
    + intros [H|(m' & Hm' & H)]; [auto|].
      apply elem_of_cons in Hm' as [->|Hm'].
      * destruct H; auto.
      * right. exists m'. auto.
Qed.

Lemma extract_elem_of (bracket : list matchup) (rid : Z) :
  rid ∈ extract_playoff_roster_ids bracket <-> in_bracket rid bracket.
Proof.
  unfold extract_playoff_roster_ids. destruct bracket as [|m br].
  - split; [intros H; inversion H|]. intros (m & Hm & _). inversion Hm.
  - rewrite extract_fold_elem_of. split; [|auto].
    intros [H|H]; [inversion H | exact H].
Qed.

(** X6: a roster id is in the qualifier set exactly when it occupies the
    [t1] or the [t2] slot of some matchup of the bracket; null and
    missing slots contribute nothing. *)
Theorem extract_playoff_roster_ids_spec (bracket : list matchup) (rid : Z) :
  rid ∈ extract_playoff_roster_ids bracket <-> in_bracket rid bracket.
Proof. exact (extract_elem_of bracket rid). Qed.

Lemma extract_empty_iff bracket :
  extract_playoff_roster_ids bracket = ∅
  <-> Forall (fun m => t1 m = None /\ t2 m = None) bracket.
Proof.
  rewrite Forall_forall. split.
  - intros He m Hm.
    assert (Hno : forall rid, ~ in_bracket rid bracket).
    { intros rid Hin. apply extract_elem_of in Hin.
      rewrite He in Hin. inversion Hin. }
    split.
    + destruct (t1 m) as [r|] eqn:E; [|reflexivity].
      exfalso. apply (Hno r). exists m. auto.
    + destruct (t2 m) as [r|] eqn:E; [|reflexivity].
      exfalso. apply (Hno r). exists m. auto.
  - intros Hall. apply set_eq. intros rid. rewrite extract_elem_of.
    split; [|intros H; inversion H].
    intros (m & Hm & [H|H]); destruct (Hall m Hm) as [H1 H2]; congruence.
Qed.

(** ** The store after a successful [process_league] *)

Section StoredTables.

Variable lid : string.
Variable ids : gset Z.

Lemma store_rosters_db rs w :
  rosters_storable rs = true ->
  db (snd (for_each rs (store_roster lid ids) w))
  = Database (leagues (db w)) (foldl (row_step lid ids) (rosters (db w)) rs)
             (foldl (member_step lid) (roster_players (db w)) rs).
Proof.
  revert w. induction rs as [|r rs IH]; intros w Hs.
  - cbn. destruct (db w); reflexivity.
  - cbn in Hs. apply andb_true_iff in Hs as [Hr Hs].
    cbn [for_each foldl]. rewrite bind_run.
    destruct (store_roster_run lid ids r w Hr) as (w1 & E1 & _).
    assert (Hdb : db w1 = Database (leagues (db w)) (row_step lid ids (rosters (db w)) r)
                                   (member_step lid (roster_players (db w)) r)).
    { unfold roster_storable in Hr. unfold row_step, member_step.
      destruct (roster_id r) as [rid|] eqn:Hid.
      - cbn in Hr. rewrite (store_roster_eq lid ids r rid w Hid Hr) in E1.
        inversion E1. reflexivity.
      - unfold store_roster in E1. rewrite Hid in E1. inversion E1; subst w1.
        destruct (db w); reflexivity. }
    rewrite E1. cbn [fst snd]. rewrite (IH _ Hs), Hdb. reflexivity.
Qed.

Lemma fold_rows_union (rs : list roster) (a m : gmap (string * Z) roster_row) :
  foldl (row_step lid ids) (a ∪ m) rs = foldl (row_step lid ids) a rs ∪ m.
Proof.
  revert a. induction rs as [|r rs IH]; intros a; cbn [foldl]; [reflexivity|].
  rewrite <- IH. f_equal. unfold row_step.
  destruct (roster_id r); [|reflexivity]. apply insert_union_l.
Qed.

Lemma fold_members_union (rs : list roster) (a s : gset (string * Z * string)) :
  foldl (member_step lid) (s ∪ a) rs = s ∪ foldl (member_step lid) a rs.
Proof.
  revert a. induction rs as [|r rs IH]; intros a; cbn [foldl]; [reflexivity|].
  rewrite <- IH. f_equal. unfold member_step.
  destruct (roster_id r); [|reflexivity]. symmetry. apply (assoc_L (∪)).
Qed.

(** The loop of [process_league] as one update of the tables. *)
Lemma store_rosters_tables rs w :
  rosters_storable rs = true ->
  db (snd (for_each rs (store_roster lid ids) w))
  = Database (leagues (db w)) (roster_rows lid ids rs ∪ rosters (db w))
             (roster_players (db w) ∪ roster_members lid rs).
Proof.
  intros Hs. rewrite (store_rosters_db rs w Hs). f_equal.
  - rewrite <- (left_id_L ∅ (∪) (rosters (db w))) at 1. apply fold_rows_union.
  - rewrite <- (right_id_L ∅ (∪) (roster_players (db w))) at 1. apply fold_members_union.
Qed.

Lemma roster_members_elem_of (rs : list roster) l rid p :
  (l, rid, p) ∈ roster_members lid rs
  <-> l = lid /\ exists r, r ∈ rs /\ roster_id r = Some rid /\ p ∈ default [] (players r).
Proof.
  unfold roster_members.
  assert (G : forall a,
            (l, rid, p) ∈ foldl (member_step lid) a rs
            <-> (l, rid, p) ∈ a
                \/ (l = lid /\ exists r, r ∈ rs /\ roster_id r = Some rid
                                         /\ p ∈ default [] (players r))).
  { induction rs as [|r0 rs' IH]; intros a; cbn [foldl].
    - split; [auto|]. intros [H|(_ & r & Hr & _)]; [exact H | inversion Hr].
    - rewrite IH. unfold member_step at 1. split.
      + intros [H|(Hl & r & Hr & Hid & Hp)].
        * destruct (roster_id r0) as [rid0|] eqn:E0; [|auto].
          apply elem_of_union in H as [H|H]; [auto|].
          apply elem_of_list_to_set, list_elem_of_fmap in H as (pid & Heq & Hpid).
          inversion Heq; subst. right. split; [reflexivity|].
          exists r0. split; [apply elem_of_cons; auto|]. auto.
        * right. split; [exact Hl|]. exists r. split; [apply elem_of_cons; auto|]. auto.
      + intros [H|(Hl & r & Hr & Hid & Hp)].
        * left. destruct (roster_id r0); [apply elem_of_union; auto | exact H].
        * apply elem_of_cons in Hr as [->|Hr].
          -- left. rewrite Hid. apply elem_of_union. right.
             apply elem_of_list_to_set, list_elem_of_fmap. exists p. subst l. auto.
          -- right. split; [exact Hl|]. exists r. auto. }
  rewrite G. split; [|auto]. intros [H|H]; [inversion H | exact H].
Qed.

End StoredTables.

Lemma roster_rows_lookup_None lid ids (rs : list roster) l rid :
  (l = lid -> forall r, r ∈ rs -> roster_id r <> Some rid) ->
  roster_rows lid ids rs !! (l, rid) = None.
Proof.
  unfold roster_rows.
  assert (G : forall a : gmap (string * Z) roster_row,
            a !! (l, rid) = None ->
            (l = lid -> forall r, r ∈ rs -> roster_id r <> Some rid) ->
            foldl (row_step lid ids) a rs !! (l, rid) = None).
  { induction rs as [|r0 rs' IH]; intros a Ha Hno; cbn [foldl]; [exact Ha|].
    apply IH; [|intros Hl r Hr; apply (Hno Hl); apply elem_of_cons; auto].
    unfold row_step. destruct (roster_id r0) as [rid0|] eqn:E0; [|exact Ha].
    rewrite lookup_insert_ne; [exact Ha|].
    intros Heq. inversion Heq; subst.
    apply (Hno eq_refl r0); [apply elem_of_cons; auto | exact E0]. }
  intros Hno. apply G; [apply lookup_empty | exact Hno].
Qed.

(** Rosters with other ids leave the row of [rid] alone. *)
Lemma fold_rows_untouched (lid : string) (ids : gset Z) (rs : list roster)
    (a : gmap (string * Z) roster_row) (rid : Z) :
  (forall r, r ∈ rs -> roster_id r <> Some rid) ->
  foldl (row_step lid ids) a rs !! (lid, rid) = a !! (lid, rid).
Proof.
  revert a. induction rs as [|r0 rs IH]; intros a Hno; cbn [foldl]; [reflexivity|].
  rewrite IH by (intros r Hr; apply Hno; apply elem_of_cons; auto).
  unfold row_step. destruct (roster_id r0) as [rid0|] eqn:E; [|reflexivity].
  apply lookup_insert_ne. intros Heq. inversion Heq; subst.
  apply (Hno r0); [apply elem_of_cons; auto | exact E].
Qed.

(** The row of a roster id is that of the last fetched roster carrying
    it: [INSERT OR REPLACE] overwrites the earlier ones. *)
Lemma roster_rows_last (lid : string) (ids : gset Z) (l1 l2 : list roster) r rid :
  roster_id r = Some rid ->
  (forall r', r' ∈ l2 -> roster_id r' <> Some rid) ->
  roster_rows lid ids (l1 ++ r :: l2) !! (lid, rid)
  = Some (RosterRow (owner_id r) (made_playoffs_int (made_playoffs_of rid ids))).
Proof.
  intros Hid Hno. unfold roster_rows. rewrite foldl_app. cbn [foldl].
  rewrite fold_rows_untouched by exact Hno.
  unfold row_step. rewrite Hid. apply lookup_insert_eq.
Qed.

(** The store a successful [process_league] leaves, as one update. *)
Lemma process_league_db srv lid season w lg rs br :
  fst (get_league srv lid w) = Return (Some lg) ->
  league_truthy lg = true ->
  not_started lg = false ->
  fst (fraction_too_high (filter_playoff_teams lg) (filter_total_rosters lg) w) = Return false ->
  fst (get_league_rosters srv lid (after [ELeague lid] w)) = Return rs ->
  rs <> [] ->
  fst (get_winners_bracket srv lid (after [ELeague lid; ELeagueRosters lid] w)) = Return br ->
  league_storable lg = true ->
  rosters_storable rs = true ->
  db (snd (process_league srv lid season w))
  = Database (<[lid := league_row_of season lg]> (leagues (db w)))
             (roster_rows lid (extract_playoff_roster_ids br) rs ∪ rosters (db w))
             (roster_players (db w) ∪ roster_members lid rs).
Proof.
  intros Hl Ht Hs Hf Hr Hne Hb Hsl Hsr.
  rewrite (process_league_stored srv lid season w lg rs br Hl Ht Hs Hf Hr Hne Hb Hsl Hsr).
  cbn [snd]. rewrite (store_rosters_tables _ _ _ _ Hsr). reflexivity.
Qed.

(** X7: the tri-state flag in general.  In a processed league every
    fetched roster with an id is recorded with NULL when no matchup of the
    bracket has a team in either slot (an empty bracket, or one whose
    slots are all null), with 1 when its id occupies a slot, and with 0
    otherwise. *)
Theorem made_playoffs_law srv lid season w rs br r rid :
  fst (process_league srv lid season w) = Return true ->
  fst (get_league_rosters srv lid (after [ELeague lid] w)) = Return rs ->
  fst (get_winners_bracket srv lid (after [ELeague lid; ELeagueRosters lid] w)) = Return br ->
  r ∈ rs -> roster_id r = Some rid ->
  exists row,
    rosters (db (snd (process_league srv lid season w))) !! (lid, rid) = Some row
    /\ (Forall (fun m => t1 m = None /\ t2 m = None) br -> row_made_playoffs row = None)
    /\ (in_bracket rid br -> row_made_playoffs row = Some 1)
    /\ (~ Forall (fun m => t1 m = None /\ t2 m = None) br -> ~ in_bracket rid br ->
        row_made_playoffs row = Some 0).
Proof.
  intros Hok Hr Hb Hin Hid.
  destruct (process_league_flags srv lid season w rs br r rid Hok Hr Hb Hin Hid)
    as (row & Hrow & Hflag).
  exists row. split; [exact Hrow|]. rewrite Hflag. unfold made_playoffs_of.
  split; [|split].
  - intros Hall. apply extract_empty_iff in Hall.
    rewrite bool_decide_eq_true_2 by exact Hall. reflexivity.
  - intros Hslot. apply extract_elem_of in Hslot.
    rewrite bool_decide_eq_false_2
      by (intros He; rewrite He in Hslot; inversion Hslot).
    rewrite bool_decide_eq_true_2 by exact Hslot. reflexivity.
  - intros Hsome Hnot.
    rewrite bool_decide_eq_false_2 by (intros He; apply Hsome, extract_empty_iff, He).
    rewrite bool_decide_eq_false_2
      by (intros Hx; apply Hnot, extract_elem_of, Hx).
    reflexivity.
Qed.

Lemma made_playoffs_law_witness :
  exists row,
    rosters (db (snd (process_league edge_srv "Lnullslots" 2025 demo_world)))
      !! ("Lnullslots", 3) = Some row
    /\ row_made_playoffs row = None.
Proof.
  destruct (made_playoffs_law edge_srv "Lnullslots" 2025 demo_world demo_rosters
              [Matchup None None] (Roster (Some 3) (Some "u1") (Some ["p1"; "p2"])) 3
              ltac:(vm_compute; reflexivity) ltac:(vm_compute; reflexivity)
              ltac:(vm_compute; reflexivity)
              ltac:(unfold demo_rosters; apply elem_of_cons; left; reflexivity)
              ltac:(reflexivity))
    as (row & Hrow & Hnull & _).
  exists row. split; [exact Hrow|]. apply Hnull.
  constructor; [split; reflexivity | constructor].
Defined.

(** X8: a processed league is stored as fetched.  After a successful
    [process_league] the league row is the one built from the detail;
    every roster id that was fetched has its row, and when several
    fetched rosters carry the same id the row is that of the last of
    them, owner and all (the earlier ones are overwritten); the
    membership table is the old one plus one row per player of every
    fetched roster with an id, the overwritten ones included; and roster
    rows of this league whose id was not fetched stay as they were. *)
Theorem process_league_stores_as_fetched srv lid season w lg rs br :
  fst (process_league srv lid season w) = Return true ->
  fst (get_league srv lid w) = Return (Some lg) ->
  fst (get_league_rosters srv lid (after [ELeague lid] w)) = Return rs ->
  fst (get_winners_bracket srv lid (after [ELeague lid; ELeagueRosters lid] w)) = Return br ->
  let d' := db (snd (process_league srv lid season w)) in
  leagues d' !! lid = Some (league_row_of season lg)
  /\ (forall l1 r l2 rid,
        rs = l1 ++ r :: l2 -> roster_id r = Some rid ->
        (forall r', r' ∈ l2 -> roster_id r' <> Some rid) ->
        rosters d' !! (lid, rid)
        = Some (RosterRow (owner_id r)
                  (made_playoffs_int (made_playoffs_of rid (extract_playoff_roster_ids br)))))
  /\ (forall rid,
        (forall r, r ∈ rs -> roster_id r <> Some rid) ->
        rosters d' !! (lid, rid) = rosters (db w) !! (lid, rid))
  /\ (forall l rid p,
        (l, rid, p) ∈ roster_players d'
        <-> (l, rid, p) ∈ roster_players (db w)
            \/ (l = lid /\ exists r, r ∈ rs /\ roster_id r = Some rid
                                     /\ p ∈ default [] (players r))).
Proof.
  intros Hok Hl Hr Hb.
  destruct (process_league_success_inv srv lid season w Hok)
    as (lg' & rs' & br' & Hl' & Ht & Hs & Hf & Hr' & Hne & Hb' & Hsl & Hsr).
  assert (lg' = lg) as -> by congruence.
  assert (rs' = rs) as -> by congruence.
  assert (br' = br) as -> by congruence.
  cbv zeta. rewrite (process_league_db srv lid season w lg rs br Hl Ht Hs Hf Hr Hne Hb Hsl Hsr).
  cbn [leagues rosters roster_players]. split; [apply lookup_insert_eq|].
  split; [|split].
  - intros l1 r l2 rid -> Hid Hlast.
    apply lookup_union_Some_l. apply roster_rows_last; assumption.
  - intros rid Hno. apply lookup_union_r. apply roster_rows_lookup_None.
    intros _. exact Hno.
  - intros l rid p. rewrite elem_of_union, roster_members_elem_of. reflexivity.
Qed.

Lemma process_league_stores_as_fetched_witness :
  rosters (db (snd (process_league edge_srv "Ldup" 2025 demo_world))) !! ("Ldup", 3)
  = Some (RosterRow (Some "u2") (Some 1))
  /\ ("Ldup", 3, "p1")
       ∈ roster_players (db (snd (process_league edge_srv "Ldup" 2025 demo_world))).
Proof.
  destruct (process_league_stores_as_fetched edge_srv "Ldup" 2025 demo_world
              (demo_league (Some 10) (Some 4)) dup_rosters demo_bracket
              ltac:(vm_compute; reflexivity) ltac:(vm_compute; reflexivity)
              ltac:(vm_compute; reflexivity) ltac:(vm_compute; reflexivity))
    as (_ & Hrow & _ & Hmem).
  split.
  - rewrite (Hrow [Roster (Some 3) (Some "u1") (Some ["p1"])]
                  (Roster (Some 3) (Some "u2") None) [] 3 eq_refl eq_refl).
    + rewrite demo_bracket_ids. vm_compute. reflexivity.
    + intros r' Hr'. inversion Hr'.
  - apply Hmem. right. split; [reflexivity|].
    exists (Roster (Some 3) (Some "u1") (Some ["p1"])).
    split; [unfold dup_rosters; apply elem_of_cons; left; reflexivity|].
    split; [reflexivity|]. cbn. apply elem_of_cons. left. reflexivity.
Defined.

(** X9: processing a league a second time, with the remote answering as
    it did the first time, succeeds again and leaves the store exactly as
    the first run left it: no row is duplicated and no flag changes. *)
Theorem process_league_twice srv lid season w lg rs br :
  fst (process_league srv lid season w) = Return true ->
  fst (get_league srv lid w) = Return (Some lg) ->
  fst (get_league_rosters srv lid (after [ELeague lid] w)) = Return rs ->
  fst (get_winners_bracket srv lid (after [ELeague lid; ELeagueRosters lid] w)) = Return br ->
  let w1 := snd (process_league srv lid season w) in
  fst (get_league srv lid w1) = Return (Some lg) ->
  fst (get_league_rosters srv lid (after [ELeague lid] w1)) = Return rs ->
  fst (get_winners_bracket srv lid (after [ELeague lid; ELeagueRosters lid] w1)) = Return br ->
  fst (process_league srv lid season w1) = Return true
  /\ db (snd (process_league srv lid season w1)) = db w1.
Proof.
  intros Hok Hl Hr Hb w1 Hl1 Hr1 Hb1.
  destruct (process_league_success_inv srv lid season w Hok)
    as (lg' & rs' & br' & Hl' & Ht & Hs & Hf & Hr' & Hne & Hb' & Hsl & Hsr).
  assert (lg' = lg) as -> by congruence.
  assert (rs' = rs) as -> by congruence.
  assert (br' = br) as -> by congruence.
  assert (Hf1 : fst (fraction_too_high (filter_playoff_teams lg) (filter_total_rosters lg) w1)
                = Return false)
    by (rewrite <- Hf; apply fraction_too_high_outcome).
  split.
  - rewrite (process_league_stored srv lid season w1 lg rs br Hl1 Ht Hs Hf1 Hr1 Hne Hb1 Hsl Hsr).
    reflexivity.
  - rewrite (process_league_db srv lid season w1 lg rs br Hl1 Ht Hs Hf1 Hr1 Hne Hb1 Hsl Hsr).
    unfold w1. rewrite (process_league_db srv lid season w lg rs br Hl Ht Hs Hf Hr Hne Hb Hsl Hsr).
    cbn [leagues rosters roster_players]. f_equal.
    + apply insert_insert_eq.
    + rewrite (assoc_L (∪)), (idemp_L (∪)). reflexivity.
    + rewrite <- (assoc_L (∪)), (idemp_L (∪)). reflexivity.
Qed.

Lemma process_league_twice_witness :
  db (snd (process_league demo_srv "L8" 2025
             (snd (process_league demo_srv "L8" 2025 demo_world))))
  = db (snd (process_league demo_srv "L8" 2025 demo_world)).
Proof.
  apply (process_league_twice demo_srv "L8" 2025 demo_world
           (demo_league (Some 12) (Some 8)) demo_rosters demo_bracket
           ltac:(vm_compute; reflexivity) ltac:(vm_compute; reflexivity)
           ltac:(vm_compute; reflexivity) ltac:(vm_compute; reflexivity)
           ltac:(vm_compute; reflexivity) ltac:(vm_compute; reflexivity)
           ltac:(vm_compute; reflexivity)).
Defined.

(** ** The client: what C5 leaves open *)

Section ClientMore.

Variable srv : remote.

(** X10: on the two single-entity lookups an HTTP error other than 404
    (and other than 429) is not swallowed: [get_user] and [get_league]
    re-raise the [HTTPError] with its status. *)
Theorem single_lookup_reraises (w : world) :
  (forall u, let st := status_code (srv (calls w) (EUser u)) in
     http_error st = true -> st <> 429 -> st <> 404 ->
     get_user srv u w = (Raise (HTTPError st), after [EUser u] w))
  /\ (forall l, let st := status_code (srv (calls w) (ELeague l)) in
     http_error st = true -> st <> 429 -> st <> 404 ->
     get_league srv l w = (Raise (HTTPError st), after [ELeague l] w)).
Proof.
  split; intros x st Herr H429 H404;
    unfold get_user, get_league, except_HTTPError;
    rewrite _get_http_error by assumption; fold st;
    (destruct (Z.eqb_spec st 404) as [Heq|_]; [contradiction | reflexivity]).
Qed.

(** X11: on a status outside 400..599 every lookup returns the decoded
    body as it is; and whatever the status, a lookup issues exactly one
    request (no retry) and leaves the store, the commit count, the
    checkpoint and the random generator alone. *)
Theorem lookup_success_and_footprint (w : world) :
  (forall u, http_error (status_code (srv (calls w) (EUser u))) = false ->
     fst (get_user srv u w) = Return (json (srv (calls w) (EUser u))))
  /\ (forall u s, http_error (status_code (srv (calls w) (EUserLeagues u s))) = false ->
     fst (get_user_leagues srv u s w) = Return (json (srv (calls w) (EUserLeagues u s))))
  /\ (forall l, http_error (status_code (srv (calls w) (ELeague l))) = false ->
     fst (get_league srv l w) = Return (json (srv (calls w) (ELeague l))))
  /\ (forall l, http_error (status_code (srv (calls w) (ELeagueUsers l))) = false ->
     fst (get_league_users srv l w) = Return (json (srv (calls w) (ELeagueUsers l))))
  /\ (forall l, http_error (status_code (srv (calls w) (ELeagueRosters l))) = false ->
     fst (get_league_rosters srv l w) = Return (json (srv (calls w) (ELeagueRosters l))))
  /\ (forall l, http_error (status_code (srv (calls w) (EWinnersBracket l))) = false ->
     fst (get_winners_bracket srv l w)
     = Return (json (srv (calls w) (EWinnersBracket l))))
  /\ (forall u, snd (get_user srv u w) = after [EUser u] w)
  /\ (forall u s, snd (get_user_leagues srv u s w) = after [EUserLeagues u s] w)
  /\ (forall l, snd (get_league srv l w) = after [ELeague l] w)
  /\ (forall l, snd (get_league_users srv l w) = after [ELeagueUsers l] w)
  /\ (forall l, snd (get_league_rosters srv l w) = after [ELeagueRosters l] w)
  /\ (forall l, snd (get_winners_bracket srv l w) = after [EWinnersBracket l] w).
Proof.
  repeat split; intros;
    try (unfold get_user, get_user_leagues, get_league, get_league_users,
           get_league_rosters, get_winners_bracket, except_HTTPError;
         rewrite _get_ok by assumption; reflexivity).
  - apply get_user_world.
  - apply get_user_leagues_world.
  - apply get_league_world.
  - apply get_league_users_world.
  - apply get_league_rosters_world.
  - apply get_winners_bracket_world.
Qed.

End ClientMore.

Lemma single_lookup_reraises_witness :
  get_league demo_srv "broken" demo_world
  = (Raise (HTTPError 500), after [ELeague "broken"] demo_world).
Proof.
  apply (proj2 (single_lookup_reraises demo_srv demo_world) "broken");
    [reflexivity | vm_compute; discriminate | vm_compute; discriminate].
Defined.

Lemma lookup_success_and_footprint_witness :
  fst (get_league_rosters demo_srv "L8" demo_world) = Return demo_rosters.
Proof.
  apply (proj1 (proj2 (proj2 (proj2 (proj2 (lookup_success_and_footprint demo_srv demo_world)))))
           "L8").
  reflexivity.
Defined.

(** ** The frontier walker: what is enqueued and what is skipped *)

Lemma enqueue_users_filter (league_users : list user) (seen : gset string)
    (q : list string) :
  enqueue_users league_users seen q
  = q ++ filter (fun x => str_truthy x = true /\ x ∉ seen) (omap user_id league_users).
Proof.
  unfold enqueue_users. revert q.
  induction league_users as [|u us IH]; intros q; cbn [foldl].
  - cbn. rewrite app_nil_r. reflexivity.
  - rewrite IH. change (omap user_id (u :: us))
      with (match user_id u with Some x => x :: omap user_id us | None => omap user_id us end).
    destruct (user_id u) as [x|]; [|reflexivity].
    rewrite filter_cons. destruct (str_truthy x) eqn:Ht; cbn [andb negb].
    + destruct (decide (x ∈ seen)) as [Hin|Hnin].
      * rewrite bool_decide_eq_true_2 by exact Hin. cbn [negb].
        rewrite decide_False by (intros [_ H]; contradiction). reflexivity.
      * rewrite bool_decide_eq_false_2 by exact Hnin. cbn [negb].
        rewrite decide_True by (split; [reflexivity | exact Hnin]).
        rewrite <- app_assoc. reflexivity.
    + rewrite decide_False by (intros [H _]; discriminate). reflexivity.
Qed.

(** X12: [enqueue_users] appends to the queue, in order, the non-empty
    user ids of the given users that are not in the visited set, and
    nothing else; the entries already queued stay in place, ids that are
    already queued or that occur twice are appended all the same. *)
Theorem enqueue_users_spec (league_users : list user) (seen : gset string)
    (q : list string) :
  enqueue_users league_users seen q
  = q ++ filter (fun x => str_truthy x = true /\ x ∉ seen) (omap user_id league_users).
Proof. exact (enqueue_users_filter league_users seen q). Qed.

Section WalkerMore.

Variable srv : remote.
Variable rnd : nat -> nat.
Variable cfg : crawl_config.

(** X13: a league stub without an id, with an id already seen in this
    run, or of another sport than "nfl" is skipped without any effect: a
    list made of such stubs leaves the walker and the world as they
    were. *)
Theorem leagues_loop_skips (lgs : list league_stub) (v : walker) (n : Z) (w : world) :
  Forall (fun lg =>
            stub_league_id lg = None \/ stub_league_id lg = Some ""
            \/ default "" (stub_league_id lg) ∈ seen_leagues v
            \/ stub_sport lg <> Some "nfl") lgs ->
  leagues_loop srv cfg lgs v n w = (Return v, w).
Proof.
  induction 1 as [|lg lgs Hlg _ IH]; cbn [leagues_loop]; [reflexivity|].
  destruct Hlg as [Hid|[Hid|[Hseen|Hsport]]].
  - rewrite Hid. cbn. exact IH.
  - rewrite Hid. cbn. exact IH.
  - rewrite (bool_decide_eq_true_2 _ Hseen), orb_true_r. exact IH.
  - destruct (negb (str_truthy _) || _); [exact IH|].
    assert (Hn : opt_str_eqb (stub_sport lg) "nfl" = false).
    { unfold opt_str_eqb. destruct (stub_sport lg) as [s|]; [|reflexivity].
      destruct (String.eqb_spec s "nfl") as [->|]; [contradiction | reflexivity]. }
    rewrite Hn. cbn [negb]. exact IH.
Qed.

(** X14: in skip-existing mode a league that is already in the store is
    not processed again (no league, roster or bracket request, no write),
    but its users are still fetched and enqueued, and the league counts as
    seen for the rest of the run. *)
Theorem leagues_loop_existing_league (lg : league_stub) (rest : list league_stub)
    (lid : string) (v : walker) (n : Z) (w : world) :
  stub_league_id lg = Some lid -> lid <> "" ->
  lid ∉ seen_leagues v ->
  stub_sport lg = Some "nfl" ->
  skip_existing cfg = true ->
  is_Some (leagues (db w) !! lid) ->
  leagues_loop srv cfg (lg :: rest) v n w
  = match fst (get_league_users srv lid w) with
    | Return league_users =>
        leagues_loop srv cfg rest
          (Walker (seen_user_ids v)
                  (enqueue_users league_users (seen_user_ids v) (user_q v))
                  (seen_leagues v ∪ {[ lid ]}) (leagues_processed v))
          n (after [ELeagueUsers lid] w)
    | Raise e => (Raise e, after [ELeagueUsers lid] w)
    end.
Proof.
  intros Hid Hne Hseen Hsport Hskip Hdb. cbn [leagues_loop].
  rewrite Hid, Hsport, Hskip. cbn [default opt_str_eqb].
  assert (Ht : str_truthy lid = true).
  { unfold str_truthy. destruct (String.eqb_spec lid ""); [contradiction | reflexivity]. }
  unfold id. rewrite Ht, (bool_decide_eq_false_2 _ Hseen). cbn [negb orb].
  change (String.eqb "nfl" "nfl") with true. cbn [negb].
  rewrite bind_run. unfold league_exists at 1 2, gets. cbn [fst snd].
  rewrite bool_decide_eq_true_2 by exact Hdb.
  rewrite bind_run, get_league_users_world. reflexivity.
Qed.

End WalkerMore.

Lemma leagues_loop_skips_witness :
  leagues_loop edge_srv demo_cfg
    [LeagueStub (Some "N") (Some "nba"); LeagueStub None (Some "nfl");
     LeagueStub (Some "A") (Some "nfl")]
    (Walker ∅ [] {[ "A" ]} 0) 0 demo_world
  = (Return (Walker ∅ [] {[ "A" ]} 0), demo_world).
Proof.
  apply leagues_loop_skips.
  apply Forall_cons. split; [right; right; right; discriminate|].
  apply Forall_cons. split; [left; reflexivity|].
  apply Forall_cons. split; [|apply Forall_nil; exact I].
  right. right. left. cbn. apply elem_of_singleton. reflexivity.
Defined.

(** ** Relations kept by the walker *)

Section WalkerKeeps.

Variable srv : remote.
Variable rnd : nat -> nat.
Variable cfg : crawl_config.
Variable R : world -> world -> Prop.
Hypothesis R_refl : forall w, R w w.
Hypothesis R_trans : forall w1 w2 w3, R w1 w2 -> R w2 w3 -> R w1 w3.
(** The walker itself never asks for a league's detail, rosters or
    bracket, and it calls [process_league] only for a league that
    [league_exists] did not report when skip-existing is on. *)
Hypothesis R_after :
  forall w e, league_data_of e = None -> R w (after [e] w).
Hypothesis R_process :
  forall lid s w,
    (skip_existing cfg = true -> leagues (db w) !! lid = None) ->
    R w (snd (process_league srv lid s w)).

Lemma keeps_bind_at {A B} (m : M A) (k : A -> M B) w :
  R w (snd (m w)) ->
  (forall a, fst (m w) = Return a -> R (snd (m w)) (snd (k a (snd (m w))))) ->
  R w (snd (bind m k w)).
Proof.
  intros Hm Hk. rewrite bind_run.
  destruct (fst (m w)) as [a|e]; [|exact Hm].
  eapply R_trans; [exact Hm | apply Hk; reflexivity].
Qed.

Lemma keeps_get_league_users lid : keeps R (get_league_users srv lid).
Proof. intros w. rewrite get_league_users_world. apply R_after. reflexivity. Qed.

Lemma keeps_get_user_leagues u s : keeps R (get_user_leagues srv u s).
Proof. intros w. rewrite get_user_leagues_world. apply R_after. reflexivity. Qed.

Lemma keeps_get_user u : keeps R (get_user srv u).
Proof. intros w. rewrite get_user_world. apply R_after. reflexivity. Qed.

Lemma keeps_leagues_loop lgs v n : keeps R (leagues_loop srv cfg lgs v n).
Proof.
  revert v n. induction lgs as [|lg rest IH]; intros v n; cbn [leagues_loop].
  - apply (keeps_ret R R_refl).
  - apply keeps_if; [apply IH|]. apply keeps_if; [apply IH|].
    set (lid := default "" (stub_league_id lg)).
    intros w. apply keeps_bind_at.
    { destruct (skip_existing cfg); apply R_refl. }
    intros in_db Hin.
    assert (Hw : snd ((if skip_existing cfg then league_exists lid else ret false) w) = w)
      by (destruct (skip_existing cfg); reflexivity).
    rewrite Hw. destruct in_db.
    + apply (keeps_bind R R_trans); [apply keeps_get_league_users | intros us; apply IH].
    + apply keeps_bind_at.
      { apply R_process. intros Hskip. rewrite Hskip in Hin. cbn in Hin.
        inversion Hin as [Hb]. apply bool_decide_eq_false in Hb.
        apply eq_None_not_Some. exact Hb. }
      intros success _.
      apply (keeps_bind R R_trans).
      { apply keeps_if; [|apply (keeps_ret R R_refl)].
        apply (keeps_bind R R_trans);
          [apply keeps_get_league_users | intros us; apply (keeps_ret R R_refl)]. }
      intros vn. apply keeps_if; [apply (keeps_ret R R_refl)|].
      apply keeps_if; [apply (keeps_ret R R_refl) | apply IH].
Qed.

Hypothesis R_rand : forall w k, R w (set_rand_draws k w).
Hypothesis R_save : forall w f, R w (set_state_file f w).

Lemma keeps_shuffle q : keeps R (shuffle rnd cfg q).
Proof.
  unfold shuffle. apply keeps_if; [|apply (keeps_ret R R_refl)].
  apply (keeps_bind R R_trans); [|intros k; apply (keeps_ret R R_refl)].
  intros w. apply R_rand.
Qed.

Lemma keeps_save seen q : keeps R (save_crawl_state seen q).
Proof. intros w. apply R_save. Qed.

Lemma keeps_loop_body v : keeps R (loop_body srv rnd cfg v).
Proof.
  unfold loop_body. apply (keeps_bind R R_trans); [apply keeps_shuffle|].
  intros [|uid q']; [apply (keeps_raise R R_refl)|].
  apply keeps_if; [apply (keeps_ret R R_refl)|].
  apply (keeps_bind R R_trans); [apply keeps_get_user_leagues|]. intros lgs.
  apply (keeps_bind R R_trans); [apply keeps_leagues_loop|]. intros v2.
  apply (keeps_bind R R_trans); [|intros _; apply (keeps_ret R R_refl)].
  apply keeps_if; [apply keeps_save | apply (keeps_ret R R_refl)].
Qed.

Lemma keeps_walk fuel v : keeps R (walk srv rnd cfg fuel v).
Proof.
  revert v. induction fuel as [|fuel IH]; intros v; cbn [walk].
  - apply keeps_if; apply (keeps_ret R R_refl).
  - apply keeps_if; [|apply (keeps_ret R R_refl)].
    apply (keeps_bind R R_trans); [apply keeps_loop_body | intros v'; apply IH].
Qed.

Lemma keeps_resolve_seeds seeds q : keeps R (resolve_seeds srv seeds q).
Proof.
  revert q. induction seeds as [|u rest IH]; intros q; cbn [resolve_seeds].
  - apply (keeps_ret R R_refl).
  - apply (keeps_bind R R_trans); [apply keeps_get_user|].
    intros [[[uid|]]|]; try apply IH. apply keeps_if; apply IH.
Qed.

Lemma keeps_crawl fuel seeds : keeps R (crawl_and_store_leagues srv rnd cfg fuel seeds).
Proof.
  unfold crawl_and_store_leagues, crawl_run, crawl_init.
  apply (keeps_bind R R_trans); [|intros r; apply (keeps_ret R R_refl)].
  apply (keeps_bind R R_trans).
  { apply (keeps_bind R R_trans); [apply (keeps_gets R R_refl)|]. intros st.
    apply (keeps_bind R R_trans); [|intros q; apply (keeps_ret R R_refl)].
    destruct (user_queue_json st); [apply keeps_resolve_seeds | apply (keeps_ret R R_refl)]. }
  intros v0. apply (keeps_bind R R_trans); [apply keeps_walk|].
  intros [v|]; [|apply (keeps_ret R R_refl)].
  apply (keeps_bind R R_trans); [apply keeps_save | intros _; apply (keeps_ret R R_refl)].
Qed.

End WalkerKeeps.

(** X15: a crawl never deletes anything.  Whatever its outcome (a count,
    or an exception escaping it), the requests issued before it are a
    prefix of the log after it, every league row, roster row and
    membership row present before is still present, and the commit count
    has not gone back. *)
Theorem crawl_only_adds srv rnd cfg fuel seeds w :
  extends w (snd (crawl_and_store_leagues srv rnd cfg fuel seeds w)).
Proof.
  apply (keeps_crawl srv rnd cfg extends).
  - apply extends_refl.
  - apply extends_trans.
  - intros w0 e _. apply extends_after.
  - intros lid s w0 _. apply process_league_extends.
  - intros w0 k. unfold extends. cbn. repeat split; reflexivity.
  - intros w0 f. unfold extends. cbn. repeat split; reflexivity.
Qed.

(** ** Caps and ceilings *)

Section Caps.

Variable srv : remote.
Variable rnd : nat -> nat.
Variable cfg : crawl_config.

Lemma enqueue_users_prefix us seen q : q `prefix_of` enqueue_users us seen q.
Proof. rewrite enqueue_users_filter. apply prefix_app_r. reflexivity. Qed.

(** What the league loop does to the counter, the seen leagues and the
    queue. *)
Lemma leagues_loop_counts lgs v n w v' w' :
  leagues_loop srv cfg lgs v n w = (Return v', w') ->
  leagues_processed v <= leagues_processed v'
  /\ leagues_processed v' <= Z.max (leagues_processed v + 1) (target_leagues cfg)
  /\ leagues_processed v' - leagues_processed v <= Z.max 1 (max_leagues_per_user cfg - n)
  /\ seen_leagues v ⊆ seen_leagues v'
  /\ user_q v `prefix_of` user_q v'.
Proof.
  revert v n w. induction lgs as [|lg rest IH]; intros v n w H; cbn [leagues_loop] in H.
  - inversion H; subst. repeat split; try reflexivity; lia.
  - destruct (negb _ || _); [eauto|].
    destruct (negb (opt_str_eqb _ _)); [eauto|].
    rewrite bind_run in H.
    destruct (fst _) as [[|]|e] in H; [ | |discriminate].
    + rewrite bind_run in H.
      destruct (fst _) as [us|e] in H; [|discriminate].
      apply IH in H. cbn in H. destruct H as (H1 & H2 & H3 & H4 & H5).
      repeat split; try assumption.
      * etransitivity; [apply union_subseteq_l | exact H4].
      * etransitivity; [apply enqueue_users_prefix | exact H5].
    + rewrite bind_run in H.
      destruct (fst _) as [[|]|e] in H; [ | |discriminate].
      * rewrite !bind_run in H.
        destruct (fst (get_league_users _ _ _)) as [us|e] in H; [|discriminate].
        cbn [ret fst snd leagues_processed] in H.
        destruct (Z.leb_spec (target_leagues cfg) (leagues_processed v + 1)) as [Hc1|Hc1] in H.
        { inversion H; subst. cbn. repeat split; try lia;
            [apply union_subseteq_l | apply enqueue_users_prefix]. }
        destruct (Z.leb_spec (max_leagues_per_user cfg) (n + 1)) as [Hc2|Hc2] in H.
        { inversion H; subst. cbn. repeat split; try lia;
            [apply union_subseteq_l | apply enqueue_users_prefix]. }
        apply IH in H. cbn in H. destruct H as (H1 & H2 & H3 & H4 & H5).
        repeat split; try lia.
        -- etransitivity; [apply union_subseteq_l | exact H4].
        -- etransitivity; [apply enqueue_users_prefix | exact H5].
      * rewrite bind_run in H. cbn [ret fst snd leagues_processed] in H.
        destruct (Z.leb_spec (target_leagues cfg) (leagues_processed v)) as [Hc3|Hc3] in H.
        { inversion H; subst. cbn. repeat split; try lia;
            [apply union_subseteq_l | reflexivity]. }
        destruct (Z.leb_spec (max_leagues_per_user cfg) n) as [Hc4|Hc4] in H.
        { inversion H; subst. cbn. repeat split; try lia;
            [apply union_subseteq_l | reflexivity]. }
        apply IH in H. cbn in H. destruct H as (H1 & H2 & H3 & H4 & H5).
        repeat split; try lia; try assumption.
        etransitivity; [apply union_subseteq_l | exact H4].
Qed.

(** One iteration as a whole. *)
Lemma loop_body_counts v w v' w' :
  loop_body srv rnd cfg v w = (Return v', w') ->
  leagues_processed v <= leagues_processed v'
  /\ leagues_processed v' <= Z.max (leagues_processed v + 1) (target_leagues cfg)
  /\ leagues_processed v' - leagues_processed v <= Z.max 1 (max_leagues_per_user cfg)
  /\ (size (seen_user_ids v') <= S (size (seen_user_ids v)))%nat
  /\ seen_leagues v ⊆ seen_leagues v'.
Proof.
  intros H.
  destruct (shuffle_run rnd cfg (user_q v) w) as (q' & w1 & Es & _).
  assert (Hq : fst (shuffle rnd cfg (user_q v) w) = Return q') by (rewrite Es; reflexivity).
  destruct q' as [|uid rest].
  { unfold loop_body in H. rewrite (bind_return _ _ _ _ Hq) in H. discriminate. }
  destruct (decide (uid ∈ seen_user_ids v)) as [Hin|Hnin].
  - rewrite (loop_body_visited srv rnd cfg v w uid rest Hq Hin) in H.
    inversion H; subst. cbn. repeat split; try reflexivity; lia.
  - pose proof (loop_body_new srv rnd cfg v w uid rest v' w' Hq Hnin H) as Hseen.
    unfold loop_body in H. rewrite (bind_return _ _ _ _ Hq) in H.
    rewrite bool_decide_eq_false_2 in H by assumption.
    rewrite bind_run in H.
    destruct (fst _) as [lgs|e] in H; [|discriminate].
    rewrite bind_run in H.
    destruct (leagues_loop srv cfg lgs _ 0 _) as [[v2|e] w2] eqn:E2; [|discriminate].
    apply leagues_loop_counts in E2. cbn in E2. destruct E2 as (H1 & H2 & H3 & H4 & _).
    cbn [fst snd] in H. rewrite bind_run in H.
    destruct (fst _) as [[]|e] in H; [|discriminate].
    inversion H; subst v2.
    repeat split; try assumption; try lia.
    rewrite Hseen, size_union, size_singleton by (apply disjoint_singleton_r; exact Hnin). lia.
Qed.

Lemma walk_counts fuel v w v' w' :
  walk srv rnd cfg fuel v w = (Return (Some v'), w') ->
  leagues_processed v <= leagues_processed v'
  /\ leagues_processed v' <= Z.max (leagues_processed v) (target_leagues cfg)
  /\ Z.of_nat (size (seen_user_ids v'))
     <= Z.max (Z.of_nat (size (seen_user_ids v))) (max_users_to_visit cfg).
Proof.
  revert v w. induction fuel as [|fuel IH]; intros v w H.
  - cbn [walk] in H. destruct (loop_guard cfg v); [discriminate|].
    inversion H; subst. lia.
  - destruct (loop_guard cfg v) eqn:Hg.
    + rewrite walk_step in H by assumption. rewrite bind_run in H.
      destruct (loop_body srv rnd cfg v w) as [[v1|e] w1] eqn:E1; [|discriminate].
      cbn [fst snd] in H. apply IH in H.
      apply loop_body_counts in E1.
      unfold loop_guard in Hg. apply andb_true_iff in Hg as [Hg Hg3].
      apply andb_true_iff in Hg as [_ Hg2].
      apply Z.ltb_lt in Hg2. apply Z.ltb_lt in Hg3. lia.
    + rewrite walk_stopped in H by assumption. inversion H; subst. lia.
Qed.

(** X16: in one iteration of the walker at most one node is added to
    the visited set and at most [max_leagues_per_user] leagues are
    processed (at most one when that cap is below one); the counter never
    decreases and never passes the larger of the target and its old value
    plus one. *)
Theorem iteration_caps v w v' w' :
  loop_body srv rnd cfg v w = (Return v', w') ->
  (size (seen_user_ids v') <= S (size (seen_user_ids v)))%nat
  /\ 0 <= leagues_processed v' - leagues_processed v
       <= Z.max 1 (max_leagues_per_user cfg)
  /\ leagues_processed v' <= Z.max (leagues_processed v + 1) (target_leagues cfg).
Proof.
  intros H. apply loop_body_counts in H. destruct H as (H1 & H2 & H3 & H4 & _).
  repeat split; try assumption; lia.
Qed.

(** X17: a run never overshoots.  When the function returns, the number
    of leagues it reports is between 0 and the target (0 for a target
    below 0), and the visited set holds no more nodes than the visit
    ceiling, unless the loaded checkpoint already held more, in which case
    none was added. *)
Theorem run_respects_target_and_ceiling fuel seeds w v w' :
  crawl_run srv rnd cfg fuel seeds w = (Return (Some v), w') ->
  0 <= leagues_processed v <= Z.max 0 (target_leagues cfg)
  /\ Z.of_nat (size (seen_user_ids v))
     <= Z.max (Z.of_nat (size (list_to_set (seen_user_ids_json (loaded w)) : gset string)))
              (max_users_to_visit cfg).
Proof.
  intros H. unfold crawl_run in H. rewrite bind_run in H.
  destruct (crawl_init srv seeds w) as [[v0|e] w0] eqn:E0; [|discriminate].
  cbn [fst snd] in H. rewrite bind_run in H.
  destruct (walk srv rnd cfg fuel v0 w0) as [[[v1|]|e] w1] eqn:E1; try discriminate.
  cbn in H. inversion H; subst v1.
  apply walk_counts in E1.
  assert (Hv0 : leagues_processed v0 = 0
                /\ seen_user_ids v0 = list_to_set (seen_user_ids_json (loaded w))).
  { unfold crawl_init, load_crawl_state, gets in E0. unfold bind at 1 in E0.
    fold (loaded w) in E0. rewrite bind_run in E0.
    destruct (fst _) in E0; [|discriminate]. inversion E0; subst. split; reflexivity. }
  destruct Hv0 as [Hp Hs]. rewrite Hp, Hs in E1. lia.
Qed.

End Caps.

(** ** Checkpoints inside the loop *)

Section PeriodicSave.

Variable srv : remote.
Variable rnd : nat -> nat.
Variable cfg : crawl_config.

Lemma leagues_loop_file lgs v n w :
  state_file (snd (leagues_loop srv cfg lgs v n w)) = state_file w.
Proof.
  apply (keeps_leagues_loop srv cfg (fun w w' => state_file w' = state_file w)).
  - reflexivity.
  - intros w1 w2 w3 H1 H2. congruence.
  - reflexivity.
  - intros lid s w0 _.
    destruct (process_league_footprint srv lid s w0) as (k & _ & _ & Hf & _).
    exact Hf.
Qed.

(** X18: the loop writes the checkpoint only after visiting a new node,
    and only when the visited count is then a multiple of 10.  After an
    iteration that visits a new node, the file holds the visited set and
    the queue of that moment if the count is a multiple of 10 and is
    untouched otherwise. *)
Theorem periodic_checkpoint v w uid rest v' w' :
  fst (shuffle rnd cfg (user_q v) w) = Return (uid :: rest) ->
  uid ∉ seen_user_ids v ->
  loop_body srv rnd cfg v w = (Return v', w') ->
  state_file w'
  = if Z.of_nat (size (seen_user_ids v')) mod 10 =? 0
    then Some (CrawlState (elements (seen_user_ids v')) (user_q v'))
    else state_file w.
Proof.
  intros Hq Hnin H. unfold loop_body in H.
  rewrite (bind_return _ _ _ _ Hq) in H.
  rewrite bool_decide_eq_false_2 in H by assumption.
  destruct (shuffle_run rnd cfg (user_q v) w) as (q' & w1 & Es & _ & _ & _ & Hf1 & _).
  rewrite Es in H. cbn [snd] in H.
  rewrite bind_run, get_user_leagues_world in H.
  destruct (fst _) as [lgs|e] in H; [|discriminate].
  rewrite bind_run in H.
  pose proof (leagues_loop_file lgs
                (Walker (seen_user_ids v ∪ {[ uid ]}) rest (seen_leagues v)
                        (leagues_processed v)) 0
                (after [EUserLeagues uid (season cfg)] w1)) as Hf2.
  destruct (leagues_loop srv cfg lgs _ 0 _) as [[v2|e] w2]; [|discriminate].
  cbn [fst snd] in H, Hf2.
  destruct (Z.of_nat (size (seen_user_ids v2)) mod 10 =? 0) eqn:E10;
    cbn in H; inversion H; subst; rewrite E10; cbn; [reflexivity|].
  rewrite Hf2. exact Hf1.
Qed.

End PeriodicSave.

(** ** A frontier with nothing new, and a reset *)

Section Frontier.

Variable srv : remote.
Variable rnd : nat -> nat.
Variable cfg : crawl_config.

Lemma walk_all_visited n v w :
  (length (user_q v) <= n)%nat ->
  (forall x, x ∈ user_q v -> x ∈ seen_user_ids v) ->
  exists q' w',
    walk srv rnd cfg n v w = (Return (Some (set_user_q q' v)), w')
    /\ calls w' = calls w /\ db w' = db w /\ commits w' = commits w
    /\ state_file w' = state_file w
    /\ (forall x, x ∈ q' -> x ∈ user_q v).
Proof.
  revert v w. induction n as [|n IH]; intros v w Hlen Hall.
  - exists (user_q v), w. rewrite walk_stopped.
    + destruct v; repeat split; auto.
    + apply loop_guard_false. left. destruct (user_q v); [reflexivity | cbn in Hlen; lia].
  - destruct (loop_guard cfg v) eqn:Hg.
    2:{ exists (user_q v), w. rewrite walk_stopped by assumption.
        destruct v; repeat split; auto. }
    destruct (shuffle_run rnd cfg (user_q v) w)
      as (q1 & w1 & Es & Hc & Hd & Hk & Hf & Hl1 & Hmem).
    destruct q1 as [|uid rest].
    { exfalso. assert (Hs : loop_guard cfg v = false); [|congruence].
      apply loop_guard_false. left.
      destruct (user_q v); [reflexivity | discriminate]. }
    assert (Hq : fst (shuffle rnd cfg (user_q v) w) = Return (uid :: rest))
      by (rewrite Es; reflexivity).
    assert (Hin : uid ∈ seen_user_ids v).
    { apply Hall, Hmem, elem_of_cons. left. reflexivity. }
    rewrite walk_step by assumption. unfold bind.
    rewrite (loop_body_visited srv rnd cfg v w uid rest Hq Hin), Es. cbn [snd].
    destruct (IH (set_user_q rest v) w1) as (q' & w' & E & Hc' & Hd' & Hk' & Hf' & Hsub).
    + cbn. cbn in Hl1. lia.
    + intros x Hx. cbn in Hx |- *. apply Hall, Hmem, elem_of_cons. right. exact Hx.
    + exists q', w'. split; [exact E|].
      repeat split; try congruence.
      intros x Hx. apply Hmem, elem_of_cons. right. apply Hsub. exact Hx.
Qed.

(** X19: when every queued node is already visited, the loop only drains
    the queue: within as many iterations as the queue is long it stops,
    having issued no request and written nothing, with the visited set,
    the seen leagues and the counter unchanged and a queue made of entries
    of the old one. *)
Theorem frontier_of_visited_nodes v w :
  (forall x, x ∈ user_q v -> x ∈ seen_user_ids v) ->
  exists q' w',
    walk srv rnd cfg (length (user_q v)) v w
    = (Return (Some (Walker (seen_user_ids v) q' (seen_leagues v) (leagues_processed v))), w')
    /\ calls w' = calls w /\ db w' = db w /\ commits w' = commits w
    /\ state_file w' = state_file w
    /\ (forall x, x ∈ q' -> x ∈ user_q v).
Proof. intros Hall. exact (walk_all_visited _ v w (Nat.le_refl _) Hall). Qed.


End Frontier.

Lemma frontier_of_visited_nodes_witness :
  exists q' w',
    walk demo_srv demo_rnd demo_cfg 2 (Walker {[ "u1"; "u2" ]} ["u1"; "u2"] ∅ 0) demo_world
    = (Return (Some (Walker {[ "u1"; "u2" ]} q' ∅ 0)), w')
    /\ calls w' = calls demo_world.
Proof.
  destruct (frontier_of_visited_nodes demo_srv demo_rnd demo_cfg
              (Walker {[ "u1"; "u2" ]} ["u1"; "u2"] ∅ 0) demo_world)
    as (q' & w' & E & Hc & _).
  - intros x Hx. cbn in Hx |- *.
    apply elem_of_cons in Hx as [->|Hx]; [apply elem_of_union; left; apply elem_of_singleton; reflexivity|].
    apply elem_of_cons in Hx as [->|Hx]; [apply elem_of_union; right; apply elem_of_singleton; reflexivity|].
    inversion Hx.
  - exists q', w'. split; [exact E | exact Hc].
Defined.


Lemma leagues_loop_existing_league_witness :
  leagues_loop edge_srv demo_cfg [LeagueStub (Some "A") (Some "nfl")]
    (Walker {[ "u1" ]} [] ∅ 0) 0 stored_world
  = (Return (Walker {[ "u1" ]} ["u2"; "u3"; "u2"] {[ "A" ]} 0),
     after [ELeagueUsers "A"] stored_world).
Proof.
  rewrite (leagues_loop_existing_league edge_srv demo_cfg
             (LeagueStub (Some "A") (Some "nfl")) [] "A" (Walker {[ "u1" ]} [] ∅ 0) 0
             stored_world eq_refl ltac:(discriminate)
             ltac:(cbn; apply not_elem_of_empty) eq_refl eq_refl
             ltac:(vm_compute; eexists; reflexivity)).
  vm_compute. reflexivity.
Defined.

(** ** Run-scoped deduplication of leagues *)

Lemma ldr_app l1 l2 :
  league_detail_requests (l1 ++ l2) = league_detail_requests l1 ++ league_detail_requests l2.
Proof. unfold league_detail_requests. apply omap_app. Qed.

Lemma ldr_league_requests lid k :
  (1 <= k <= 3)%nat -> league_detail_requests (take k (league_requests lid)) = [lid].
Proof.
  intros Hk. destruct k as [|[|[|[|k]]]]; try lia; reflexivity.
Qed.

Lemma asks_once_here (S : gset string) (r : result walker * world) :
  (forall v', fst r = Return v' -> S ⊆ seen_leagues v') ->
  asks_once S (snd r) r [].
Proof.
  intros H. split.
  - unfold fresh_requests. rewrite app_nil_r. repeat split; [constructor|].
    intros lid Hl. inversion Hl.
  - intros v' Hv. split; [exact (H v' Hv)|]. intros lid Hl. inversion Hl.
Qed.

Lemma asks_once_extend (S : gset string) w w1 r l1 l2 lid :
  calls w1 = calls w ++ l1 ->
  league_detail_requests l1 = [] \/ league_detail_requests l1 = [lid] ->
  lid ∉ S ->
  asks_once (S ∪ {[ lid ]}) w1 r l2 ->
  asks_once S w r (l1 ++ l2).
Proof.
  intros Hc Hl Hnot [(Hc2 & Hnd & Hfresh) Hret].
  assert (Hin2 : forall x, x ∈ league_detail_requests l2 -> (x ∉ S) /\ x <> lid).
  { intros x Hx. specialize (Hfresh x Hx). split; intros ?; apply Hfresh.
    - apply elem_of_union. left. assumption.
    - apply elem_of_union. right. apply elem_of_singleton. assumption. }
  split; [split; [|split]|].
  - rewrite Hc2, Hc, <- app_assoc. reflexivity.
  - rewrite ldr_app. destruct Hl as [->| ->]; [exact Hnd|].
    cbn. constructor; [|exact Hnd]. intros Hx. apply (Hin2 lid Hx). reflexivity.
  - intros x. rewrite ldr_app, elem_of_app. intros [Hx|Hx]; [|apply (Hin2 x Hx)].
    destruct Hl as [Hl|Hl]; rewrite Hl in Hx; [inversion Hx|].
    apply list_elem_of_singleton in Hx as ->. exact Hnot.
  - intros v' Hv. destruct (Hret v' Hv) as [Hsub Hall]. split.
    + etransitivity; [apply union_subseteq_l | exact Hsub].
    + intros x. rewrite ldr_app, elem_of_app. intros [Hx|Hx]; [|apply Hall, Hx].
      destruct Hl as [Hl|Hl]; rewrite Hl in Hx; [inversion Hx|].
      apply list_elem_of_singleton in Hx as ->. apply Hsub.
      apply elem_of_union. right. apply elem_of_singleton. reflexivity.
Qed.

Section Once.

Variable srv : remote.
Variable rnd : nat -> nat.
Variable cfg : crawl_config.

Lemma leagues_loop_once lgs v n w :
  exists l, asks_once (seen_leagues v) w (leagues_loop srv cfg lgs v n w) l.
Proof.
  revert v n w. induction lgs as [|lg rest IH]; intros v n w; cbn [leagues_loop].
  - exists []. apply (asks_once_here _ (Return v, w)). intros v' H. inversion H. reflexivity.
  - destruct (negb _ || bool_decide _) eqn:Hskip; [apply IH|].
    destruct (negb (opt_str_eqb _ _)); [apply IH|].
    apply orb_false_iff in Hskip as [_ Hseen]. apply bool_decide_eq_false in Hseen.
    set (lid := default "" (stub_league_id lg)) in *.
    assert (Hex : exists b, (if skip_existing cfg then league_exists lid else ret false) w
                            = (Return b, w)).
    { destruct (skip_existing cfg); eexists; reflexivity. }
    destruct Hex as [in_db Hex]. unfold bind at 1. rewrite Hex.
    destruct in_db.
    + rewrite bind_run, get_league_users_world.
      destruct (fst (get_league_users srv lid w)) as [us|e].
      * match goal with |- context [leagues_loop srv cfg rest ?v2 n ?w2] =>
          destruct (IH v2 n w2) as [l2 H2] end.
        exists ([ELeagueUsers lid] ++ l2).
        apply (asks_once_extend _ w (after [ELeagueUsers lid] w) _ [ELeagueUsers lid] l2 lid);
          [reflexivity | left; reflexivity | exact Hseen | exact H2].
      * exists ([ELeagueUsers lid] ++ []).
        apply (asks_once_extend _ w (after [ELeagueUsers lid] w) _ [ELeagueUsers lid] [] lid);
          [reflexivity | left; reflexivity | exact Hseen |].
        apply (asks_once_here _ (Raise e, after [ELeagueUsers lid] w)).
        intros v' H. discriminate.
    + destruct (process_league_footprint srv lid (season cfg) w) as (k & Hk & Hc & _).
      pose proof (ldr_league_requests lid k Hk) as Hldr.
      set (l1 := take k (league_requests lid)) in *.
      rewrite bind_run.
      destruct (process_league srv lid (season cfg) w) as [[success|e] w1]; cbn [fst snd] in *.
      2:{ exists (l1 ++ []).
          apply (asks_once_extend _ w w1 _ l1 [] lid);
            [exact Hc | right; exact Hldr | exact Hseen |].
          apply (asks_once_here _ (Raise e, w1)). intros v' H. discriminate. }
      (* the tail after the optional enqueueing, from the world [w2]
         reached with the requests [l1'] *)
      assert (Tail : forall v2 n2 w2 l1',
                calls w2 = calls w ++ l1' ->
                league_detail_requests l1' = [lid] ->
                seen_leagues v2 = seen_leagues v ∪ {[ lid ]} ->
                exists l,
                  asks_once (seen_leagues v) w
                    ((if target_leagues cfg <=? leagues_processed v2 then ret v2
                      else if max_leagues_per_user cfg <=? n2 then ret v2
                      else leagues_loop srv cfg rest v2 n2) w2) l).
      { intros v2 n2 w2 l1' Hc2 Hl2 Hs2.
        assert (Stop : exists l, asks_once (seen_leagues v) w (Return v2, w2) l).
        { exists (l1' ++ []).
          apply (asks_once_extend _ w w2 _ l1' [] lid);
            [exact Hc2 | right; exact Hl2 | exact Hseen |].
          apply (asks_once_here _ (Return v2, w2)).
          intros v' H. inversion H; subst. rewrite Hs2. reflexivity. }
        destruct (_ <=? _); [exact Stop|].
        destruct (_ <=? _); [exact Stop|].
        destruct (IH v2 n2 w2) as [l2 H2]. rewrite Hs2 in H2.
        exists (l1' ++ l2).
        apply (asks_once_extend _ w w2 _ l1' l2 lid);
          [exact Hc2 | right; exact Hl2 | exact Hseen | exact H2]. }
      rewrite bind_run. destruct success.
      * rewrite bind_run, get_league_users_world.
        destruct (fst (get_league_users srv lid w1)) as [us|e]; cbn [fst snd ret].
        -- apply (Tail _ _ _ (l1 ++ [ELeagueUsers lid])).
           ++ cbn. rewrite Hc, <- app_assoc. reflexivity.
           ++ rewrite ldr_app, Hldr. reflexivity.
           ++ reflexivity.
        -- exists ((l1 ++ [ELeagueUsers lid]) ++ []).
           apply (asks_once_extend _ w (after [ELeagueUsers lid] w1) _
                    (l1 ++ [ELeagueUsers lid]) [] lid).
           ++ cbn. rewrite Hc, <- app_assoc. reflexivity.
           ++ right. rewrite ldr_app, Hldr. reflexivity.
           ++ exact Hseen.
           ++ apply (asks_once_here _ (Raise e, after [ELeagueUsers lid] w1)).
              intros v' H. discriminate.
      * cbn [fst snd ret]. apply (Tail _ _ _ l1); [exact Hc | exact Hldr | reflexivity].
Qed.

Lemma loop_body_once v w :
  exists l, asks_once (seen_leagues v) w (loop_body srv rnd cfg v w) l.
Proof.
  destruct (shuffle_run rnd cfg (user_q v) w) as (q & w1 & Es & Hc1 & _).
  unfold loop_body. unfold bind at 1. rewrite Es.
  assert (Here : forall r : result walker * world,
            calls (snd r) = calls w ->
            (forall v', fst r = Return v' -> seen_leagues v ⊆ seen_leagues v') ->
            exists l, asks_once (seen_leagues v) w r l).
  { intros r Hc Hr. exists []. destruct (asks_once_here _ r Hr) as [(_ & Hnd & Hf) Hret].
    split; [|exact Hret]. split; [rewrite app_nil_r; exact Hc | split; assumption]. }
  destruct q as [|uid q'].
  { apply Here; [exact Hc1 | intros v' H; discriminate]. }
  destruct (bool_decide (uid ∈ seen_user_ids v)).
  { apply Here; [exact Hc1 | intros v' H; inversion H; reflexivity]. }
  rewrite bind_run, get_user_leagues_world.
  set (e := EUserLeagues uid (season cfg)).
  assert (He : calls (after [e] w1) = calls w ++ [e]) by (cbn; rewrite Hc1; reflexivity).
  assert (Skip : forall r l2,
            asks_once (seen_leagues v) (after [e] w1) r l2 ->
            asks_once (seen_leagues v) w r ([e] ++ l2)).
  { intros r l2 [(Hc2 & Hnd & Hf) Hret]. split; [split; [|split]|].
    - rewrite Hc2, He, <- app_assoc. reflexivity.
    - exact Hnd.
    - exact Hf.
    - exact Hret. }
  destruct (fst (get_user_leagues srv uid (season cfg) w1)) as [lgs|ex].
  2:{ exists ([e] ++ []). apply Skip.
      apply (asks_once_here _ (Raise ex, after [e] w1)). intros v' H. discriminate. }
  rewrite bind_run.
  match goal with |- context [leagues_loop srv cfg lgs ?v1 0 ?w2] =>
    destruct (leagues_loop_once lgs v1 0 w2) as [l2 [(Hc2 & Hnd & Hf) Hret]];
    destruct (leagues_loop srv cfg lgs v1 0 w2) as [[v2|ex] w3]
  end; cbn [fst snd seen_leagues] in *.
  - exists ([e] ++ l2). apply Skip.
    split; [split; [|split]|].
    + destruct (_ =? 0); cbn; exact Hc2.
    + exact Hnd.
    + exact Hf.
    + intros v' H. destruct (_ =? 0); cbn in H; inversion H; subst; apply Hret; reflexivity.
  - exists ([e] ++ l2). apply Skip.
    split; [split; [exact Hc2 | split; assumption]|]. intros v' H. discriminate.
Qed.

Lemma walk_once fuel v w :
  exists l, fresh_requests (seen_leagues v) w (snd (walk srv rnd cfg fuel v w)) l.
Proof.
  revert v w. induction fuel as [|fuel IH]; intros v w; cbn [walk].
  - exists []. destruct (loop_guard cfg v); cbn; unfold fresh_requests;
      rewrite app_nil_r; (repeat split; [constructor|]); intros lid H; inversion H.
  - destruct (loop_guard cfg v).
    2:{ exists []. cbn. unfold fresh_requests. rewrite app_nil_r.
        repeat split; [constructor|]. intros lid H; inversion H. }
    destruct (loop_body_once v w) as [l1 [(Hc1 & Hnd1 & Hf1) Hret]].
    rewrite bind_run.
    destruct (loop_body srv rnd cfg v w) as [[v1|e] w1]; cbn [fst snd] in *.
    2:{ exists l1. repeat split; assumption. }
    destruct (Hret v1 eq_refl) as [Hsub Hin1].
    destruct (IH v1 w1) as [l2 (Hc2 & Hnd2 & Hf2)].
    exists (l1 ++ l2). split; [|split].
    + rewrite Hc2, Hc1, <- app_assoc. reflexivity.
    + rewrite ldr_app. apply NoDup_app. split; [exact Hnd1|]. split; [|exact Hnd2].
      intros x Hx1 Hx2. exact (Hf2 x Hx2 (Hin1 x Hx1)).
    + intros x. rewrite ldr_app, elem_of_app. intros [Hx|Hx]; [exact (Hf1 x Hx)|].
      intros HS. apply (Hf2 x Hx). apply Hsub. exact HS.
Qed.

Lemma ldr_users (us : list string) : league_detail_requests (EUser <$> us) = [].
Proof. induction us as [|u us IH]; [reflexivity | exact IH]. Qed.

Lemma crawl_init_calls seeds w :
  exists l0,
    calls (snd (crawl_init srv seeds w)) = calls w ++ l0
    /\ league_detail_requests l0 = []
    /\ forall v0, fst (crawl_init srv seeds w) = Return v0 -> seen_leagues v0 = ∅.
Proof.
  destruct (user_queue_json (loaded w)) as [|x q] eqn:Eq.
  - rewrite crawl_init_fresh by exact Eq. rewrite bind_run.
    destruct (resolve_seeds srv seeds [] w) as [[q'|e] w1] eqn:E; cbn [fst snd].
    + destruct (resolve_seeds_returns srv seeds [] w q' w1 E) as [-> _].
      exists (EUser <$> seeds). split; [reflexivity|]. split; [apply ldr_users|].
      intros v0 H. inversion H. reflexivity.
    + destruct (resolve_seeds_raises srv seeds [] w e w1 E) as (k & _ & ->).
      exists (EUser <$> take k seeds). split; [reflexivity|]. split; [apply ldr_users|].
      intros v0 H. discriminate.
  - rewrite crawl_init_resumed by (rewrite Eq; discriminate).
    exists []. cbn. rewrite app_nil_r. repeat split. intros v0 H. inversion H. reflexivity.
Qed.

Lemma crawl_asks_once fuel seeds w :
  exists l,
    calls (snd (crawl_and_store_leagues srv rnd cfg fuel seeds w)) = calls w ++ l
    /\ NoDup (league_detail_requests l).
Proof.
  destruct (crawl_init_calls seeds w) as (l0 & Hc0 & Hl0 & Hs0).
  unfold crawl_and_store_leagues, crawl_run. rewrite !bind_run.
  destruct (crawl_init srv seeds w) as [[v0|e] w0]; cbn [fst snd] in *.
  2:{ exists l0. split; [exact Hc0|]. rewrite Hl0. constructor. }
  destruct (walk_once fuel v0 w0) as [l1 (Hc1 & Hnd1 & _)].
  exists (l0 ++ l1). rewrite ldr_app, Hl0. cbn [app]. split; [|exact Hnd1].
  rewrite !bind_run.
  destruct (walk srv rnd cfg fuel v0 w0) as [[[v|]|e] w1]; cbn in *;
    rewrite Hc1, Hc0, <- app_assoc; reflexivity.
Qed.

(** X21: in one run no league detail is requested twice, whatever the
    remote answers and however the run ends: the league ids of the detail
    requests issued by [crawl_and_store_leagues] are pairwise distinct. *)
Theorem league_detail_requested_once fuel seeds w :
  exists l,
    calls (snd (crawl_and_store_leagues srv rnd cfg fuel seeds w)) = calls w ++ l
    /\ NoDup (league_detail_requests l).
Proof. exact (crawl_asks_once fuel seeds w). Qed.

End Once.

(** ** The bounds and the periodic save on a concrete run *)

Lemma iteration_caps_witness :
  exists v' w',
    loop_body demo_srv demo_rnd demo_cfg (Walker ∅ ["u1"] ∅ 0) demo_world = (Return v', w')
    /\ (size (seen_user_ids v') <= 1)%nat
    /\ 0 <= leagues_processed v' - 0 <= 5.
Proof.
  destruct (loop_body demo_srv demo_rnd demo_cfg (Walker ∅ ["u1"] ∅ 0) demo_world)
    as [[v'|e] w'] eqn:E; [|vm_compute in E; discriminate].
  exists v', w'. split; [reflexivity|].
  destruct (iteration_caps demo_srv demo_rnd demo_cfg _ _ _ _ E) as (H1 & H2 & _).
  split; [exact H1 | exact H2].
Defined.

Lemma run_respects_target_and_ceiling_witness :
  exists v w',
    crawl_run demo_srv demo_rnd demo_cfg 5 ["alice"] demo_world = (Return (Some v), w')
    /\ 0 <= leagues_processed v <= 10.
Proof.
  destruct (crawl_run demo_srv demo_rnd demo_cfg 5 ["alice"] demo_world)
    as [[[v|]|e] w'] eqn:E; try (vm_compute in E; discriminate).
  exists v, w'. split; [reflexivity|].
  exact (proj1 (run_respects_target_and_ceiling demo_srv demo_rnd demo_cfg _ _ _ _ _ E)).
Defined.

Lemma periodic_checkpoint_witness :
  exists v' w',
    loop_body demo_srv demo_rnd demo_cfg (Walker ∅ ["u1"] ∅ 0) demo_world = (Return v', w')
    /\ state_file w' = None.
Proof.
  destruct (loop_body demo_srv demo_rnd demo_cfg (Walker ∅ ["u1"] ∅ 0) demo_world)
    as [[v'|e] w'] eqn:E; [|vm_compute in E; discriminate].
  exists v', w'. split; [reflexivity|].
  rewrite (periodic_checkpoint demo_srv demo_rnd demo_cfg (Walker ∅ ["u1"] ∅ 0) demo_world
             "u1" [] v' w' ltac:(vm_compute; reflexivity)
             ltac:(cbn; apply not_elem_of_empty) E).
  vm_compute in E. inversion E; subst. vm_compute. reflexivity.
Defined.

(** ** Stored leagues are not fetched again *)

Lemma avoids_stored_same_calls w w' :
  extends w w' -> calls w' = calls w -> avoids_stored w w'.
Proof.
  intros He Hc. split; [exact He|]. intros l Hl lid Hin.
  rewrite Hc in Hl. rewrite <- (app_nil_r (calls w)) in Hl at 1.
  apply app_inv_head in Hl. subst l. inversion Hin.
Qed.

Lemma avoids_stored_trans w1 w2 w3 :
  avoids_stored w1 w2 -> avoids_stored w2 w3 -> avoids_stored w1 w3.
Proof.
  intros [E12 H12] [E23 H23]. split; [exact (extends_trans _ _ _ E12 E23)|].
  intros l Hl lid Hin.
  destruct E12 as [[l12 Hc12] [Hdom _]]. destruct E23 as [[l23 Hc23] _].
  assert (l = l12 ++ l23).
  { rewrite Hc23, Hc12, <- app_assoc in Hl. apply app_inv_head in Hl. congruence. }
  subst l. unfold league_data_requests in Hin. rewrite omap_app in Hin.
  apply elem_of_app in Hin as [Hin|Hin].
  - exact (H12 l12 Hc12 lid Hin).
  - pose proof (H23 l23 Hc23 lid Hin) as Hnone.
    apply not_elem_of_dom. apply not_elem_of_dom in Hnone.
    intros Hd. apply Hnone, Hdom, Hd.
Qed.

Lemma avoids_stored_after w e :
  league_data_of e = None -> avoids_stored w (after [e] w).
Proof.
  intros He. split; [apply extends_after|]. intros l Hl lid Hin.
  cbn in Hl. apply app_inv_head in Hl. subst l.
  unfold league_data_requests in Hin. cbn in Hin. rewrite He in Hin. inversion Hin.
Qed.

Lemma avoids_stored_process srv lid s w :
  leagues (db w) !! lid = None ->
  avoids_stored w (snd (process_league srv lid s w)).
Proof.
  intros Hnone. split; [apply process_league_extends|]. intros l Hl x Hin.
  destruct (process_league_footprint srv lid s w) as (k & Hk & Hc & _).
  rewrite Hc in Hl. apply app_inv_head in Hl. subst l.
  destruct k as [|[|[|[|k]]]]; try lia; cbn in Hin;
    repeat (apply elem_of_cons in Hin as [->|Hin]; [exact Hnone|]); inversion Hin.
Qed.

Lemma crawl_avoids_stored srv rnd cfg fuel seeds w :
  skip_existing cfg = true ->
  avoids_stored w (snd (crawl_and_store_leagues srv rnd cfg fuel seeds w)).
Proof.
  intros Hskip. apply (keeps_crawl srv rnd cfg avoids_stored).
  - intros w0. apply avoids_stored_same_calls; [apply extends_refl | reflexivity].
  - apply avoids_stored_trans.
  - intros w0 e. apply avoids_stored_after.
  - intros lid s w0 Hc. apply avoids_stored_process. apply Hc. exact Hskip.
  - intros w0 k. apply avoids_stored_same_calls; [|reflexivity].
    unfold extends. cbn. repeat split; reflexivity.
  - intros w0 f. apply avoids_stored_same_calls; [|reflexivity].
    unfold extends. cbn. repeat split; reflexivity.
Qed.

(** X22: in skip-existing mode a league that is in the store when the
    run begins is never fetched again: whatever the remote answers and
    however the run ends, no request of the run asks for the detail, the
    rosters or the bracket of a league that was stored at its start.  The
    only request that can name such a league is the one for its users. *)
Theorem stored_leagues_not_refetched srv rnd cfg fuel seeds w :
  skip_existing cfg = true ->
  exists l,
    calls (snd (crawl_and_store_leagues srv rnd cfg fuel seeds w)) = calls w ++ l
    /\ forall e lid,
         e ∈ l -> is_Some (leagues (db w) !! lid) ->
         e <> ELeague lid /\ e <> ELeagueRosters lid /\ e <> EWinnersBracket lid.
Proof.
  intros Hskip.
  destruct (crawl_avoids_stored srv rnd cfg fuel seeds w Hskip) as [[[l Hl] _] Hav].
  exists l. split; [exact Hl|]. intros e lid Hin [row Hrow].
  assert (Hno : league_data_of e <> Some lid).
  { intros He. rewrite (Hav l Hl lid) in Hrow; [discriminate|].
    apply list_elem_of_omap. exists e. split; assumption. }
  repeat split; intros ->; apply Hno; reflexivity.
Qed.

Lemma stored_leagues_not_refetched_witness :
  exists l,
    calls (snd (crawl_and_store_leagues edge_srv demo_rnd demo_cfg 5 ["u1"] stored_world))
    = calls stored_world ++ l
    /\ ELeagueUsers "A" ∈ l
    /\ ELeague "B" ∈ l
    /\ (ELeague "A" ∉ l) /\ (ELeagueRosters "A" ∉ l) /\ (EWinnersBracket "A" ∉ l).
Proof.
  destruct (stored_leagues_not_refetched edge_srv demo_rnd demo_cfg 5 ["u1"] stored_world
              eq_refl) as (l & Hl & Hav).
  exists l. split; [exact Hl|].
  assert (HA : is_Some (leagues (db stored_world) !! "A"))
    by (vm_compute; eexists; reflexivity).
  split; [|split; [|repeat split]].
  - vm_compute in Hl. subst l. do 2 (apply elem_of_cons; right). apply elem_of_cons.
    left. reflexivity.
  - vm_compute in Hl. subst l. do 3 (apply elem_of_cons; right). apply elem_of_cons.
    left. reflexivity.
  - intros Hin. exact (proj1 (Hav _ "A" Hin HA) eq_refl).
  - intros Hin. exact (proj1 (proj2 (Hav _ "A" Hin HA)) eq_refl).
  - intros Hin. exact (proj2 (proj2 (Hav _ "A" Hin HA)) eq_refl).
Defined.

(** ** Reading the store *)

Lemma size_set_map_le `{Countable A, Countable B} (f : A -> B) (X : gset A) :
  (size (set_map f X : gset B) <= size X)%nat.
Proof.
  induction X as [|x X Hx IH] using set_ind_L.
  - rewrite set_map_empty, !size_empty. lia.
  - rewrite set_map_union_L, set_map_singleton_L.
    rewrite (size_union {[x]} X) by (apply disjoint_singleton_l; exact Hx).
    rewrite size_singleton.
    pose proof (size_union_alt ({[f x]} : gset B) (set_map f X)) as Hu.
    pose proof (subseteq_size (set_map f X ∖ {[f x]} : gset B) (set_map f X)
                  ltac:(apply subseteq_difference_l; reflexivity)) as Hd.
    rewrite size_singleton in Hu. lia.
Qed.

Lemma odds_rows_known d pid x :
  x ∈ odds_rows d pid ->
  x.2 = pid /\ x ∈ roster_players d
  /\ x.1 ∈ dom (filter flag_known (rosters d)).
Proof.
  unfold odds_rows. intros Hx. apply elem_of_filter in Hx as [[Hp Hf] Hin].
  repeat split; try assumption.
  unfold joined_flag in Hf. destruct (rosters d !! x.1) as [row|] eqn:E.
  - apply elem_of_dom. exists row. apply map_lookup_filter_Some. split; [exact E|].
    exact Hf.
  - destruct Hf as [? Hf]. discriminate.
Qed.

Lemma odds_counts_le d pid :
  (size (filter (fun x => joined_flag d x = Some 1%Z) (odds_rows d pid))
   <= size (odds_rows d pid)
   <= size (filter flag_known (rosters d)))%nat.
Proof.
  split.
  - apply subseteq_size. intros x Hx. apply elem_of_filter in Hx as [_ Hx]. exact Hx.
  - rewrite <- (size_dom (D := gset (string * Z)) (filter flag_known (rosters d))).
    etransitivity; [|apply (size_set_map_le (fun k : string * Z => (k, pid)))].
    apply subseteq_size. intros x Hx.
    apply odds_rows_known in Hx as (Hp & _ & Hk).
    apply elem_of_map. exists x.1. split; [|exact Hk].
    destruct x as [k p]. cbn in *. congruence.
Qed.

(** X23: the counts that [get_playoff_odds] reports are consistent with
    each other and with [get_roster_count], whatever the store holds: for
    every player, the playoff rosters are between 0 and the total rosters,
    and the total rosters are at most the number of rosters with playoff
    data; none of the readers changes the world. *)
Theorem odds_counts_bounds pid w :
  exists total playoffs n,
    get_playoff_odds pid w = (Return (total, playoffs), w)
    /\ get_roster_count w = (Return n, w)
    /\ 0 <= playoffs <= total /\ total <= n.
Proof.
  eexists _, _, _. split; [reflexivity|]. split; [reflexivity|].
  destruct (odds_counts_le (db w) pid) as [H1 H2]. lia.
Qed.

(** ** The league table grows with the count the crawl reports *)

Lemma extends_league_size w w' :
  extends w w' -> (size (leagues (db w)) <= size (leagues (db w')))%nat.
Proof. intros (_ & Hd & _). apply dom_subseteq_size. exact Hd. Qed.

(** A successful [process_league] on a league that is not in the store
    adds exactly one league row. *)
Lemma process_league_new_row srv lid s w :
  leagues (db w) !! lid = None ->
  fst (process_league srv lid s w) = Return true ->
  size (leagues (db (snd (process_league srv lid s w)))) = S (size (leagues (db w))).
Proof.
  intros Hnone Hok.
  destruct (process_league_success_inv srv lid s w Hok)
    as (lg & rs & br & Hl & Ht & Hs & Hf & Hr & Hne & Hb & Hsl & Hsr).
  rewrite (process_league_db srv lid s w lg rs br Hl Ht Hs Hf Hr Hne Hb Hsl Hsr). cbn [leagues].
  apply map_size_insert_None. exact Hnone.
Qed.

Section Growth.

Variable srv : remote.
Variable rnd : nat -> nat.
Variable cfg : crawl_config.
Hypothesis Hskip : skip_existing cfg = true.

Lemma leagues_loop_growth lgs v n w v' w' :
  leagues_loop srv cfg lgs v n w = (Return v', w') ->
  Z.of_nat (size (leagues (db w))) + (leagues_processed v' - leagues_processed v)
  <= Z.of_nat (size (leagues (db w'))).
Proof.
  revert v n w. induction lgs as [|lg rest IH]; intros v n w H; cbn [leagues_loop] in H.
  - inversion H; subst. lia.
  - destruct (negb _ || _); [eauto|].
    destruct (negb (opt_str_eqb _ _)); [eauto|].
    set (lid := default "" (stub_league_id lg)) in *.
    rewrite Hskip in H. rewrite bind_run in H.
    cbn [league_exists gets fst snd] in H.
    destruct (bool_decide (is_Some (leagues (db w) !! lid))) eqn:Hex.
    + rewrite bind_run in H.
      destruct (fst _) as [us|e] in H; [|discriminate].
      rewrite get_league_users_world in H. apply IH in H. cbn in H. exact H.
    + apply bool_decide_eq_false in Hex.
      assert (Hnone : leagues (db w) !! lid = None).
      { destruct (leagues (db w) !! lid) eqn:E; [|reflexivity].
        exfalso. apply Hex. eexists. reflexivity. }
      pose proof (process_league_new_row srv lid (season cfg) w Hnone) as Hnew.
      pose proof (extends_league_size _ _ (process_league_extends srv lid (season cfg) w)) as Hold.
      rewrite bind_run in H.
      destruct (fst (process_league srv lid (season cfg) w)) as [[|]|e]; [ | |discriminate].
      * specialize (Hnew eq_refl). rewrite !bind_run in H.
        destruct (fst (get_league_users _ _ _)) as [us|e] in H; [|discriminate].
        rewrite get_league_users_world in H.
        cbn [ret fst snd leagues_processed] in H.
        destruct (target_leagues cfg <=? leagues_processed v + 1) in H.
        { inversion H; subst. cbn. lia. }
        destruct (max_leagues_per_user cfg <=? n + 1) in H.
        { inversion H; subst. cbn. lia. }
        apply IH in H. cbn in H. lia.
      * rewrite bind_run in H. cbn [ret fst snd leagues_processed] in H.
        destruct (target_leagues cfg <=? leagues_processed v) in H.
        { inversion H; subst. cbn. lia. }
        destruct (max_leagues_per_user cfg <=? n) in H.
        { inversion H; subst. cbn. lia. }
        apply IH in H. cbn in H. lia.
Qed.

Lemma loop_body_growth v w v' w' :
  loop_body srv rnd cfg v w = (Return v', w') ->
  Z.of_nat (size (leagues (db w))) + (leagues_processed v' - leagues_processed v)
  <= Z.of_nat (size (leagues (db w'))).
Proof.
  intros H.
  destruct (shuffle_run rnd cfg (user_q v) w) as (q' & w1 & Es & _ & Hdb & _).
  unfold loop_body in H. rewrite bind_run, Es in H. cbn [fst snd] in H.
  destruct q' as [|uid rest]; [discriminate|].
  destruct (bool_decide (uid ∈ seen_user_ids v)).
  - inversion H; subst. rewrite Hdb. cbn. lia.
  - rewrite bind_run in H.
    destruct (fst _) as [lgs|e] in H; [|discriminate].
    rewrite get_user_leagues_world in H. rewrite bind_run in H.
    destruct (leagues_loop srv cfg lgs _ 0 _) as [[v2|e] w2] eqn:E2; [|discriminate].
    apply leagues_loop_growth in E2. cbn in E2. rewrite Hdb in E2.
    cbn [fst snd] in H. rewrite bind_run in H.
    destruct (_ =? 0) in H; cbn in H; inversion H; subst; cbn; exact E2.
Qed.

Lemma walk_growth fuel v w v' w' :
  walk srv rnd cfg fuel v w = (Return (Some v'), w') ->
  Z.of_nat (size (leagues (db w))) + (leagues_processed v' - leagues_processed v)
  <= Z.of_nat (size (leagues (db w'))).
Proof.
  revert v w. induction fuel as [|fuel IH]; intros v w H.
  - cbn [walk] in H. destruct (loop_guard cfg v); [discriminate|].
    inversion H; subst. lia.
  - destruct (loop_guard cfg v) eqn:Hg.
    + rewrite walk_step in H by assumption. rewrite bind_run in H.
      destruct (loop_body srv rnd cfg v w) as [[v1|e] w1] eqn:E1; [|discriminate].
      cbn [fst snd] in H. apply IH in H. apply loop_body_growth in E1. lia.
    + rewrite walk_stopped in H by assumption. inversion H; subst. lia.
Qed.

Lemma crawl_init_db seeds w v0 w0 :
  crawl_init srv seeds w = (Return v0, w0) -> db w0 = db w /\ leagues_processed v0 = 0.
Proof.
  intros H. destruct (user_queue_json (loaded w)) as [|x q] eqn:Eq.
  - rewrite crawl_init_fresh in H by exact Eq. rewrite bind_run in H.
    destruct (resolve_seeds srv seeds [] w) as [[q'|e] w1] eqn:E; [|discriminate].
    destruct (resolve_seeds_returns srv seeds [] w q' w1 E) as [-> _].
    cbn in H. inversion H; subst. split; reflexivity.
  - rewrite crawl_init_resumed in H by (rewrite Eq; discriminate).
    inversion H; subst. split; reflexivity.
Qed.

Lemma crawl_growth fuel seeds w n w' :
  crawl_and_store_leagues srv rnd cfg fuel seeds w = (Return (Some n), w') ->
  Z.of_nat (size (leagues (db w))) + n <= Z.of_nat (size (leagues (db w'))).
Proof.
  intros H. unfold crawl_and_store_leagues, crawl_run in H. rewrite !bind_run in H.
  destruct (crawl_init srv seeds w) as [[v0|e] w0] eqn:E0; [|discriminate].
  cbn [fst snd] in H. rewrite bind_run in H.
  destruct (walk srv rnd cfg fuel v0 w0) as [[[v1|]|e] w1] eqn:E1; try discriminate.
  cbn in H. inversion H; subst. cbn.
  apply walk_growth in E1. apply crawl_init_db in E0 as [Hdb Hp].
  rewrite Hdb, Hp in E1. lia.
Qed.

End Growth.

(** X24: in skip-existing mode the number a crawl returns is backed by
    the store: when [crawl_and_store_leagues] returns [n],
    [get_league_count] has grown by at least [n] over the run (by more
    when leagues were recorded and then given up for want of rosters). *)
Theorem league_count_growth srv rnd cfg fuel seeds w n w' :
  skip_existing cfg = true ->
  crawl_and_store_leagues srv rnd cfg fuel seeds w = (Return (Some n), w') ->
  exists before later,
    get_league_count w = (Return before, w)
    /\ get_league_count w' = (Return later, w')
    /\ before + n <= later.
Proof.
  intros Hskip H. eexists _, _. split; [reflexivity|]. split; [reflexivity|].
  exact (crawl_growth srv rnd cfg Hskip fuel seeds w n w' H).
Qed.

Lemma league_count_growth_witness :
  exists n w',
    crawl_and_store_leagues edge_srv demo_rnd demo_cfg 20 ["u1"] stored_world
    = (Return (Some n), w')
    /\ n = 1
    /\ exists before later,
         get_league_count stored_world = (Return before, stored_world)
         /\ get_league_count w' = (Return later, w')
         /\ before + n <= later.
Proof.
  destruct (crawl_and_store_leagues edge_srv demo_rnd demo_cfg 20 ["u1"] stored_world)
    as [[[n|]|e] w'] eqn:E; [|vm_compute in E; discriminate..].
  exists n, w'. split; [reflexivity|]. split.
  - vm_compute in E. inversion E. reflexivity.
  - exact (league_count_growth edge_srv demo_rnd demo_cfg 20 ["u1"] stored_world n w'
             eq_refl E).
Defined.

(** ** Leagues without a decided bracket do not enter the odds *)

(** Every row the loop of [process_league] writes belongs to the league
    and carries the flag computed from the qualifier set. *)
Lemma roster_rows_inv lid ids (rs : list roster) l rid row :
  roster_rows lid ids rs !! (l, rid) = Some row ->
  l = lid /\ row_made_playoffs row = made_playoffs_int (made_playoffs_of rid ids).
Proof.
  unfold roster_rows.
  assert (G : forall a : gmap (string * Z) roster_row,
            foldl (row_step lid ids) a rs !! (l, rid) = Some row ->
            a !! (l, rid) = Some row
            \/ (l = lid
                /\ row_made_playoffs row = made_playoffs_int (made_playoffs_of rid ids))).
  { induction rs as [|r0 rs' IH]; intros a Ha; cbn [foldl] in Ha; [auto|].
    apply IH in Ha as [Ha|Ha]; [|auto].
    unfold row_step in Ha. destruct (roster_id r0) as [rid0|]; [|auto].
    destruct (decide ((lid, rid0) = (l, rid))) as [Heq|Hne].
    - rewrite Heq, lookup_insert_eq in Ha. inversion Heq; subst.
      inversion Ha; subst. right. split; reflexivity.
    - rewrite lookup_insert_ne in Ha by exact Hne. auto. }
  intros H. apply G in H as [H|H]; [|exact H].
  rewrite lookup_empty in H. discriminate.
Qed.

Section Undecided.

Variable lid : string.
Variable rs : list roster.
Variable old : gmap (string * Z) roster_row.
Hypothesis old_fresh : forall rid, old !! (lid, rid) = None.

Let rows := roster_rows lid ∅ rs.

Lemma undecided_flag k :
  ((rows ∪ old) !! k) ≫= row_made_playoffs = (old !! k) ≫= row_made_playoffs.
Proof.
  destruct k as [l rid]. destruct (rows !! (l, rid)) as [row|] eqn:E.
  - rewrite (lookup_union_Some_l _ _ _ _ E).
    apply roster_rows_inv in E as [-> Hflag].
    rewrite old_fresh. cbn. exact Hflag.
  - rewrite lookup_union_r by exact E. reflexivity.
Qed.

Lemma undecided_known : filter flag_known (rows ∪ old) = filter flag_known old.
Proof.
  apply map_eq. intros k. apply option_eq. intros row.
  rewrite !map_lookup_filter_Some. unfold flag_known. cbn.
  pose proof (undecided_flag k) as Hk.
  destruct k as [l rid]. destruct (rows !! (l, rid)) as [row0|] eqn:E.
  - rewrite (lookup_union_Some_l _ _ _ _ E).
    apply roster_rows_inv in E as [-> Hflag]. rewrite old_fresh.
    assert (Hn : row_made_playoffs row0 = None) by exact Hflag.
    split; [|intros [? _]; discriminate].
    intros [Heq [x Hx]]. inversion Heq; subst. congruence.
  - rewrite lookup_union_r by exact E. reflexivity.
Qed.

End Undecided.

Lemma undecided_joined_flag lid rs leagues' members d x :
  (forall rid, rosters d !! (lid, rid) = None) ->
  joined_flag (Database leagues' (roster_rows lid ∅ rs ∪ rosters d) members) x
  = joined_flag d x.
Proof.
  intros Hfresh. unfold joined_flag. cbn [rosters].
  pose proof (undecided_flag lid rs (rosters d) Hfresh x.1) as H.
  destruct ((roster_rows lid ∅ rs ∪ rosters d) !! x.1), (rosters d !! x.1); exact H.
Qed.

Lemma undecided_odds_rows lid rs leagues' d pid :
  (forall rid, rosters d !! (lid, rid) = None) ->
  odds_rows (Database leagues' (roster_rows lid ∅ rs ∪ rosters d)
                      (roster_players d ∪ roster_members lid rs)) pid
  = odds_rows d pid.
Proof.
  intros Hfresh. apply set_eq. intros x. unfold odds_rows.
  rewrite !elem_of_filter.
  rewrite (undecided_joined_flag lid rs leagues' _ d x Hfresh).
  cbn [roster_players]. rewrite elem_of_union. split.
  - intros [[Hp Hf] [Hin|Hin]]; [auto|]. exfalso.
    destruct x as [[l rid] p]. apply roster_members_elem_of in Hin as [-> _].
    unfold joined_flag in Hf. cbn in Hf. rewrite Hfresh in Hf.
    destruct Hf as [? Hf]. discriminate.
  - intros [H Hin]. auto.
Qed.

Lemma undecided_playoff_rows (lid : string) (rs : list roster)
    (leagues' : gmap string league_row) (members : gset (string * Z * string))
    (d : database) (X : gset (string * Z * string)) :
  (forall rid, rosters d !! (lid, rid) = None) ->
  filter (fun x => joined_flag (Database leagues' (roster_rows lid ∅ rs ∪ rosters d) members) x
                   = Some 1) X
  = filter (fun x => joined_flag d x = Some 1) X.
Proof.
  intros Hfresh. apply set_eq. intros x. rewrite !elem_of_filter.
  rewrite (undecided_joined_flag lid rs leagues' members d x Hfresh). reflexivity.
Qed.

Lemma undecided_readers srv lid season w br pid :
  fst (process_league srv lid season w) = Return true ->
  fst (get_winners_bracket srv lid (after [ELeague lid; ELeagueRosters lid] w)) = Return br ->
  Forall (fun m => t1 m = None /\ t2 m = None) br ->
  (forall rid, rosters (db w) !! (lid, rid) = None) ->
  fst (get_roster_count (snd (process_league srv lid season w))) = fst (get_roster_count w)
  /\ fst (get_playoff_odds pid (snd (process_league srv lid season w)))
     = fst (get_playoff_odds pid w).
Proof.
  intros Hok Hb Hall Hfresh.
  destruct (process_league_success_inv srv lid season w Hok)
    as (lg & rs & br' & Hl & Ht & Hs & Hf & Hr & Hne & Hb' & Hsl & Hsr).
  assert (br' = br) as -> by congruence.
  unfold get_roster_count, get_playoff_odds, gets. cbn [fst].
  rewrite (process_league_db srv lid season w lg rs br Hl Ht Hs Hf Hr Hne Hb Hsl Hsr).
  apply extract_empty_iff in Hall. rewrite Hall. cbn [rosters]. split.
  - rewrite (undecided_known lid rs (rosters (db w)) Hfresh). reflexivity.
  - rewrite (undecided_odds_rows lid rs _ (db w) pid Hfresh).
    rewrite (undecided_playoff_rows lid rs _ _ (db w) (odds_rows (db w) pid) Hfresh).
    reflexivity.
Qed.

(** X25: a league whose bracket names no team yet does not enter the
    odds.  When [process_league] succeeds on a league that had no roster
    rows, and no matchup of its bracket has a team in either slot (in
    particular when the bracket is empty), [get_roster_count] and the
    counts of [get_playoff_odds] for every player are what they were
    before. *)
Theorem undecided_league_not_counted srv lid season w br pid :
  fst (process_league srv lid season w) = Return true ->
  fst (get_winners_bracket srv lid (after [ELeague lid; ELeagueRosters lid] w)) = Return br ->
  Forall (fun m => t1 m = None /\ t2 m = None) br ->
  (forall rid, rosters (db w) !! (lid, rid) = None) ->
  fst (get_roster_count (snd (process_league srv lid season w))) = fst (get_roster_count w)
  /\ fst (get_playoff_odds pid (snd (process_league srv lid season w)))
     = fst (get_playoff_odds pid w).
Proof. exact (undecided_readers srv lid season w br pid). Qed.

Lemma undecided_league_not_counted_witness :
  fst (process_league edge_srv "Lnullslots" 2025 demo_world) = Return true
  /\ rosters (db (snd (process_league edge_srv "Lnullslots" 2025 demo_world)))
       !! ("Lnullslots", 3) = Some (RosterRow (Some "u1") None)
  /\ fst (get_roster_count (snd (process_league edge_srv "Lnullslots" 2025 demo_world)))
     = fst (get_roster_count demo_world)
  /\ fst (get_playoff_odds "p1" (snd (process_league edge_srv "Lnullslots" 2025 demo_world)))
     = fst (get_playoff_odds "p1" demo_world).
Proof.
  split; [vm_compute; reflexivity|]. split; [vm_compute; reflexivity|].
  apply (undecided_league_not_counted edge_srv "Lnullslots" 2025 demo_world
           [Matchup None None] "p1").
  - vm_compute. reflexivity.
  - vm_compute. reflexivity.
  - apply Forall_cons. split; [split; reflexivity | apply Forall_nil; exact I].
  - intros rid. apply lookup_empty.
Defined.

(** ** What a decided league adds to a player's counts *)

Lemma size_set_map_inj `{Countable A, Countable B} (f : A -> B) (X : gset A) :
  Inj (=) (=) f -> size (set_map f X : gset B) = size X.
Proof.
  intros Hinj. induction X as [|x X Hx IH] using set_ind_L.
  - rewrite set_map_empty, !size_empty. reflexivity.
  - rewrite set_map_union_L, set_map_singleton_L.
    rewrite !size_union, !size_singleton, IH; [reflexivity| |].
    + apply disjoint_singleton_l. exact Hx.
    + apply disjoint_singleton_l. intros Hin.
      apply elem_of_map in Hin as (y & Hy & Hin). apply Hinj in Hy. subst y.
      exact (Hx Hin).
Qed.

Lemma roster_rows_is_Some lid ids (rs : list roster) r rid :
  r ∈ rs -> roster_id r = Some rid -> is_Some (roster_rows lid ids rs !! (lid, rid)).
Proof.
  unfold roster_rows. intros Hin Hid.
  assert (G : forall a : gmap (string * Z) roster_row,
            r ∈ rs \/ is_Some (a !! (lid, rid)) ->
            is_Some (foldl (row_step lid ids) a rs !! (lid, rid))).
  { clear Hin. induction rs as [|r0 rs' IH]; intros a Ha; cbn [foldl].
    - destruct Ha as [Ha|Ha]; [inversion Ha | exact Ha].
    - apply IH. destruct Ha as [Ha|Ha].
      + apply elem_of_cons in Ha as [<-|Ha]; [|auto]. right.
        unfold row_step. rewrite Hid, lookup_insert_eq. eexists. reflexivity.
      + right. unfold row_step. destruct (roster_id r0) as [rid0|]; [|exact Ha].
        destruct (decide ((lid, rid0) = (lid, rid))) as [Heq|Hne].
        * rewrite Heq, lookup_insert_eq. eexists. reflexivity.
        * rewrite lookup_insert_ne by exact Hne. exact Ha. }
  apply G. auto.
Qed.

Lemma holders_elem_of pid (rs : list roster) rid :
  rid ∈ holders pid rs
  <-> exists r, r ∈ rs /\ roster_id r = Some rid /\ pid ∈ default [] (players r).
Proof.
  unfold holders. rewrite elem_of_list_to_set, list_elem_of_omap. split.
  - intros (r & Hr & Hf). exists r. split; [exact Hr|].
    destruct (bool_decide (pid ∈ default [] (players r))) eqn:E; [|discriminate].
    apply bool_decide_eq_true in E. auto.
  - intros (r & Hr & Hid & Hp). exists r. split; [exact Hr|].
    rewrite bool_decide_eq_true_2 by exact Hp. exact Hid.
Qed.

Section Decided.

Variable lid : string.
Variable ids : gset Z.
Variable rs : list roster.
Variable leagues' : gmap string league_row.
Variable d : database.
Hypothesis ids_some : ids <> ∅.
Hypothesis d_fresh : no_rosters_of lid d.

Let d' : database :=
  Database leagues' (roster_rows lid ids rs ∪ rosters d)
           (roster_players d ∪ roster_members lid rs).

Lemma decided_flag_elsewhere l rid p :
  l <> lid -> joined_flag d' (l, rid, p) = joined_flag d (l, rid, p).
Proof.
  intros Hl. unfold joined_flag. cbn.
  rewrite lookup_union_r; [reflexivity|].
  apply roster_rows_lookup_None. intros Heq. contradiction.
Qed.

Lemma decided_flag_here rid p :
  rid ∈ holders p rs ->
  joined_flag d' (lid, rid, p) = Some (if bool_decide (rid ∈ ids) then 1 else 0).
Proof.
  intros Hh. apply holders_elem_of in Hh as (r & Hr & Hid & _).
  destruct (roster_rows_is_Some lid ids rs r rid Hr Hid) as [row Hrow].
  unfold joined_flag. cbn. rewrite (lookup_union_Some_l _ _ _ _ Hrow).
  apply roster_rows_inv in Hrow as [_ ->]. unfold made_playoffs_of.
  rewrite bool_decide_eq_false_2 by exact ids_some. reflexivity.
Qed.

Lemma decided_old_elsewhere l rid p : (l, rid, p) ∈ roster_players d -> l <> lid.
Proof. intros Hin ->. exact (proj2 d_fresh rid p Hin). Qed.

Lemma decided_odds_rows pid :
  odds_rows d' pid
  = odds_rows d pid ∪ set_map (fun rid : Z => (lid, rid, pid)) (holders pid rs).
Proof.
  apply set_eq. intros [[l rid] p]. unfold odds_rows at 1 2.
  rewrite elem_of_union, !elem_of_filter, elem_of_map. cbn [roster_players d' snd].
  rewrite elem_of_union. split.
  - intros [[Hp Hf] [Hin|Hin]].
    + left. rewrite <- (decided_flag_elsewhere l rid p (decided_old_elsewhere _ _ _ Hin)).
      auto.
    + right. apply roster_members_elem_of in Hin as [-> Hin]. subst p.
      exists rid. split; [reflexivity|]. apply holders_elem_of. exact Hin.
  - intros [[[Hp Hf] Hin]|(rid0 & Heq & Hh)].
    + rewrite (decided_flag_elsewhere l rid p (decided_old_elsewhere _ _ _ Hin)). auto.
    + inversion Heq; subst. split.
      * split; [reflexivity|]. rewrite (decided_flag_here rid0 pid Hh). eexists. reflexivity.
      * right. apply roster_members_elem_of. split; [reflexivity|].
        apply holders_elem_of. exact Hh.
Qed.

Lemma decided_playoff_rows pid :
  filter (fun x => joined_flag d' x = Some 1) (odds_rows d' pid)
  = filter (fun x => joined_flag d x = Some 1) (odds_rows d pid)
    ∪ set_map (fun rid : Z => (lid, rid, pid)) (holders pid rs ∩ ids).
Proof.
  rewrite decided_odds_rows. apply set_eq. intros [[l rid] p].
  rewrite elem_of_union, !elem_of_filter, elem_of_union, !elem_of_map. split.
  - intros [Hf [Hin|(rid0 & Heq & Hh)]].
    + left. split; [|exact Hin].
      assert (Hold : (l, rid, p) ∈ roster_players d).
      { unfold odds_rows in Hin. apply elem_of_filter in Hin as [_ Hin]. exact Hin. }
      rewrite <- (decided_flag_elsewhere l rid p (decided_old_elsewhere _ _ _ Hold)).
      exact Hf.
    + right. inversion Heq; subst. exists rid0. split; [reflexivity|].
      apply elem_of_intersection. split; [exact Hh|].
      rewrite (decided_flag_here rid0 pid Hh) in Hf.
      destruct (bool_decide (rid0 ∈ ids)) eqn:E; [|discriminate].
      apply bool_decide_eq_true in E. exact E.
  - intros [[Hf Hin]|(rid0 & Heq & Hh)].
    + split; [|left; exact Hin].
      assert (Hold : (l, rid, p) ∈ roster_players d).
      { unfold odds_rows in Hin. apply elem_of_filter in Hin as [_ Hin]. exact Hin. }
      rewrite (decided_flag_elsewhere l rid p (decided_old_elsewhere _ _ _ Hold)).
      exact Hf.
    + inversion Heq; subst. apply elem_of_intersection in Hh as [Hh Hi]. split.
      * rewrite (decided_flag_here rid0 pid Hh).
        rewrite bool_decide_eq_true_2 by exact Hi. reflexivity.
      * right. exists rid0. split; [reflexivity | exact Hh].
Qed.

Lemma decided_disjoint pid (X : gset Z) :
  odds_rows d pid ## set_map (fun rid : Z => (lid, rid, pid)) X.
Proof.
  apply elem_of_disjoint. intros [[l rid] p] Hin Hm.
  apply elem_of_map in Hm as (rid0 & Heq & _). inversion Heq; subst.
  unfold odds_rows in Hin. apply elem_of_filter in Hin as [_ Hin].
  exact (proj2 d_fresh rid0 pid Hin).
Qed.

Lemma decided_counts pid :
  size (odds_rows d' pid) = (size (odds_rows d pid) + size (holders pid rs))%nat
  /\ size (filter (fun x => joined_flag d' x = Some 1) (odds_rows d' pid))
     = (size (filter (fun x => joined_flag d x = Some 1%Z) (odds_rows d pid))
        + size (holders pid rs ∩ ids))%nat.
Proof.
  assert (Hinj : Inj (=) (=) (fun rid : Z => (lid, rid, pid))).
  { intros a b Hab. inversion Hab. reflexivity. }
  split.
  - rewrite decided_odds_rows, size_union by apply decided_disjoint.
    rewrite (size_set_map_inj _ _ Hinj). reflexivity.
  - rewrite decided_playoff_rows, size_union.
    + rewrite (size_set_map_inj _ _ Hinj). reflexivity.
    + apply elem_of_disjoint. intros x Hx Hm.
      apply elem_of_filter in Hx as [_ Hx].
      exact (proj1 (elem_of_disjoint _ _) (decided_disjoint pid _) x Hx Hm).
Qed.

End Decided.

Lemma decided_readers srv lid season w rs br pid total playoffs :
  fst (process_league srv lid season w) = Return true ->
  fst (get_league_rosters srv lid (after [ELeague lid] w)) = Return rs ->
  fst (get_winners_bracket srv lid (after [ELeague lid; ELeagueRosters lid] w)) = Return br ->
  extract_playoff_roster_ids br <> ∅ ->
  no_rosters_of lid (db w) ->
  fst (get_playoff_odds pid w) = Return (total, playoffs) ->
  fst (get_playoff_odds pid (snd (process_league srv lid season w)))
  = Return (total + Z.of_nat (size (holders pid rs)),
            playoffs + Z.of_nat (size (holders pid rs ∩ extract_playoff_roster_ids br))).
Proof.
  intros Hok Hr Hb Hids Hfresh Hold.
  destruct (process_league_success_inv srv lid season w Hok)
    as (lg & rs' & br' & Hl & Ht & Hs & Hf & Hr' & Hne & Hb' & Hsl & Hsr).
  assert (rs' = rs) as -> by congruence.
  assert (br' = br) as -> by congruence.
  unfold get_playoff_odds, gets in *. cbn [fst] in *.
  rewrite (process_league_db srv lid season w lg rs br Hl Ht Hs Hf Hr Hne Hb Hsl Hsr).
  destruct (decided_counts lid (extract_playoff_roster_ids br) rs
              (<[lid := league_row_of season lg]> (leagues (db w))) (db w) Hids Hfresh pid)
    as [H1 H2].
  rewrite H1, H2. inversion Hold; subst. f_equal. f_equal; lia.
Qed.

(** X26: what a league with a decided bracket adds to a player's odds.
    When [process_league] succeeds on a league of which the store had no
    roster and no membership row, and the bracket names at least one team,
    the total that [get_playoff_odds] reports for a player grows by the
    number of distinct roster ids among the fetched rosters that hold the
    player, and the playoff count by the number of those ids that occupy a
    slot of the bracket. *)
Theorem decided_league_counts srv lid season w rs br pid total playoffs :
  fst (process_league srv lid season w) = Return true ->
  fst (get_league_rosters srv lid (after [ELeague lid] w)) = Return rs ->
  fst (get_winners_bracket srv lid (after [ELeague lid; ELeagueRosters lid] w)) = Return br ->
  extract_playoff_roster_ids br <> ∅ ->
  no_rosters_of lid (db w) ->
  fst (get_playoff_odds pid w) = Return (total, playoffs) ->
  fst (get_playoff_odds pid (snd (process_league srv lid season w)))
  = Return (total + Z.of_nat (size (holders pid rs)),
            playoffs + Z.of_nat (size (holders pid rs ∩ extract_playoff_roster_ids br))).
Proof. exact (decided_readers srv lid season w rs br pid total playoffs). Qed.

Lemma decided_league_counts_witness :
  fst (get_playoff_odds "p1" (snd (process_league edge_srv "B" 2025 demo_world)))
  = Return (0 + Z.of_nat (size (holders "p1" demo_rosters)),
            0 + Z.of_nat (size (holders "p1" demo_rosters
                                ∩ extract_playoff_roster_ids demo_bracket)))
  /\ size (holders "p1" demo_rosters) = 2%nat
  /\ size (holders "p1" demo_rosters ∩ extract_playoff_roster_ids demo_bracket) = 1%nat.
Proof.
  split; [|split; vm_compute; reflexivity].
  apply (decided_league_counts edge_srv "B" 2025 demo_world demo_rosters demo_bracket
           "p1" 0 0).
  - vm_compute. reflexivity.
  - vm_compute. reflexivity.
  - vm_compute. reflexivity.
  - intros He. assert (H3 : 3 ∈ extract_playoff_roster_ids demo_bracket).
    { apply extract_elem_of. exists (Matchup (Some 3) (Some 5)).
      split; [apply elem_of_cons; left; reflexivity | left; reflexivity]. }
    rewrite He in H3. inversion H3.
  - split; [intros rid; apply lookup_empty | intros rid p; apply not_elem_of_empty].
  - vm_compute. reflexivity.
Defined.
